(** * bay.lgbt: the Instagram ingestion pipeline (src/utils/instagram.ts)

    A shallow embedding of the pipeline that fetches an organizer's posts,
    stores them once, runs OCR and inference on each new post, completes and
    gates the inferred fields, and persists the resulting event.

    Values are taken at the types the TypeScript declares: a number field is
    an integer or null ([option Z]), a flag is a boolean or null, a string is
    a string or null.  Instants are milliseconds since the epoch, as in a JS
    [Date]; an invalid [Date] is [None]. *)

From Stdlib Require Import ZArith List String Ascii Bool Lia.
From Stdlib Require Import Sorted.
Import ListNotations.
Open Scope string_scope.
Open Scope list_scope.
Open Scope Z_scope.

(** ** The calendar library

    [persistEvent] builds its instants with Luxon: [DateTime.fromObject] in
    the zone America/Los_Angeles, [plus({days})], [toUTC().toJSDate()].  This
    module holds the parts of the library those three calls run. *)
Module Luxon.

Definition msPerMinute : Z := 60000.
Definition msPerHour : Z := 3600000.
Definition msPerDay : Z := 86400000.

(** The range of a JS time value (ECMAScript TimeClip). *)
Definition maxTime : Z := 8640000000000000.

Definition TimeClip (t : Z) : option Z :=
  if Z.abs t <=? maxTime then Some t else None.

Definition isLeapYear (year : Z) : bool :=
  (year mod 4 =? 0) && (negb (year mod 100 =? 0) || (year mod 400 =? 0)).

Definition daysInMonth (year month : Z) : Z :=
  let modMonth := (month - 1) mod 12 + 1 in
  let modYear := year + (month - modMonth) / 12 in
  if modMonth =? 2 then (if isLeapYear modYear then 29 else 28)
  else nth (Z.to_nat (modMonth - 1)) [31; 0; 31; 30; 31; 30; 31; 31; 30; 31; 30; 31] 0.

(** Day number (days since 1970-01-01) of a proleptic Gregorian date; the
    day of the month is not bounded, so that day 32 carries into the next
    month the way [Date.UTC] carries it. *)
Definition daysFromCivil (year month day : Z) : Z :=
  let y := if month <=? 2 then year - 1 else year in
  let era := y / 400 in
  let yoe := y mod 400 in
  let mp := if 2 <? month then month - 3 else month + 9 in
  let doy := (153 * mp + 2) / 5 + day - 1 in
  let doe := yoe * 365 + yoe / 4 - yoe / 100 + doy in
  era * 146097 + doe - 719468.

(** The date of a day number. *)
Definition civilFromDays (z : Z) : Z * Z * Z :=
  let z0 := z + 719468 in
  let era := z0 / 146097 in
  let doe := z0 mod 146097 in
  let yoe := (doe - doe / 1460 + doe / 36524 - doe / 146096) / 365 in
  let doy := doe - (365 * yoe + yoe / 4 - yoe / 100) in
  let mp := (5 * doy + 2) / 153 in
  let d := doy - (153 * mp + 2) / 5 + 1 in
  let m := if mp <? 10 then mp + 3 else mp - 9 in
  let y := yoe + era * 400 in
  ((if m <=? 2 then y + 1 else y), m, d).

(** The calendar fields of a [DateTime] (its [c]). *)
Record GregorianObject := {
  year : Z; month : Z; day : Z;
  hour : Z; minute : Z; second : Z; millisecond : Z
}.

(** [objToLocalTS]: the fields read as a UTC date ([Date.UTC]). *)
Definition objToLocalTS (c : GregorianObject) : Z :=
  daysFromCivil c.(year) c.(month) c.(day) * msPerDay
  + c.(hour) * msPerHour + c.(minute) * msPerMinute
  + c.(second) * 1000 + c.(millisecond).

(** The fields of a local timestamp. *)
Definition localObj (local : Z) : GregorianObject :=
  let '(y, m, d) := civilFromDays (local / msPerDay) in
  let r := local mod msPerDay in
  {| year := y; month := m; day := d;
     hour := r / msPerHour;
     minute := (r mod msPerHour) / msPerMinute;
     second := (r mod msPerMinute) / 1000;
     millisecond := r mod 1000 |}.

(** [tsToObj(ts, offset)], the offset in minutes. *)
Definition tsToObj (ts offset : Z) : GregorianObject :=
  localObj (ts + offset * msPerMinute).

(** A zone gives its offset from UTC, in minutes, at an instant. *)
Definition Zone := Z -> Z.

(** Day number of the first Sunday on or after a day; 1970-01-01 was a
    Thursday. *)
Definition sundayOnOrAfter (dayNumber : Z) : Z :=
  dayNumber + (7 - (dayNumber + 4) mod 7) mod 7.

Definition utcYear (ts : Z) : Z :=
  let '(y, _, _) := civilFromDays (ts / msPerDay) in y.

(** America/Los_Angeles under the rule in force since 2007: daylight time
    (UTC-7) from 02:00 standard time on the second Sunday of March to
    02:00 daylight time on the first Sunday of November, standard time
    (UTC-8) otherwise.  Earlier years followed other dates; the offsets
    were the same two. *)
Definition America_Los_Angeles : Zone := fun ts =>
  let y := utcYear ts in
  let dstStart := sundayOnOrAfter (daysFromCivil y 3 8) * msPerDay + 10 * msPerHour in
  let dstEnd := sundayOnOrAfter (daysFromCivil y 11 1) * msPerDay + 9 * msPerHour in
  if (dstStart <=? ts) && (ts <? dstEnd) then -420 else -480.

(** [fixOffset(localTS, o, tz)]: the instant of a local time, [o] the
    guessed offset; returns the instant and its offset. *)
Definition fixOffset (localTS o : Z) (tz : Zone) : Z * Z :=
  let utcGuess := localTS - o * msPerMinute in
  let o2 := tz utcGuess in
  if o =? o2 then (utcGuess, o)
  else
    let utcGuess' := utcGuess - (o2 - o) * msPerMinute in
    let o3 := tz utcGuess' in
    if o2 =? o3 then (utcGuess', o2)
    else (localTS - Z.min o2 o3 * msPerMinute, Z.max o2 o3).

(** A valid [DateTime]: its instant, its offset and its zone.  An invalid
    one is [None]. *)
Record DateTime := { ts : Z; o : Z; zone : Zone }.

(** [hasInvalidGregorianData] and [hasInvalidTimeData], negated. *)
Definition validGregorian (c : GregorianObject) : bool :=
  (1 <=? c.(month)) && (c.(month) <=? 12)
  && (1 <=? c.(day)) && (c.(day) <=? daysInMonth c.(year) c.(month)).

Definition validTime (c : GregorianObject) : bool :=
  ((0 <=? c.(hour)) && (c.(hour) <=? 23)
   || ((c.(hour) =? 24) && (c.(minute) =? 0) && (c.(second) =? 0) && (c.(millisecond) =? 0)))
  && (0 <=? c.(minute)) && (c.(minute) <=? 59)
  && (0 <=? c.(second)) && (c.(second) <=? 59)
  && (0 <=? c.(millisecond)) && (c.(millisecond) <=? 999).

(** The fields [DateTime.fromObject({year, month, day, hour, minute},
    {zone})] works with, at the instant [now].  A null unit is skipped by
    [normalizeObject]; a unit missing above the first one given takes its
    value from [now], and one missing below it takes its default (month 1).
    Day, hour and minute are always given by the caller here; second and
    millisecond never. *)
Definition normalized (tz : Zone) (now : Z)
    (year month : option Z) (day hour minute : Z) : GregorianObject :=
  let objNow := tsToObj now (tz now) in
  {| Luxon.year := match year with Some y => y | None => objNow.(Luxon.year) end;
     Luxon.month := match month, year with
                    | Some m, _ => m
                    | None, Some _ => 1
                    | None, None => objNow.(Luxon.month)
                    end;
     Luxon.day := day; Luxon.hour := hour; Luxon.minute := minute;
     second := 0; millisecond := 0 |}.

(** The rest of [fromObject]: the fields are checked and resolved in the
    zone, the offset at [now] being the first guess. *)
Definition resolve (tz : Zone) (now : Z) (c : GregorianObject) : option DateTime :=
  if validGregorian c && validTime c then
    match TimeClip (objToLocalTS c) with
    | Some localTS =>
        let '(tsFinal, offsetFinal) := fixOffset localTS (tz now) tz in
        Some {| ts := tsFinal; o := offsetFinal; zone := tz |}
    | None => None
    end
  else None.

Definition fromObject (tz : Zone) (now : Z)
    (year month : option Z) (day hour minute : Z) : option DateTime :=
  resolve tz now (normalized tz now year month day hour minute).

(** [dt.plus({days})] ([adjustTime] with only days to add): the local date
    moves by [days], the overflow carried by [objToLocalTS]; the offset of
    the receiver is the guess for the new instant. *)
Definition plusDays (dt : option DateTime) (days : Z) : option DateTime :=
  match dt with
  | None => None
  | Some inst =>
      let c := tsToObj inst.(ts) inst.(o) in
      let c' := {| Luxon.year := c.(Luxon.year); Luxon.month := c.(Luxon.month);
                   Luxon.day := Z.min c.(Luxon.day) (daysInMonth c.(Luxon.year) c.(Luxon.month)) + days;
                   Luxon.hour := c.(Luxon.hour); Luxon.minute := c.(Luxon.minute);
                   second := c.(second); millisecond := c.(millisecond) |} in
      match TimeClip (objToLocalTS c') with
      | Some localTS =>
          let '(ts', o') := fixOffset localTS inst.(o) inst.(zone) in
          Some {| ts := ts'; o := o'; zone := inst.(zone) |}
      | None => None
      end
  end.

(** [dt.toUTC().toJSDate()]: the instant, or an invalid [Date]. *)
Definition toJSDate (dt : option DateTime) : option Z :=
  match dt with
  | Some inst => TimeClip inst.(ts)
  | None => None
  end.

End Luxon.

(** ** Data model *)

(** A configured account (an entry of [eventSourcesJSON.instagram]). *)
Module InstagramSource.
Record t := { username : string; city : string; context_clues : list string }.
End InstagramSource.

(** Row of the organizers table. *)
Module InstagramEventOrganizer.
Record t := {
  id : Z; username : string; city : string;
  contextClues : string; lastUpdated : Z
}.
End InstagramEventOrganizer.

(** A post as the Instagram API returns it. *)
Inductive MediaType := IMAGE | CAROUSEL_ALBUM | VIDEO | OtherMedia (name : string).

Module InstagramApiPost.
Record child := { child_media_url : option string; child_media_type : MediaType }.
Record t := {
  id : string; permalink : string; caption : option string;
  timestamp : string; media_type : MediaType;
  media_url : option string; children : option (list child)
}.
End InstagramApiPost.

(** Row of the posts table.  The column [mediaUrlsJson] holds
    [JSON.stringify] of a list of URLs or of null and is only ever read back
    with [JSON.parse]; it is kept as the value it encodes. *)
Module InstagramPost.
Record t := {
  id : string; url : string; organizerId : Z; caption : option string;
  postDate : string; mediaUrlsJson : option (list string);
  completedAt : option Z
}.
End InstagramPost.

(** Row of the events table; [start] and [end_] are JS dates. *)
Module InstagramEvent.
Record t := {
  id : Z; postID : string; start : option Z; end_ : option Z;
  url : string; title : string; organizerId : Z
}.
End InstagramEvent.

(** The inference result: what [postProcessOpenAiInstagramResponse] returns
    and [persistEvent] reads. *)
Record OpenAiInstagramResult := {
  isEvent : option bool;
  title : option string;
  startHourMilitaryTime : option Z;
  endHourMilitaryTime : option Z;
  isPastEvent : option bool;
  hasStartHourInPost : option bool;
  startMinute : option Z;
  endMinute : option Z;
  startDay : option Z;
  endDay : option Z;
  startMonth : option Z;
  endMonth : option Z;
  startYear : option Z;
  endYear : option Z
}.

(** The keys [postProcessOpenAiInstagramResponse] requires. *)
Inductive Key :=
| K_isEvent | K_title | K_startHourMilitaryTime | K_endHourMilitaryTime
| K_isPastEvent | K_hasStartHourInPost | K_startMinute | K_endMinute
| K_startDay | K_endDay | K_startMonth | K_endMonth | K_startYear | K_endYear.

Definition requiredKeys : list Key :=
  [K_isEvent; K_title; K_startHourMilitaryTime; K_endHourMilitaryTime;
   K_isPastEvent; K_hasStartHourInPost; K_startMinute; K_endMinute;
   K_startDay; K_endDay; K_startMonth; K_endMonth; K_startYear; K_endYear].

(** The object [JSON.parse] returns for a generated candidate: for each of
    the keys above, whether the object has it ([None]: it has not) and its
    value, null included.  Other keys play no part. *)
Record ParsedObject := {
  own_isEvent : option (option bool);
  own_title : option (option string);
  own_startHourMilitaryTime : option (option Z);
  own_endHourMilitaryTime : option (option Z);
  own_isPastEvent : option (option bool);
  own_hasStartHourInPost : option (option bool);
  own_startMinute : option (option Z);
  own_endMinute : option (option Z);
  own_startDay : option (option Z);
  own_endDay : option (option Z);
  own_startMonth : option (option Z);
  own_endMonth : option (option Z);
  own_startYear : option (option Z);
  own_endYear : option (option Z)
}.

Definition isSome {A} (x : option A) : bool :=
  match x with Some _ => true | None => false end.

(** [Object.hasOwn(object, key)]. *)
Definition hasOwn (object : ParsedObject) (k : Key) : bool :=
  match k with
  | K_isEvent => isSome object.(own_isEvent)
  | K_title => isSome object.(own_title)
  | K_startHourMilitaryTime => isSome object.(own_startHourMilitaryTime)
  | K_endHourMilitaryTime => isSome object.(own_endHourMilitaryTime)
  | K_isPastEvent => isSome object.(own_isPastEvent)
  | K_hasStartHourInPost => isSome object.(own_hasStartHourInPost)
  | K_startMinute => isSome object.(own_startMinute)
  | K_endMinute => isSome object.(own_endMinute)
  | K_startDay => isSome object.(own_startDay)
  | K_endDay => isSome object.(own_endDay)
  | K_startMonth => isSome object.(own_startMonth)
  | K_endMonth => isSome object.(own_endMonth)
  | K_startYear => isSome object.(own_startYear)
  | K_endYear => isSome object.(own_endYear)
  end.

(** Reading a property.  The completion pass runs only on an object that
    has all fourteen keys, so the reading of an absent one is never used. *)
Definition prop {A} (x : option (option A)) : option A :=
  match x with Some v => v | None => None end.

Definition fields (object : ParsedObject) : OpenAiInstagramResult :=
  {| isEvent := prop object.(own_isEvent);
     title := prop object.(own_title);
     startHourMilitaryTime := prop object.(own_startHourMilitaryTime);
     endHourMilitaryTime := prop object.(own_endHourMilitaryTime);
     isPastEvent := prop object.(own_isPastEvent);
     hasStartHourInPost := prop object.(own_hasStartHourInPost);
     startMinute := prop object.(own_startMinute);
     endMinute := prop object.(own_endMinute);
     startDay := prop object.(own_startDay);
     endDay := prop object.(own_endDay);
     startMonth := prop object.(own_startMonth);
     endMonth := prop object.(own_endMonth);
     startYear := prop object.(own_startYear);
     endYear := prop object.(own_endYear) |}.

(** ** Failures and the outside world *)

Inductive Error :=
| RateLimit (calls cpuTime time : option Z)   (* 'Instagram rate limit hit: ...' *)
| ApiError (message : string)                 (* responseBody.error.message *)
| SyntaxError                                 (* JSON.parse *)
| MissingFields                               (* 'JSON does not contain expected fields' *)
| TypeError                                   (* a property read on undefined *)
| MissingCredentials                          (* 'GOOGLE_CLOUD_VISION_... not found.' *)
| UniqueConstraint                            (* Prisma's P2002 *)
| ServiceFailure (message : string).          (* a collaborator's call rejected *)

Inductive result (A : Type) := Ok (a : A) | Threw (e : Error).
Arguments Ok {A} a.
Arguments Threw {A} e.

(** The [X-App-Usage] header of the fetch response. *)
Inductive UsageHeader :=
| NoHeader                                    (* absent or empty: falsy *)
| BadHeader                                   (* not JSON *)
| AppUsage (call_count total_cputime total_time : option Z).

Inductive ResponseBody :=
| BadBody                                     (* response.json() rejects *)
| ErrorBody (message : string)                (* { error: { message } } *)
| NoMedia                                     (* no business_discovery.media *)
| MediaData (data : list InstagramApiPost.t).

Inductive FetchOutcome :=
| FetchFailed (message : string)
| Response (usage : UsageHeader) (body : ResponseBody).

(** The collaborators of one run: the source list, the Instagram API
    ([fetch] of the URL built for a username), the OCR service and whether
    its credentials are set, the inference service ([completion] is the
    content of the first choice [executePrompt] returns for the prompt
    [instagramInitialPrompt] builds from the organizer, the post and the OCR
    text; both are defined in utils/openai), the JSON parser, and the clock
    ([now] in milliseconds, [fullYear] the year [new Date()] shows). *)
Record World := {
  sources : list InstagramSource.t;
  fetch : string -> FetchOutcome;
  visionCredentials : bool;
  textDetection : string -> result string;
  completion : InstagramEventOrganizer.t -> InstagramPost.t -> option string
               -> result (option string);
  JSON_parse : string -> option ParsedObject;
  now : Z;
  fullYear : Z
}.

(** ** State: the store, the log, and the requests sent out *)

(** The records logged at the levels error and info; those at the level
    debug are left out. *)
Inductive LogRecord :=
| UnknownMediaType (post : InstagramApiPost.t)
| ErrorIngesting (error : Error) (organizer : string)
| StartingUser (username : string)
| CompletedUser (eventCount : nat) (username : string)
| StartingAll
| CompletedAll (countsBySource : list (InstagramSource.t * nat)).

(** The three tables, rows in the order of their creation; the log; the URLs
    sent to text detection; the inference requests, each with the id of its
    post and the OCR text it carries. *)
Record State := {
  organizers : list InstagramEventOrganizer.t;
  posts : list InstagramPost.t;
  events : list InstagramEvent.t;
  log : list LogRecord;
  ocrRequests : list string;
  inferenceRequests : list (string * option string)
}.

Definition emptyState : State :=
  {| organizers := []; posts := []; events := []; log := [];
     ocrRequests := []; inferenceRequests := [] |}.

Definition withOrganizers (f : list InstagramEventOrganizer.t -> list InstagramEventOrganizer.t) (st : State) : State :=
  {| organizers := f st.(organizers); posts := st.(posts); events := st.(events);
     log := st.(log); ocrRequests := st.(ocrRequests);
     inferenceRequests := st.(inferenceRequests) |}.

Definition withPosts (f : list InstagramPost.t -> list InstagramPost.t) (st : State) : State :=
  {| organizers := st.(organizers); posts := f st.(posts); events := st.(events);
     log := st.(log); ocrRequests := st.(ocrRequests);
     inferenceRequests := st.(inferenceRequests) |}.

Definition withEvents (f : list InstagramEvent.t -> list InstagramEvent.t) (st : State) : State :=
  {| organizers := st.(organizers); posts := st.(posts); events := f st.(events);
     log := st.(log); ocrRequests := st.(ocrRequests);
     inferenceRequests := st.(inferenceRequests) |}.

Definition withLog (f : list LogRecord -> list LogRecord) (st : State) : State :=
  {| organizers := st.(organizers); posts := st.(posts); events := st.(events);
     log := f st.(log); ocrRequests := st.(ocrRequests);
     inferenceRequests := st.(inferenceRequests) |}.

Definition withOcrRequests (f : list string -> list string) (st : State) : State :=
  {| organizers := st.(organizers); posts := st.(posts); events := st.(events);
     log := st.(log); ocrRequests := f st.(ocrRequests);
     inferenceRequests := st.(inferenceRequests) |}.

Definition withInferenceRequests (f : list (string * option string) -> list (string * option string)) (st : State) : State :=
  {| organizers := st.(organizers); posts := st.(posts); events := st.(events);
     log := st.(log); ocrRequests := st.(ocrRequests);
     inferenceRequests := f st.(inferenceRequests) |}.

(** An async function: it runs from a state, and returns or throws.  What it
    wrote before throwing stays written. *)
Definition M (A : Type) : Type := State -> result A * State.

Definition ret {A} (a : A) : M A := fun st => (Ok a, st).

Definition throw {A} (e : Error) : M A := fun st => (Threw e, st).

Definition bind {A B} (c : M A) (k : A -> M B) : M B :=
  fun st =>
    match c st with
    | (Ok a, st') => k a st'
    | (Threw e, st') => (Threw e, st')
    end.

Definition tryCatch {A} (body : M A) (handler : Error -> M A) : M A :=
  fun st =>
    match body st with
    | (Ok a, st') => (Ok a, st')
    | (Threw e, st') => handler e st'
    end.

Definition lift {A} (r : result A) : M A := fun st => (r, st).

Definition modify (f : State -> State) : M unit := fun st => (Ok tt, f st).

Definition logger (r : LogRecord) : M unit := modify (withLog (fun l => l ++ [r])).

Declare Scope async_scope.
Delimit Scope async_scope with async.
Notation "x <- c ;; k" := (bind c (fun x => k))
  (at level 61, c at next level, right associativity) : async_scope.
Notation "c ;;; k" := (bind c (fun _ => k))
  (at level 61, right associativity) : async_scope.
Open Scope async_scope.

(** [Promise.all(ps)] once every promise has settled.  The promises are all
    started before any is awaited, each runs to its end whether or not
    another rejects, and they meet only in the store; they are run here one
    after the other in the order of the list.  The call rejects when one of
    them rejected (with the first rejection of the list) and otherwise
    returns the values in order. *)
Fixpoint settleAll {A} (ps : list (M A)) (st : State) : list (result A) * State :=
  match ps with
  | [] => ([], st)
  | p :: ps' =>
      let '(r, st1) := p st in
      let '(rs, st2) := settleAll ps' st1 in
      (r :: rs, st2)
  end.

Fixpoint allFulfilled {A} (rs : list (result A)) : result (list A) :=
  match rs with
  | [] => Ok []
  | Threw e :: _ => Threw e
  | Ok a :: rs' =>
      match allFulfilled rs' with
      | Ok l => Ok (a :: l)
      | Threw e => Threw e
      end
  end.

Definition Promise_all {A} (ps : list (M A)) : M (list A) :=
  fun st => let '(rs, st') := settleAll ps st in (allFulfilled rs, st').

(** ** The pipeline *)

Definition newline : string := String (ascii_of_nat 10) EmptyString.

(** One [client.textDetection(url)]: the full text of the image, or ''. *)
Definition annotate (w : World) (url : string) : M string :=
  fun st => (w.(textDetection) url, withOcrRequests (fun l => l ++ [url]) st).

Definition fetchOcrResults (w : World) (urls : list string) : M string :=
  if w.(visionCredentials) then
    annotationsAll <- Promise_all (map (annotate w) urls);;
    ret (String.concat newline annotationsAll)
  else throw MissingCredentials.

(** [x >= 100] for a metric that may be missing from the header. *)
Definition atLeast100 (x : option Z) : bool :=
  match x with Some v => 100 <=? v | None => false end.

Definition rateLimitHit (callCount totalCPUTime totalTime : option Z) : bool :=
  atLeast100 callCount || atLeast100 totalCPUTime || atLeast100 totalTime.

(** Fetches the five most recent posts from the given Instagram account.
    The header is read before the body; under the limit a debug record is
    logged, which is not kept here. *)
Definition fetchPosts (w : World) (organizer : InstagramEventOrganizer.t)
    : M (list InstagramApiPost.t) :=
  match w.(fetch) organizer.(InstagramEventOrganizer.username) with
  | FetchFailed message => throw (ServiceFailure message)
  | Response rateLimitHeader responseBody =>
      (match rateLimitHeader with
       | NoHeader => ret tt
       | BadHeader => throw SyntaxError
       | AppUsage callCount totalCPUTime totalTime =>
           if rateLimitHit callCount totalCPUTime totalTime
           then throw (RateLimit callCount totalCPUTime totalTime)
           else ret tt
       end);;;
      match responseBody with
      | BadBody => throw SyntaxError
      | ErrorBody message => throw (ApiError message)
      | NoMedia => throw TypeError
      | MediaData data => ret data
      end
  end.

(** [generatedJson.replace(/^[^{]*/, '').replace(/[^}]*$/, '')]. *)
Fixpoint dropUntil (stop : ascii) (s : list ascii) : list ascii :=
  match s with
  | [] => []
  | c :: rest => if Ascii.eqb c stop then s else dropUntil stop rest
  end.

Definition fixGeneratedJson (generatedJson : string) : string :=
  let leading := dropUntil "{"%char (list_ascii_of_string generatedJson) in
  string_of_list_ascii (rev (dropUntil "}"%char (rev leading))).

Definition hasAllProperties (object : ParsedObject) : bool :=
  hasOwn object K_isEvent
  && hasOwn object K_title
  && hasOwn object K_startHourMilitaryTime
  && hasOwn object K_endHourMilitaryTime
  && hasOwn object K_isPastEvent
  && hasOwn object K_hasStartHourInPost
  && hasOwn object K_startMinute
  && hasOwn object K_endMinute
  && hasOwn object K_startDay
  && hasOwn object K_endDay
  && hasOwn object K_startMonth
  && hasOwn object K_endMonth
  && hasOwn object K_startYear
  && hasOwn object K_endYear.

(** [x === null] and [x === n]. *)
Definition isNull {A} (x : option A) : bool := negb (isSome x).

Definition isNumber (x : option Z) (n : Z) : bool :=
  match x with Some v => v =? n | None => false end.

(** The number a nullable number stands for in a sum: null is 0. *)
Definition toNumber (x : option Z) : Z :=
  match x with Some v => v | None => 0 end.

Definition set_startYear v (r : OpenAiInstagramResult) : OpenAiInstagramResult :=
  {| isEvent := r.(isEvent); title := r.(title);
     startHourMilitaryTime := r.(startHourMilitaryTime);
     endHourMilitaryTime := r.(endHourMilitaryTime);
     isPastEvent := r.(isPastEvent); hasStartHourInPost := r.(hasStartHourInPost);
     startMinute := r.(startMinute); endMinute := r.(endMinute);
     startDay := r.(startDay); endDay := r.(endDay);
     startMonth := r.(startMonth); endMonth := r.(endMonth);
     startYear := v; endYear := r.(endYear) |}.

Definition set_endYear v (r : OpenAiInstagramResult) : OpenAiInstagramResult :=
  {| isEvent := r.(isEvent); title := r.(title);
     startHourMilitaryTime := r.(startHourMilitaryTime);
     endHourMilitaryTime := r.(endHourMilitaryTime);
     isPastEvent := r.(isPastEvent); hasStartHourInPost := r.(hasStartHourInPost);
     startMinute := r.(startMinute); endMinute := r.(endMinute);
     startDay := r.(startDay); endDay := r.(endDay);
     startMonth := r.(startMonth); endMonth := r.(endMonth);
     startYear := r.(startYear); endYear := v |}.

Definition set_startMinute v (r : OpenAiInstagramResult) : OpenAiInstagramResult :=
  {| isEvent := r.(isEvent); title := r.(title);
     startHourMilitaryTime := r.(startHourMilitaryTime);
     endHourMilitaryTime := r.(endHourMilitaryTime);
     isPastEvent := r.(isPastEvent); hasStartHourInPost := r.(hasStartHourInPost);
     startMinute := v; endMinute := r.(endMinute);
     startDay := r.(startDay); endDay := r.(endDay);
     startMonth := r.(startMonth); endMonth := r.(endMonth);
     startYear := r.(startYear); endYear := r.(endYear) |}.

Definition set_endMinute v (r : OpenAiInstagramResult) : OpenAiInstagramResult :=
  {| isEvent := r.(isEvent); title := r.(title);
     startHourMilitaryTime := r.(startHourMilitaryTime);
     endHourMilitaryTime := r.(endHourMilitaryTime);
     isPastEvent := r.(isPastEvent); hasStartHourInPost := r.(hasStartHourInPost);
     startMinute := r.(startMinute); endMinute := v;
     startDay := r.(startDay); endDay := r.(endDay);
     startMonth := r.(startMonth); endMonth := r.(endMonth);
     startYear := r.(startYear); endYear := r.(endYear) |}.

Definition set_endMonth v (r : OpenAiInstagramResult) : OpenAiInstagramResult :=
  {| isEvent := r.(isEvent); title := r.(title);
     startHourMilitaryTime := r.(startHourMilitaryTime);
     endHourMilitaryTime := r.(endHourMilitaryTime);
     isPastEvent := r.(isPastEvent); hasStartHourInPost := r.(hasStartHourInPost);
     startMinute := r.(startMinute); endMinute := r.(endMinute);
     startDay := r.(startDay); endDay := r.(endDay);
     startMonth := r.(startMonth); endMonth := v;
     startYear := r.(startYear); endYear := r.(endYear) |}.

Definition set_endDay v (r : OpenAiInstagramResult) : OpenAiInstagramResult :=
  {| isEvent := r.(isEvent); title := r.(title);
     startHourMilitaryTime := r.(startHourMilitaryTime);
     endHourMilitaryTime := r.(endHourMilitaryTime);
     isPastEvent := r.(isPastEvent); hasStartHourInPost := r.(hasStartHourInPost);
     startMinute := r.(startMinute); endMinute := r.(endMinute);
     startDay := r.(startDay); endDay := v;
     startMonth := r.(startMonth); endMonth := r.(endMonth);
     startYear := r.(startYear); endYear := r.(endYear) |}.

Definition set_endHourMilitaryTime v (r : OpenAiInstagramResult) : OpenAiInstagramResult :=
  {| isEvent := r.(isEvent); title := r.(title);
     startHourMilitaryTime := r.(startHourMilitaryTime);
     endHourMilitaryTime := v;
     isPastEvent := r.(isPastEvent); hasStartHourInPost := r.(hasStartHourInPost);
     startMinute := r.(startMinute); endMinute := r.(endMinute);
     startDay := r.(startDay); endDay := r.(endDay);
     startMonth := r.(startMonth); endMonth := r.(endMonth);
     startYear := r.(startYear); endYear := r.(endYear) |}.

(** The post-processing block of [postProcessOpenAiInstagramResponse], one
    definition for each [if] of the source. *)
Definition defaultStartYear (fullYear : Z) (object : OpenAiInstagramResult) :=
  if isNull object.(startYear) then set_startYear (Some fullYear) object else object.

Definition defaultEndYear (object : OpenAiInstagramResult) :=
  if isNull object.(endYear) then set_endYear object.(startYear) object else object.

Definition defaultStartMinute (object : OpenAiInstagramResult) :=
  if isNull object.(startMinute) then set_startMinute (Some 0) object else object.

Definition defaultEndMinute (object : OpenAiInstagramResult) :=
  if isNull object.(endMinute) then set_endMinute (Some 0) object else object.

Definition yearRollover (object : OpenAiInstagramResult) :=
  if isNumber object.(startMonth) 12 && isNumber object.(endMonth) 1
  then set_endYear (Some (toNumber object.(startYear) + 1)) object
  else object.

Definition defaultEndMonth (object : OpenAiInstagramResult) :=
  if isNull object.(endMonth) then set_endMonth object.(startMonth) object else object.

Definition defaultEndDay (object : OpenAiInstagramResult) :=
  if isNull object.(endDay) then set_endDay object.(startDay) object else object.

Definition defaultEndHour (object : OpenAiInstagramResult) :=
  if isNull object.(endHourMilitaryTime) then
    (* End 2 hours from startHourMilitaryTime *)
    let object :=
      set_endHourMilitaryTime (Some (toNumber object.(startHourMilitaryTime) + 2)) object in
    if 23 <? toNumber object.(endHourMilitaryTime) then
      let object :=
        set_endHourMilitaryTime (Some (toNumber object.(endHourMilitaryTime) - 24)) object in
      set_endDay (Some (toNumber object.(startDay) + 1)) object
    else object
  else object.

(** The assignments run in the order of the source, each reading the object
    as the ones before left it.  [fullYear] is [new Date().getFullYear()]. *)
Definition postProcessing (fullYear : Z) (object : OpenAiInstagramResult)
    : OpenAiInstagramResult :=
  let object := defaultStartYear fullYear object in
  let object := defaultEndYear object in
  let object := defaultStartMinute object in
  let object := defaultEndMinute object in
  let object := yearRollover object in
  let object := defaultEndMonth object in
  let object := defaultEndDay object in
  let object := defaultEndHour object in
  object.

(** The text handed to [JSON.parse] starts with a brace or is empty, so a
    parse that succeeds yields an object and the test [object && ...] is the
    test of its keys. *)
Definition postProcessOpenAiInstagramResponse (w : World) (generatedJson : string)
    : result OpenAiInstagramResult :=
  match w.(JSON_parse) (fixGeneratedJson generatedJson) with
  | None => Threw SyntaxError
  | Some object =>
      if negb (hasAllProperties object) then Threw MissingFields
      else Ok (postProcessing w.(fullYear) (fields object))
  end.

Definition isTrue (x : option bool) : bool :=
  match x with Some true => true | _ => false end.

Definition isFalse (x : option bool) : bool :=
  match x with Some false => true | _ => false end.

(** The condition of the [if] of [persistEvent]. *)
Definition acceptanceGate (inference : OpenAiInstagramResult) : bool :=
  isTrue inference.(isEvent)
  && isSome inference.(startDay)
  && isSome inference.(startHourMilitaryTime)
  && isSome inference.(endHourMilitaryTime)
  && isSome inference.(startMinute)
  && isSome inference.(endMinute)
  && isSome inference.(endDay)
  && isTrue inference.(hasStartHourInPost)
  && isFalse inference.(isPastEvent).

(** A value inside a template literal. *)
Definition interpolate (x : option string) : string :=
  match x with Some s => s | None => "null" end.

Definition zone : Luxon.Zone := Luxon.America_Los_Angeles.

(** The two dates [persistEvent] writes.  They are read under the gate, where
    day, hour and minute are numbers. *)
Definition eventStart (w : World) (inference : OpenAiInstagramResult) : option Z :=
  Luxon.toJSDate
    (Luxon.fromObject zone w.(now) inference.(startYear) inference.(startMonth)
       (toNumber inference.(startDay)) (toNumber inference.(startHourMilitaryTime))
       (toNumber inference.(startMinute))).

Definition eventEnd (w : World) (inference : OpenAiInstagramResult) : option Z :=
  let end_ :=
    Luxon.fromObject zone w.(now) inference.(endYear) inference.(endMonth)
      (toNumber inference.(startDay)) (toNumber inference.(endHourMilitaryTime))
      (toNumber inference.(endMinute)) in
  (* Allow Luxon to automatically take care of overflow (i.e. day 32 of the month). *)
  let end_ :=
    Luxon.plusDays end_ (toNumber inference.(endDay) - toNumber inference.(startDay)) in
  Luxon.toJSDate end_.

(** [prisma.instagramEvent.create]: the store accepts the row and gives it
    the next id. *)
Definition createEvent (postID : string) (start end_ : option Z) (url title : string)
    (organizerId : Z) : M unit :=
  modify (fun st =>
    withEvents (fun l => l ++ [{| InstagramEvent.id := Z.of_nat (List.length l) + 1;
                                  InstagramEvent.postID := postID;
                                  InstagramEvent.start := start;
                                  InstagramEvent.end_ := end_;
                                  InstagramEvent.url := url;
                                  InstagramEvent.title := title;
                                  InstagramEvent.organizerId := organizerId |}]) st).

(** [prisma.instagramPost.update({ where: { id }, data: { completedAt } })]. *)
Definition markCompleted (id : string) (at_ : Z) (p : InstagramPost.t) : InstagramPost.t :=
  if String.eqb p.(InstagramPost.id) id then
    {| InstagramPost.id := p.(InstagramPost.id);
       InstagramPost.url := p.(InstagramPost.url);
       InstagramPost.organizerId := p.(InstagramPost.organizerId);
       InstagramPost.caption := p.(InstagramPost.caption);
       InstagramPost.postDate := p.(InstagramPost.postDate);
       InstagramPost.mediaUrlsJson := p.(InstagramPost.mediaUrlsJson);
       InstagramPost.completedAt := Some at_ |}
  else p.

Definition updateCompletedAt (id : string) (at_ : Z) : M unit :=
  modify (withPosts (map (markCompleted id at_))).

Definition persistEvent (w : World) (inference : OpenAiInstagramResult)
    (post : InstagramPost.t) (organizer : InstagramEventOrganizer.t)
    : M (option InstagramEvent.t) :=
  (if acceptanceGate inference then
     createEvent post.(InstagramPost.id)
       (eventStart w inference) (eventEnd w inference)
       post.(InstagramPost.url)
       (interpolate inference.(title) ++ " @ "
          ++ organizer.(InstagramEventOrganizer.username))%string
       post.(InstagramPost.organizerId);;;
     updateCompletedAt post.(InstagramPost.id) w.(now)
   else ret tt);;;
  ret None.

(** The inference request is recorded with the post it is about and the OCR
    text it carries. *)
Definition executePrompt (w : World) (organizer : InstagramEventOrganizer.t)
    (post : InstagramPost.t) (ocrResult : option string) : M (option string) :=
  fun st =>
    (w.(completion) organizer post ocrResult,
     withInferenceRequests (fun l => l ++ [(post.(InstagramPost.id), ocrResult)]) st).

Definition runInferenceOnPost (w : World) (organizer : InstagramEventOrganizer.t)
    (apiPost : InstagramPost.t) (ocrResult : option string)
    : M (option OpenAiInstagramResult) :=
  generatedJson <- executePrompt w organizer apiPost ocrResult;;
  match generatedJson with
  | None => ret None
  | Some EmptyString => ret None
  | Some generatedJson =>
      (* Todo: run verification prompt *)
      inference <- lift (postProcessOpenAiInstagramResponse w generatedJson);;
      ret (Some inference)
  end.

(** [.filter((mediaUrl) => mediaUrl)]: undefined and '' are dropped. *)
Fixpoint truthyUrls (urls : list (option string)) : list string :=
  match urls with
  | [] => []
  | Some (String c s) :: rest => String c s :: truthyUrls rest
  | _ :: rest => truthyUrls rest
  end.

Definition getMediaUrls (post : InstagramApiPost.t) : M (option (list string)) :=
  match post.(InstagramApiPost.media_type) with
  | IMAGE =>
      (* May be omitted for legal reasons. *)
      match post.(InstagramApiPost.media_url) with
      | Some (String c s) => ret (Some [String c s])
      | _ => ret None
      end
  | CAROUSEL_ALBUM =>
      let data := match post.(InstagramApiPost.children) with
                  | Some data => data
                  | None => []
                  end in
      (* Keep only if defined, since it may be omitted. *)
      ret (Some (truthyUrls (map InstagramApiPost.child_media_url data)))
  | VIDEO => ret None
  | OtherMedia _ => logger (UnknownMediaType post);;; ret None
  end.

Definition extractTextFromPostImages (w : World) (post : InstagramPost.t)
    : M (option string) :=
  match post.(InstagramPost.mediaUrlsJson) with
  | None => ret None
  | Some mediaUrls =>
      text <- fetchOcrResults w mediaUrls;;
      ret (Some text)
  end.

Definition extractEventFromPost (w : World) (organizer : InstagramEventOrganizer.t)
    (post : InstagramPost.t) : M (option InstagramEvent.t) :=
  imageText <- extractTextFromPostImages w post;;
  inference <- runInferenceOnPost w organizer post imageText;;
  match inference with
  | None => ret None
  | Some inference => persistEvent w inference post organizer
  end.

Definition getOrInsertOrganizer (source : InstagramSource.t)
    : M InstagramEventOrganizer.t :=
  fun st =>
    match find (fun o => String.eqb o.(InstagramEventOrganizer.username)
                           source.(InstagramSource.username)) st.(organizers) with
    | Some organizer => (Ok organizer, st)
    | None =>
        let organizer :=
          {| InstagramEventOrganizer.id := Z.of_nat (List.length st.(organizers)) + 1;
             InstagramEventOrganizer.username := source.(InstagramSource.username);
             InstagramEventOrganizer.city := source.(InstagramSource.city);
             InstagramEventOrganizer.contextClues :=
               String.concat " " source.(InstagramSource.context_clues);
             (* Set lastUpdated to as early as possible so that it will be updated first. *)
             InstagramEventOrganizer.lastUpdated := 0 |} in
        (Ok organizer, withOrganizers (fun l => l ++ [organizer]) st)
    end.

(** [prisma.instagramPost.create]: the id is unique in the table. *)
Definition createPost (row : InstagramPost.t) : M InstagramPost.t :=
  fun st =>
    if existsb (fun p => String.eqb p.(InstagramPost.id) row.(InstagramPost.id)) st.(posts)
    then (Threw UniqueConstraint, st)
    else (Ok row, withPosts (fun l => l ++ [row]) st).

(** Stores the post from the IG API in the database returning the model,
    returns null if the post already existed. *)
Definition persistPostNoneIfPresent (organizer : InstagramEventOrganizer.t)
    (post : InstagramApiPost.t) : M (option InstagramPost.t) :=
  mediaUrls <- getMediaUrls post;;
  tryCatch
    (row <- createPost
       {| InstagramPost.id := post.(InstagramApiPost.id);
          InstagramPost.url := post.(InstagramApiPost.permalink);
          InstagramPost.organizerId := organizer.(InstagramEventOrganizer.id);
          InstagramPost.caption := post.(InstagramApiPost.caption);
          InstagramPost.postDate := post.(InstagramApiPost.timestamp);
          InstagramPost.mediaUrlsJson := mediaUrls;
          InstagramPost.completedAt := None |};;
     ret (Some row))
    (fun e =>
       match e with
       | UniqueConstraint => ret None
       | _ => throw e
       end).

(** Takes a given post, runs extractors on it if it's new, persists it to
    the database as an Event if extractors determine it's an event. *)
Definition handleInstagramPost (w : World) (organizer : InstagramEventOrganizer.t)
    (apiPost : InstagramApiPost.t) : M (option InstagramEvent.t) :=
  dbPost <- persistPostNoneIfPresent organizer apiPost;;
  match dbPost with
  | None => ret None
  | Some dbPost =>
      maybeEvent <- extractEventFromPost w organizer dbPost;;
      match maybeEvent with
      | None => ret None
      | Some maybeEvent => ret (Some maybeEvent)
      end
  end.

(** The loop that keeps the events that are not null. *)
Fixpoint nonNull {A} (maybeEvents : list (option A)) : list A :=
  match maybeEvents with
  | [] => []
  | Some e :: rest => e :: nonNull rest
  | None :: rest => nonNull rest
  end.

Definition ingestEventsForOrganizer (w : World) (organizer : InstagramEventOrganizer.t)
    : M (list InstagramEvent.t) :=
  tryCatch
    (posts <- fetchPosts w organizer;;
     maybeEvents <- Promise_all (map (handleInstagramPost w organizer) posts);;
     ret (nonNull maybeEvents))
    (fun e =>
       logger (ErrorIngesting e organizer.(InstagramEventOrganizer.username));;;
       ret []).

(** [sources.filter(...)] is an array, so the test [!filtered] never holds;
    with no source of that name [filtered[0]] is undefined and
    [getOrInsertOrganizer] throws on reading its username. *)
Definition scrapeInstagramEventsForUser (w : World) (username : string) : M unit :=
  logger (StartingUser username);;;
  let filtered :=
    filter (fun source => String.eqb source.(InstagramSource.username) username)
      w.(sources) in
  match filtered with
  | [] => throw TypeError
  | source :: _ =>
      organizer <- getOrInsertOrganizer source;;
      events <- ingestEventsForOrganizer w organizer;;
      logger (CompletedUser (List.length events) username)
  end.

Definition countForSource (w : World) (source : InstagramSource.t)
    : M (InstagramSource.t * nat) :=
  organizer <- getOrInsertOrganizer source;;
  events <- ingestEventsForOrganizer w organizer;;
  ret (source, List.length events).

Definition scrapeAllInstagramEvents (w : World) : M unit :=
  logger StartingAll;;;
  countsBySource <- Promise_all (map (countForSource w) w.(sources));;
  logger (CompletedAll countsBySource).

(** [findPosts]: the organizers keyed by id, each with its posts among those
    selected.  [Object.values] lists the keys, which are ids counted from 1,
    in ascending order, and a second organizer under a key replaces the
    first. *)
Module FoundPosts.
Record entry := {
  organization : InstagramEventOrganizer.t;
  posts : list InstagramPost.t
}.
Definition t := list (Z * entry).

Fixpoint set (k : Z) (v : entry) (m : t) : t :=
  match m with
  | [] => [(k, v)]
  | (k', v') :: rest =>
      if k <? k' then (k, v) :: m
      else if k =? k' then (k, v) :: rest
      else (k', v') :: set k v rest
  end.

(** [organizersById[post.organizerId].posts.push(post)]; [None] when there
    is no such organizer, where the source reads [posts] of undefined. *)
Fixpoint push (k : Z) (post : InstagramPost.t) (m : t) : option t :=
  match m with
  | [] => None
  | (k', v') :: rest =>
      if k =? k' then
        Some ((k', {| organization := v'.(organization);
                      posts := v'.(posts) ++ [post] |}) :: rest)
      else
        match push k post rest with
        | Some rest' => Some ((k', v') :: rest')
        | None => None
        end
  end.

Definition values (m : t) : list entry := map snd m.
End FoundPosts.

Fixpoint pushPosts (found : list InstagramPost.t) (organizersById : FoundPosts.t)
    : option FoundPosts.t :=
  match found with
  | [] => Some organizersById
  | post :: rest =>
      match FoundPosts.push post.(InstagramPost.organizerId) post organizersById with
      | Some organizersById => pushPosts rest organizersById
      | None => None
      end
  end.

Definition findPosts (eventsWhere : InstagramPost.t -> bool) : M FoundPosts.t :=
  fun st =>
    let found := filter eventsWhere st.(posts) in
    let organizersById :=
      fold_left
        (fun acc organization =>
           FoundPosts.set organization.(InstagramEventOrganizer.id)
             {| FoundPosts.organization := organization; FoundPosts.posts := [] |} acc)
        st.(organizers) [] in
    match pushPosts found organizersById with
    | Some organizersById => (Ok organizersById, st)
    | None => (Threw TypeError, st)
    end.

(** The selection [{ completedAt: null }]. *)
Definition notCompleted (post : InstagramPost.t) : bool :=
  isNull post.(InstagramPost.completedAt).

(** The [Promise.all] over the organizers is not awaited: the function
    returns once the posts are found, and a rejection of the work it started
    reaches nobody.  The state returned is the one that work leaves. *)
Definition fixupInstagramIngestion (w : World) : M unit :=
  incomplete <- findPosts notCompleted;;
  fun st =>
    let '(_, st') :=
      settleAll
        (map (fun e =>
                Promise_all (map (extractEventFromPost w e.(FoundPosts.organization))
                               e.(FoundPosts.posts)))
           (FoundPosts.values incomplete)) st in
    (Ok tt, st').

(** ** The vocabulary of the statements *)

(** The hours and the start day of [b] are those of [a]. *)
Definition sameHours (a b : OpenAiInstagramResult) : Prop :=
  b.(startHourMilitaryTime) = a.(startHourMilitaryTime)
  /\ b.(endHourMilitaryTime) = a.(endHourMilitaryTime)
  /\ b.(startDay) = a.(startDay).

(** The gate as the specification words it. *)
Definition Accepted (inference : OpenAiInstagramResult) : Prop :=
  inference.(isEvent) = Some true
  /\ inference.(hasStartHourInPost) = Some true
  /\ inference.(isPastEvent) = Some false
  /\ inference.(startDay) <> None /\ inference.(endDay) <> None
  /\ inference.(startHourMilitaryTime) <> None
  /\ inference.(endHourMilitaryTime) <> None
  /\ inference.(startMinute) <> None /\ inference.(endMinute) <> None.

(** [ev] is the row [persistEvent] creates for an inference, its id apart. *)
Definition rowOf (w : World) (inference : OpenAiInstagramResult)
    (post : InstagramPost.t) (organizer : InstagramEventOrganizer.t)
    (ev : InstagramEvent.t) : Prop :=
  ev.(InstagramEvent.postID) = post.(InstagramPost.id)
  /\ ev.(InstagramEvent.start) = eventStart w inference
  /\ ev.(InstagramEvent.end_) = eventEnd w inference
  /\ ev.(InstagramEvent.url) = post.(InstagramPost.url)
  /\ ev.(InstagramEvent.title)
     = (interpolate inference.(title) ++ " @ "
          ++ organizer.(InstagramEventOrganizer.username))%string
  /\ ev.(InstagramEvent.organizerId) = post.(InstagramPost.organizerId).

(** A call that returns null or throws: it returns no event. *)
Definition returnsNull {A} (r : result (option A)) : Prop :=
  match r with
  | Ok (Some _) => False
  | _ => True
  end.

(** The three tables of [st'] are those of [st]. *)
Definition sameTables (st st' : State) : Prop :=
  st'.(organizers) = st.(organizers)
  /\ st'.(posts) = st.(posts)
  /\ st'.(events) = st.(events).

(** Between [st] and [st'] nothing was written but log records. *)
Definition onlyLogged (st st' : State) : Prop :=
  sameTables st st'
  /\ st'.(ocrRequests) = st.(ocrRequests)
  /\ st'.(inferenceRequests) = st.(inferenceRequests).

(** The post id is in the posts table. *)
Definition known (id : string) (st : State) : Prop :=
  exists p, In p st.(posts) /\ p.(InstagramPost.id) = id.

(** The posts table of [st'] has the ids of that of [st], in the same
    order. *)
Definition sameIds (st st' : State) : Prop :=
  map InstagramPost.id st'.(posts) = map InstagramPost.id st.(posts).

(** Every id stored in [st] is stored in [st']. *)
Definition keepsKnown (st st' : State) : Prop :=
  forall id, known id st -> known id st'.


(** What [extractTextFromPostImages] returns for a stored post. *)
Definition ocrOutcome (w : World) (post : InstagramPost.t) : result (option string) :=
  match post.(InstagramPost.mediaUrlsJson) with
  | None => Ok None
  | Some mediaUrls =>
      if w.(visionCredentials) then
        match allFulfilled (map w.(textDetection) mediaUrls) with
        | Ok annotationsAll => Ok (Some (String.concat newline annotationsAll))
        | Threw e => Threw e
        end
      else Threw MissingCredentials
  end.

(** The text-detection requests it sends for that post. *)
Definition ocrUrls (w : World) (post : InstagramPost.t) : list string :=
  match post.(InstagramPost.mediaUrlsJson) with
  | Some mediaUrls => if w.(visionCredentials) then mediaUrls else []
  | None => []
  end.


(** The media URLs [getMediaUrls] returns for a post, and the row
    [persistPostNoneIfPresent] creates for it. *)
Definition mediaUrlsOf (post : InstagramApiPost.t) : option (list string) :=
  match post.(InstagramApiPost.media_type) with
  | IMAGE =>
      match post.(InstagramApiPost.media_url) with
      | Some (String c s) => Some [String c s]
      | _ => None
      end
  | CAROUSEL_ALBUM =>
      Some (truthyUrls
              (map InstagramApiPost.child_media_url
                 (match post.(InstagramApiPost.children) with
                  | Some data => data
                  | None => []
                  end)))
  | VIDEO => None
  | OtherMedia _ => None
  end.

Definition rowFor (organizer : InstagramEventOrganizer.t) (post : InstagramApiPost.t)
    : InstagramPost.t :=
  {| InstagramPost.id := post.(InstagramApiPost.id);
     InstagramPost.url := post.(InstagramApiPost.permalink);
     InstagramPost.organizerId := organizer.(InstagramEventOrganizer.id);
     InstagramPost.caption := post.(InstagramApiPost.caption);
     InstagramPost.postDate := post.(InstagramApiPost.timestamp);
     InstagramPost.mediaUrlsJson := mediaUrlsOf post;
     InstagramPost.completedAt := None |}.

(** The requests of [st'] are those of [st] and then new ones, among them
    the run [ocr] of text-detection requests and the run [inference] of
    inference requests. *)
Definition requested (ocr : list string) (inference : list (string * option string))
    (st st' : State) : Prop :=
  (exists a b, st'.(ocrRequests) = st.(ocrRequests) ++ a ++ ocr ++ b)
  /\ (exists a b, st'.(inferenceRequests) = st.(inferenceRequests) ++ a ++ inference ++ b).

(** The requests of [st'] are those of [st] and then new ones. *)
Definition grows (st st' : State) : Prop := requested [] [] st st'.

(** [findPosts]: a key of the object, and a post held under some key. *)
Definition hasKey (k : Z) (m : FoundPosts.t) : Prop := In k (map fst m).

Definition holds (post : InstagramPost.t) (m : FoundPosts.t) : Prop :=
  exists k e, In (k, e) m /\ In post e.(FoundPosts.posts).

(** A check of [f] on the [n] integers from [i] on. *)
Fixpoint allFrom (n : nat) (i : Z) (f : Z -> bool) : bool :=
  match n with
  | O => true
  | S n' => if f i then allFrom n' (i + 1) f else false
  end.

(** For a day of the 400-year cycle that starts on 0000-03-01: the date of
    the day has that day number, and its day of the month is within the
    month. *)
Definition eraDayOk (doe : Z) : bool :=
  let z := doe - 719468 in
  let '(y, m, d) := Luxon.civilFromDays z in
  (Luxon.daysFromCivil y m d =? z) && (1 <=? d) && (d <=? Luxon.daysInMonth y m).

(** The local timestamp a [DateTime] shows: its instant moved by its
    offset. *)
Definition localOf (dt : Luxon.DateTime) : Z :=
  dt.(Luxon.ts) + dt.(Luxon.o) * Luxon.msPerMinute.

(** A local time inside the range of JS dates, a day off its ends. *)
Definition inRange (local : Z) : Prop :=
  Z.abs local <= Luxon.maxTime - Luxon.msPerDay.

(** The fields [persistEvent] hands to [DateTime.fromObject] for the start
    and for the end; the end is built on the start day. *)
Definition startFields (w : World) (inference : OpenAiInstagramResult)
    : Luxon.GregorianObject :=
  Luxon.normalized zone w.(now) inference.(startYear) inference.(startMonth)
    (toNumber inference.(startDay)) (toNumber inference.(startHourMilitaryTime))
    (toNumber inference.(startMinute)).

Definition endFields (w : World) (inference : OpenAiInstagramResult)
    : Luxon.GregorianObject :=
  Luxon.normalized zone w.(now) inference.(endYear) inference.(endMonth)
    (toNumber inference.(startDay)) (toNumber inference.(endHourMilitaryTime))
    (toNumber inference.(endMinute)).

Definition validDate (c : Luxon.GregorianObject) : Prop :=
  Luxon.validGregorian c && Luxon.validTime c = true.

(** The local times the inference names, as timestamps: the start, and the
    end on [endDay], which is the end built on [startDay] moved by the
    difference of the two days. *)
Definition startWallClock (w : World) (inference : OpenAiInstagramResult) : Z :=
  Luxon.objToLocalTS (startFields w inference).

Definition endWallClock (w : World) (inference : OpenAiInstagramResult) : Z :=
  Luxon.objToLocalTS (endFields w inference)
  + (toNumber inference.(endDay) - toNumber inference.(startDay)) * Luxon.msPerDay.

(** ** A JSON reader for the examples

    [JSON.parse] belongs to the world.  The examples below run the pipeline
    on real candidate texts, read by this parser of flat objects whose values
    are null, booleans, integers and strings without escapes, each key at the
    type [OpenAiInstagramResult] gives it.  Any other text is refused. *)
Module Json.

Inductive token :=
| LBrace | RBrace | Colon | Comma
| Str (s : string) | Num (z : Z) | Word (s : string).

Inductive value := VNull | VBool (b : bool) | VNum (z : Z) | VStr (s : string).

Inductive mode :=
| Idle
| InStr (acc : list ascii)
| InNum (negative : bool) (n : Z)
| InWord (acc : list ascii).

Definition code (c : ascii) : Z := Z.of_nat (nat_of_ascii c).

Definition isDigit (c : ascii) : bool := (48 <=? code c) && (code c <=? 57).
Definition isLetter (c : ascii) : bool := (97 <=? code c) && (code c <=? 122).
Definition isSpace (c : ascii) : bool :=
  (code c =? 32) || (code c =? 9) || (code c =? 10) || (code c =? 13).

Definition push (t : token) (rest : option (list token)) : option (list token) :=
  match rest with
  | Some ts => Some (t :: ts)
  | None => None
  end.

Definition number (negative : bool) (n : Z) : token :=
  Num (if negative then - n else n).

Fixpoint lex (m : mode) (s : list ascii) : option (list token) :=
  match s with
  | [] =>
      match m with
      | Idle => Some []
      | InStr _ => None
      | InNum negative n => Some [number negative n]
      | InWord acc => Some [Word (string_of_list_ascii (rev acc))]
      end
  | c :: rest =>
      let idle (_ : unit) :=
        if isSpace c then lex Idle rest
        else if code c =? 123 then push LBrace (lex Idle rest)
        else if code c =? 125 then push RBrace (lex Idle rest)
        else if code c =? 58 then push Colon (lex Idle rest)
        else if code c =? 44 then push Comma (lex Idle rest)
        else if code c =? 34 then lex (InStr []) rest
        else if code c =? 45 then lex (InNum true 0) rest
        else if isDigit c then lex (InNum false (code c - 48)) rest
        else if isLetter c then lex (InWord [c]) rest
        else None in
      match m with
      | Idle => idle tt
      | InStr acc =>
          if code c =? 34 then push (Str (string_of_list_ascii (rev acc))) (lex Idle rest)
          else if code c =? 92 then None
          else lex (InStr (c :: acc)) rest
      | InNum negative n =>
          if isDigit c then lex (InNum negative (10 * n + (code c - 48))) rest
          else push (number negative n) (idle tt)
      | InWord acc =>
          if isLetter c then lex (InWord (c :: acc)) rest
          else push (Word (string_of_list_ascii (rev acc))) (idle tt)
      end
  end.

Definition valueOf (t : token) : option value :=
  match t with
  | Str s => Some (VStr s)
  | Num z => Some (VNum z)
  | Word "null" => Some VNull
  | Word "true" => Some (VBool true)
  | Word "false" => Some (VBool false)
  | _ => None
  end.

(** The members of an object after its opening brace; a key given twice
    keeps its last value, so later members come first in the result. *)
Fixpoint members (ts : list token) (acc : list (string * value))
    : option (list (string * value)) :=
  match ts with
  | Str k :: Colon :: v :: rest =>
      match valueOf v with
      | Some val =>
          match rest with
          | Comma :: rest' => members rest' ((k, val) :: acc)
          | [RBrace] => Some ((k, val) :: acc)
          | _ => None
          end
      | None => None
      end
  | _ => None
  end.

Definition object (s : string) : option (list (string * value)) :=
  match lex Idle (list_ascii_of_string s) with
  | Some [LBrace; RBrace] => Some []
  | Some (LBrace :: ts) => members ts []
  | _ => None
  end.

Fixpoint lookup (k : string) (m : list (string * value)) : option value :=
  match m with
  | [] => None
  | (k', v) :: rest => if String.eqb k k' then Some v else lookup k rest
  end.

(** A property at its declared type: absent, or a value of the type or
    null; [None] when the value has another type. *)
Definition typed {A} (as_ : value -> option A) (k : string) (m : list (string * value))
    : option (option (option A)) :=
  match lookup k m with
  | None => Some None
  | Some VNull => Some (Some None)
  | Some v =>
      match as_ v with
      | Some a => Some (Some (Some a))
      | None => None
      end
  end.

Definition asBool (v : value) : option bool :=
  match v with VBool b => Some b | _ => None end.
Definition asNum (v : value) : option Z :=
  match v with VNum z => Some z | _ => None end.
Definition asStr (v : value) : option string :=
  match v with VStr s => Some s | _ => None end.

Definition andThen {A B} (x : option A) (k : A -> option B) : option B :=
  match x with Some a => k a | None => None end.

Definition parse (s : string) : option ParsedObject :=
  andThen (object s) (fun m =>
  andThen (typed asBool "isEvent" m) (fun f1 =>
  andThen (typed asStr "title" m) (fun f2 =>
  andThen (typed asNum "startHourMilitaryTime" m) (fun f3 =>
  andThen (typed asNum "endHourMilitaryTime" m) (fun f4 =>
  andThen (typed asBool "isPastEvent" m) (fun f5 =>
  andThen (typed asBool "hasStartHourInPost" m) (fun f6 =>
  andThen (typed asNum "startMinute" m) (fun f7 =>
  andThen (typed asNum "endMinute" m) (fun f8 =>
  andThen (typed asNum "startDay" m) (fun f9 =>
  andThen (typed asNum "endDay" m) (fun f10 =>
  andThen (typed asNum "startMonth" m) (fun f11 =>
  andThen (typed asNum "endMonth" m) (fun f12 =>
  andThen (typed asNum "startYear" m) (fun f13 =>
  andThen (typed asNum "endYear" m) (fun f14 =>
  Some {| own_isEvent := f1; own_title := f2;
          own_startHourMilitaryTime := f3; own_endHourMilitaryTime := f4;
          own_isPastEvent := f5; own_hasStartHourInPost := f6;
          own_startMinute := f7; own_endMinute := f8;
          own_startDay := f9; own_endDay := f10;
          own_startMonth := f11; own_endMonth := f12;
          own_startYear := f13; own_endYear := f14 |}))))))))))))))).

(** Writing a candidate: a key between quotes, a colon, the value. *)
Definition quote : string := String (ascii_of_nat 34) EmptyString.

Definition member (k v : string) : string := (quote ++ k ++ quote ++ ":" ++ v)%string.

Definition text (s : string) : string := (quote ++ s ++ quote)%string.

Definition braces (ms : list string) : string :=
  ("{" ++ String.concat "," ms ++ "}")%string.

End Json.

(** ** A world for the examples

    Three accounts.  [demo_user] has one image post whose inference is the
    candidate of the specification's scenario (live music on 2023-12-29 from
    20:00 to 22:00), wrapped in prose.  [late_user] has an album whose inference
    is not JSON, and an image post whose candidate ends at 10:00 on the day
    it starts at 20:00.  [limited_user] is over the rate limit. *)
Module Example.

Definition liveMusicJson : string :=
  Json.braces
    [Json.member "isEvent" "true"; Json.member "title" (Json.text "Live Music");
     Json.member "startHourMilitaryTime" "20"; Json.member "endHourMilitaryTime" "22";
     Json.member "startMinute" "0"; Json.member "endMinute" "0";
     Json.member "startDay" "29"; Json.member "endDay" "29";
     Json.member "startMonth" "12"; Json.member "endMonth" "12";
     Json.member "startYear" "2023"; Json.member "endYear" "null";
     Json.member "hasStartHourInPost" "true"; Json.member "isPastEvent" "false"].

Definition lateJson : string :=
  Json.braces
    [Json.member "isEvent" "true"; Json.member "title" (Json.text "Brunch");
     Json.member "startHourMilitaryTime" "20"; Json.member "endHourMilitaryTime" "10";
     Json.member "startMinute" "0"; Json.member "endMinute" "0";
     Json.member "startDay" "15"; Json.member "endDay" "15";
     Json.member "startMonth" "6"; Json.member "endMonth" "6";
     Json.member "startYear" "2024"; Json.member "endYear" "2024";
     Json.member "hasStartHourInPost" "true"; Json.member "isPastEvent" "false"].

(** A candidate without the key [endYear]. *)
Definition shortJson : string :=
  Json.braces
    [Json.member "isEvent" "true"; Json.member "title" (Json.text "Live Music");
     Json.member "startHourMilitaryTime" "20"; Json.member "endHourMilitaryTime" "22";
     Json.member "startMinute" "0"; Json.member "endMinute" "0";
     Json.member "startDay" "29"; Json.member "endDay" "29";
     Json.member "startMonth" "12"; Json.member "endMonth" "12";
     Json.member "startYear" "2023";
     Json.member "hasStartHourInPost" "true"; Json.member "isPastEvent" "false"].

Definition demoPost : InstagramApiPost.t :=
  {| InstagramApiPost.id := "demo-1";
     InstagramApiPost.permalink := "https://www.instagram.com/p/demo-1/";
     InstagramApiPost.caption := Some "Join us Friday!";
     InstagramApiPost.timestamp := "2023-12-20T18:00:00+0000";
     InstagramApiPost.media_type := IMAGE;
     InstagramApiPost.media_url := Some "https://cdn.example/demo-1.jpg";
     InstagramApiPost.children := None |}.

Definition albumPost : InstagramApiPost.t :=
  {| InstagramApiPost.id := "late-1";
     InstagramApiPost.permalink := "https://www.instagram.com/p/late-1/";
     InstagramApiPost.caption := Some "Photos from last week";
     InstagramApiPost.timestamp := "2024-06-01T18:00:00+0000";
     InstagramApiPost.media_type := CAROUSEL_ALBUM;
     InstagramApiPost.media_url := None;
     InstagramApiPost.children :=
       Some [{| InstagramApiPost.child_media_url := Some "https://cdn.example/late-1a.jpg";
                InstagramApiPost.child_media_type := IMAGE |};
             {| InstagramApiPost.child_media_url := None;
                InstagramApiPost.child_media_type := VIDEO |};
             {| InstagramApiPost.child_media_url := Some "https://cdn.example/late-1c.jpg";
                InstagramApiPost.child_media_type := IMAGE |}] |}.

Definition latePost : InstagramApiPost.t :=
  {| InstagramApiPost.id := "late-2";
     InstagramApiPost.permalink := "https://www.instagram.com/p/late-2/";
     InstagramApiPost.caption := Some "Brunch on the 15th";
     InstagramApiPost.timestamp := "2024-06-02T18:00:00+0000";
     InstagramApiPost.media_type := IMAGE;
     InstagramApiPost.media_url := Some "https://cdn.example/late-2.jpg";
     InstagramApiPost.children := None |}.

Definition source (username : string) : InstagramSource.t :=
  {| InstagramSource.username := username;
     InstagramSource.city := "San Francisco";
     InstagramSource.context_clues := ["live"; "music"] |}.

Definition world : World :=
  {| sources := [source "demo_user"; source "limited_user"; source "late_user"];
     fetch := fun username =>
       if String.eqb username "demo_user"
       then Response (AppUsage (Some 12) (Some 3) (Some 4)) (MediaData [demoPost])
       else if String.eqb username "late_user"
       then Response NoHeader (MediaData [albumPost; latePost])
       else if String.eqb username "limited_user"
       then Response (AppUsage (Some 100) (Some 3) (Some 4)) (MediaData [])
       else Response NoHeader (ErrorBody "Invalid user id");
     visionCredentials := true;
     textDetection := fun url =>
       if String.eqb url "https://cdn.example/demo-1.jpg"
       then Ok "Live Music 8pm-10pm Friday Dec 29"
       else Ok "";
     completion := fun _ post _ =>
       if String.eqb post.(InstagramPost.id) "demo-1"
       then Ok (Some ("Here is the JSON you asked for: " ++ liveMusicJson
                      ++ " Let me know if you need anything else.")%string)
       else if String.eqb post.(InstagramPost.id) "late-2"
       then Ok (Some lateJson)
       else if String.eqb post.(InstagramPost.id) "short-1"
       then Ok (Some shortJson)
       else Ok (Some "I could not find an event in this post.");
     JSON_parse := Json.parse;
     now := 1702000000000;
     fullYear := 2023 |}.

Definition organizer (id : Z) (username : string) : InstagramEventOrganizer.t :=
  {| InstagramEventOrganizer.id := id;
     InstagramEventOrganizer.username := username;
     InstagramEventOrganizer.city := "San Francisco";
     InstagramEventOrganizer.contextClues := "live music";
     InstagramEventOrganizer.lastUpdated := 0 |}.

(** The rows of the two posts of [late_user] as [persistPostNoneIfPresent]
    stores them. *)
Definition storedAlbum : InstagramPost.t :=
  {| InstagramPost.id := "late-1";
     InstagramPost.url := "https://www.instagram.com/p/late-1/";
     InstagramPost.organizerId := 3;
     InstagramPost.caption := Some "Photos from last week";
     InstagramPost.postDate := "2024-06-01T18:00:00+0000";
     InstagramPost.mediaUrlsJson :=
       Some ["https://cdn.example/late-1a.jpg"; "https://cdn.example/late-1c.jpg"];
     InstagramPost.completedAt := None |}.

Definition storedLate : InstagramPost.t :=
  {| InstagramPost.id := "late-2";
     InstagramPost.url := "https://www.instagram.com/p/late-2/";
     InstagramPost.organizerId := 3;
     InstagramPost.caption := Some "Brunch on the 15th";
     InstagramPost.postDate := "2024-06-02T18:00:00+0000";
     InstagramPost.mediaUrlsJson := Some ["https://cdn.example/late-2.jpg"];
     InstagramPost.completedAt := None |}.

Definition storedDemo : InstagramPost.t :=
  {| InstagramPost.id := "demo-1";
     InstagramPost.url := "https://www.instagram.com/p/demo-1/";
     InstagramPost.organizerId := 1;
     InstagramPost.caption := Some "Join us Friday!";
     InstagramPost.postDate := "2023-12-20T18:00:00+0000";
     InstagramPost.mediaUrlsJson := Some ["https://cdn.example/demo-1.jpg"];
     InstagramPost.completedAt := None |}.

(** The store after a run over all the sources. *)
Definition afterScrape : State :=
  Eval vm_compute in snd (scrapeAllInstagramEvents world emptyState).

End Example.

(** ** Candidates and rows for the examples *)

(** The inference read from the candidate of [late_user]'s image post. *)
Definition lateInference : OpenAiInstagramResult :=
  {| isEvent := Some true; title := Some "Brunch";
     startHourMilitaryTime := Some 20; endHourMilitaryTime := Some 10;
     isPastEvent := Some false; hasStartHourInPost := Some true;
     startMinute := Some 0; endMinute := Some 0;
     startDay := Some 15; endDay := Some 15;
     startMonth := Some 6; endMonth := Some 6;
     startYear := Some 2024; endYear := Some 2024 |}.

(** The inference read from the candidate of [demo_user]'s post. *)
Definition demoInference : OpenAiInstagramResult :=
  {| isEvent := Some true; title := Some "Live Music";
     startHourMilitaryTime := Some 20; endHourMilitaryTime := Some 22;
     isPastEvent := Some false; hasStartHourInPost := Some true;
     startMinute := Some 0; endMinute := Some 0;
     startDay := Some 29; endDay := Some 29;
     startMonth := Some 12; endMonth := Some 12;
     startYear := Some 2023; endYear := Some 2023 |}.

(** A candidate that spans the new year. *)
Definition newYearCandidate : OpenAiInstagramResult :=
  {| isEvent := Some true; title := Some "New Year's Eve";
     startHourMilitaryTime := Some 21; endHourMilitaryTime := Some 2;
     isPastEvent := Some false; hasStartHourInPost := Some true;
     startMinute := None; endMinute := None;
     startDay := Some 31; endDay := Some 1;
     startMonth := Some 12; endMonth := Some 1;
     startYear := Some 2024; endYear := None |}.

(** A candidate that starts at 23:00 on the 31st and names no end. *)
Definition lateNightCandidate : OpenAiInstagramResult :=
  {| isEvent := Some true; title := Some "Late show";
     startHourMilitaryTime := Some 23; endHourMilitaryTime := None;
     isPastEvent := Some false; hasStartHourInPost := Some true;
     startMinute := Some 0; endMinute := None;
     startDay := Some 31; endDay := Some 31;
     startMonth := Some 1; endMonth := None;
     startYear := Some 2024; endYear := None |}.

(** What the candidate without [endYear] parses to. *)
Definition shortObject : ParsedObject :=
  {| own_isEvent := Some (Some true); own_title := Some (Some "Live Music");
     own_startHourMilitaryTime := Some (Some 20);
     own_endHourMilitaryTime := Some (Some 22);
     own_isPastEvent := Some (Some false); own_hasStartHourInPost := Some (Some true);
     own_startMinute := Some (Some 0); own_endMinute := Some (Some 0);
     own_startDay := Some (Some 29); own_endDay := Some (Some 29);
     own_startMonth := Some (Some 12); own_endMonth := Some (Some 12);
     own_startYear := Some (Some 2023); own_endYear := None |}.

(** A stored post whose inference is the candidate without [endYear]. *)
Definition shortPost : InstagramPost.t :=
  {| InstagramPost.id := "short-1";
     InstagramPost.url := "https://www.instagram.com/p/short-1/";
     InstagramPost.organizerId := 1;
     InstagramPost.caption := None;
     InstagramPost.postDate := "2023-12-21T18:00:00+0000";
     InstagramPost.mediaUrlsJson := None;
     InstagramPost.completedAt := None |}.

(** A candidate that starts at 02:30 and ends at 03:00 on 2024-03-10, the
    day the clocks of the zone go from 02:00 to 03:00. *)
Definition gapInference : OpenAiInstagramResult :=
  {| isEvent := Some true; title := Some "Early run";
     startHourMilitaryTime := Some 2; endHourMilitaryTime := Some 3;
     isPastEvent := Some false; hasStartHourInPost := Some true;
     startMinute := Some 30; endMinute := Some 0;
     startDay := Some 10; endDay := Some 10;
     startMonth := Some 3; endMonth := Some 3;
     startYear := Some 2024; endYear := Some 2024 |}.

(** ** The read path: [findEvents] *)

(** [findEvents] is [findPosts] over the events table. *)
Module FoundEvents.
Record entry := {
  organization : InstagramEventOrganizer.t;
  events : list InstagramEvent.t
}.
Definition t := list (Z * entry).

Fixpoint set (k : Z) (v : entry) (m : t) : t :=
  match m with
  | [] => [(k, v)]
  | (k', v') :: rest =>
      if k <? k' then (k, v) :: m
      else if k =? k' then (k, v) :: rest
      else (k', v') :: set k v rest
  end.

(** [organizersById[event.organizerId].events.push(event)]. *)
Fixpoint push (k : Z) (event : InstagramEvent.t) (m : t) : option t :=
  match m with
  | [] => None
  | (k', v') :: rest =>
      if k =? k' then
        Some ((k', {| organization := v'.(organization);
                      events := v'.(events) ++ [event] |}) :: rest)
      else
        match push k event rest with
        | Some rest' => Some ((k', v') :: rest')
        | None => None
        end
  end.

Definition values (m : t) : list entry := map snd m.
End FoundEvents.

Fixpoint pushEvents (found : list InstagramEvent.t) (organizersById : FoundEvents.t)
    : option FoundEvents.t :=
  match found with
  | [] => Some organizersById
  | event :: rest =>
      match FoundEvents.push event.(InstagramEvent.organizerId) event organizersById with
      | Some organizersById => pushEvents rest organizersById
      | None => None
      end
  end.

Definition findEvents (eventsWhere : InstagramEvent.t -> bool) : M FoundEvents.t :=
  fun st =>
    let found := filter eventsWhere st.(events) in
    let organizersById :=
      fold_left
        (fun acc organization =>
           FoundEvents.set organization.(InstagramEventOrganizer.id)
             {| FoundEvents.organization := organization; FoundEvents.events := [] |} acc)
        st.(organizers) [] in
    match pushEvents found organizersById with
    | Some organizersById => (Ok organizersById, st)
    | None => (Threw TypeError, st)
    end.

(** ** More vocabulary *)

(** The two replacements of [fixGeneratedJson] on the characters of the text. *)
Definition strip (s : list ascii) : list ascii :=
  rev (dropUntil "}"%char (rev (dropUntil "{"%char s))).

(** What the completion pass returns, written field by field. *)
Definition completed (fullYear : Z) (o : OpenAiInstagramResult) : OpenAiInstagramResult :=
  let year := match o.(startYear) with Some y => y | None => fullYear end in
  let carries :=
    isNull o.(endHourMilitaryTime) && (23 <? toNumber o.(startHourMilitaryTime) + 2) in
  {| isEvent := o.(isEvent);
     title := o.(title);
     startHourMilitaryTime := o.(startHourMilitaryTime);
     endHourMilitaryTime :=
       match o.(endHourMilitaryTime) with
       | Some h => Some h
       | None =>
           Some (if carries then toNumber o.(startHourMilitaryTime) + 2 - 24
                 else toNumber o.(startHourMilitaryTime) + 2)
       end;
     isPastEvent := o.(isPastEvent);
     hasStartHourInPost := o.(hasStartHourInPost);
     startMinute := Some (toNumber o.(startMinute));
     endMinute := Some (toNumber o.(endMinute));
     startDay := o.(startDay);
     endDay :=
       if carries then Some (toNumber o.(startDay) + 1)
       else match o.(endDay) with Some d => Some d | None => o.(startDay) end;
     startMonth := o.(startMonth);
     endMonth := match o.(endMonth) with Some m => Some m | None => o.(startMonth) end;
     startYear := Some year;
     endYear :=
       if isNumber o.(startMonth) 12 && isNumber o.(endMonth) 1 then Some (year + 1)
       else Some (match o.(endYear) with Some y => y | None => year end) |}.

(** The ids an autoincrement column gives to [n] rows, from [i] on. *)
Fixpoint countFrom (i : Z) (n : nat) : list Z :=
  match n with
  | O => []
  | S n' => i :: countFrom (i + 1) n'
  end.

(** The post has a row in the table, of its organizer and not completed. *)
Definition pending (post : InstagramPost.t) (st : State) : Prop :=
  exists row,
    In row st.(posts)
    /\ row.(InstagramPost.id) = post.(InstagramPost.id)
    /\ row.(InstagramPost.organizerId) = post.(InstagramPost.organizerId)
    /\ row.(InstagramPost.completedAt) = None.

(** What the pipeline keeps true of the store: organizers and events are
    numbered from 1 in the order of their creation; a username has one
    organizer and a post id one row; a post refers to an organizer; an event
    refers to a completed post, has its organizer, and is the only event of
    that post. *)
Record consistent (st : State) : Prop := {
  organizers_counted :
    map InstagramEventOrganizer.id st.(organizers)
    = countFrom 1 (List.length st.(organizers));
  organizers_unique : NoDup (map InstagramEventOrganizer.username st.(organizers));
  posts_unique : NoDup (map InstagramPost.id st.(posts));
  posts_owned :
    forall p, In p st.(posts) ->
      exists o, In o st.(organizers)
                /\ o.(InstagramEventOrganizer.id) = p.(InstagramPost.organizerId);
  events_counted :
    map InstagramEvent.id st.(events) = countFrom 1 (List.length st.(events));
  events_unique : NoDup (map InstagramEvent.postID st.(events));
  events_owned :
    forall ev, In ev st.(events) ->
      exists p, In p st.(posts)
                /\ p.(InstagramPost.id) = ev.(InstagramEvent.postID)
                /\ p.(InstagramPost.organizerId) = ev.(InstagramEvent.organizerId)
                /\ p.(InstagramPost.completedAt) <> None
}.

(** The object [findPosts] builds: under the id of each organizer, the
    organizer and the posts [g] gives for that id. *)
Definition groupedPosts (os : list InstagramEventOrganizer.t)
    (g : Z -> list InstagramPost.t) : FoundPosts.t :=
  map (fun o => (o.(InstagramEventOrganizer.id),
                 {| FoundPosts.organization := o;
                    FoundPosts.posts := g o.(InstagramEventOrganizer.id) |})) os.

Definition groupedEvents (os : list InstagramEventOrganizer.t)
    (g : Z -> list InstagramEvent.t) : FoundEvents.t :=
  map (fun o => (o.(InstagramEventOrganizer.id),
                 {| FoundEvents.organization := o;
                    FoundEvents.events := g o.(InstagramEventOrganizer.id) |})) os.

(** Some organizer has the id [k]. *)
Definition hasOrganizer (st : State) (k : Z) : bool :=
  existsb (fun o => o.(InstagramEventOrganizer.id) =? k) st.(organizers).

(** What [extractEventFromPost] writes to the tables for a post: nothing, or
    one event of the post, numbered next, with the post marked completed. *)
Definition extracted (w : World) (post : InstagramPost.t) (st st' : State) : Prop :=
  st'.(organizers) = st.(organizers)
  /\ ((st'.(posts) = st.(posts) /\ st'.(events) = st.(events))
      \/ exists ev,
           st'.(events) = st.(events) ++ [ev]
           /\ ev.(InstagramEvent.id) = Z.of_nat (List.length st.(events)) + 1
           /\ ev.(InstagramEvent.postID) = post.(InstagramPost.id)
           /\ ev.(InstagramEvent.organizerId) = post.(InstagramPost.organizerId)
           /\ st'.(posts)
              = map (markCompleted post.(InstagramPost.id) w.(now)) st.(posts)).

(** A run for the organizer [o], which the table has, leaves the organizers
    as they are and keeps the store consistent. *)
Definition keepsFor (o : InstagramEventOrganizer.t) (st st' : State) : Prop :=
  st'.(organizers) = st.(organizers)
  /\ (In o st.(organizers) -> consistent st -> consistent st').

(** The posts still to extract: distinct ids, each pending in a consistent
    store. *)
Definition queued (pendingPosts : list InstagramPost.t) (st : State) : Prop :=
  consistent st
  /\ NoDup (map InstagramPost.id pendingPosts)
  /\ forall post, In post pendingPosts -> pending post st.

(** The rows of [st] that have a completion date are in [st'] as they
    are. *)
Definition keepsCompleted (st st' : State) : Prop :=
  forall row, In row st.(posts) -> row.(InstagramPost.completedAt) <> None ->
    In row st'.(posts).

(** The posts and events of [st'] are those of [st] and then new ones: posts
    of ids that [st] did not have, and events of those posts only. *)
Definition added (st st' : State) : Prop :=
  exists ps es,
    st'.(posts) = st.(posts) ++ ps
    /\ st'.(events) = st.(events) ++ es
    /\ (forall p, In p ps -> ~ known p.(InstagramPost.id) st)
    /\ (forall ev, In ev es ->
          In ev.(InstagramEvent.postID) (map InstagramPost.id ps)).

(** The posts the API returns for a username are all in the posts table. *)
Definition postsKnown (w : World) (username : string) (st : State) : Prop :=
  forall o st0 data,
    o.(InstagramEventOrganizer.username) = username ->
    fst (fetchPosts w o st0) = Ok data ->
    forall apiPost, In apiPost data -> known apiPost.(InstagramApiPost.id) st.

(** Every source has an organizer and the posts of its account in the
    tables. *)
Definition settled (w : World) (st : State) : Prop :=
  forall source, In source w.(sources) ->
    (exists o, In o st.(organizers)
               /\ o.(InstagramEventOrganizer.username)
                  = source.(InstagramSource.username))
    /\ postsKnown w source.(InstagramSource.username) st.

(** The stores the entry points build from the empty one, each run in a
    world of its own and taken once its work is done. *)
Inductive reachable : State -> Prop :=
| reach_empty : reachable emptyState
| reach_scrapeAll w st :
    reachable st -> reachable (snd (scrapeAllInstagramEvents w st))
| reach_scrapeUser w username st :
    reachable st -> reachable (snd (scrapeInstagramEventsForUser w username st))
| reach_fixup w st :
    reachable st -> reachable (snd (fixupInstagramIngestion w st)).

(** The row [p'] is the row [p], but for a completion date it may have got
    or got anew. *)
Definition sameButCompleted (p p' : InstagramPost.t) : Prop :=
  p'.(InstagramPost.id) = p.(InstagramPost.id)
  /\ p'.(InstagramPost.url) = p.(InstagramPost.url)
  /\ p'.(InstagramPost.organizerId) = p.(InstagramPost.organizerId)
  /\ p'.(InstagramPost.caption) = p.(InstagramPost.caption)
  /\ p'.(InstagramPost.postDate) = p.(InstagramPost.postDate)
  /\ p'.(InstagramPost.mediaUrlsJson) = p.(InstagramPost.mediaUrlsJson)
  /\ (p.(InstagramPost.completedAt) <> None -> p'.(InstagramPost.completedAt) <> None).

(** The tables of [st'] are those of [st] with rows added at the end; the
    organizers and events of [st] are unchanged and its posts are changed in
    their completion date at most. *)
Definition grown (st st' : State) : Prop :=
  (exists os, st'.(organizers) = st.(organizers) ++ os)
  /\ (exists kept ps, st'.(posts) = kept ++ ps
                      /\ Forall2 sameButCompleted st.(posts) kept)
  /\ (exists es, st'.(events) = st.(events) ++ es).

(** [instagramURL]; the two ids come from the environment. *)
Definition instagramURL (INSTAGRAM_BUSINESS_USER_ID INSTAGRAM_USER_ACCESS_TOKEN : string)
    (sourceUsername : string) : string :=
  ("https://graph.facebook.com/v16.0/" ++ INSTAGRAM_BUSINESS_USER_ID ++ "?fields="
   ++ "business_discovery.username(" ++ sourceUsername
   ++ "){media.limit(5){caption,permalink,timestamp,media_type,media_url,children{media_url,media_type}}}"
   ++ "&access_token=" ++ INSTAGRAM_USER_ACCESS_TOKEN)%string.


(** ** More examples *)

(** A candidate that starts at 23:30 on December 31 and names no end, no
    year and no title. *)
Definition openEndedCandidate : OpenAiInstagramResult :=
  {| isEvent := Some true; title := None;
     startHourMilitaryTime := Some 23; endHourMilitaryTime := None;
     isPastEvent := Some false; hasStartHourInPost := Some true;
     startMinute := Some 30; endMinute := None;
     startDay := Some 31; endDay := None;
     startMonth := Some 12; endMonth := None;
     startYear := None; endYear := None |}.

(** The source of [demo_user] after a move. *)
Definition movedSource : InstagramSource.t :=
  {| InstagramSource.username := "demo_user";
     InstagramSource.city := "Oakland";
     InstagramSource.context_clues := ["drag"; "brunch"] |}.

(** What [findPosts] and [findEvents] return on the store the run over all
    the sources leaves, for the posts not completed and for all events. *)
Definition incompleteAfterScrape : FoundPosts.t :=
  Eval vm_compute in
    match fst (findPosts notCompleted Example.afterScrape) with
    | Ok found => found
    | Threw _ => []
    end.

Definition eventsAfterScrape : FoundEvents.t :=
  Eval vm_compute in
    match fst (findEvents (fun _ => true) Example.afterScrape) with
    | Ok found => found
    | Threw _ => []
    end.

(** * Properties *)

(** ** The field-completion pass *)

(** What each rule leaves alone, and what it writes. *)
Ltac rule_cases :=
  match goal with
  | |- context [if ?b then _ else _] => destruct b eqn:?; simpl in *
  end.

Ltac by_rule r :=
  intros; unfold r; repeat rule_cases; simpl; try reflexivity; try congruence.

Section Completion.
Variable fullYear : Z.
Variable object : OpenAiInstagramResult.

Lemma defaultEndHour_endYear : (defaultEndHour object).(endYear) = object.(endYear).
Proof. by_rule defaultEndHour. Qed.

Lemma defaultEndDay_endYear : (defaultEndDay object).(endYear) = object.(endYear).
Proof. by_rule defaultEndDay. Qed.

Lemma defaultEndMonth_endYear : (defaultEndMonth object).(endYear) = object.(endYear).
Proof. by_rule defaultEndMonth. Qed.

Lemma defaultEndMinute_months :
  (defaultEndMinute object).(startMonth) = object.(startMonth)
  /\ (defaultEndMinute object).(endMonth) = object.(endMonth)
  /\ (defaultEndMinute object).(startYear) = object.(startYear)
  /\ (defaultEndMinute object).(endYear) = object.(endYear).
Proof. by_rule defaultEndMinute; auto. Qed.

Lemma defaultStartMinute_months :
  (defaultStartMinute object).(startMonth) = object.(startMonth)
  /\ (defaultStartMinute object).(endMonth) = object.(endMonth)
  /\ (defaultStartMinute object).(startYear) = object.(startYear)
  /\ (defaultStartMinute object).(endYear) = object.(endYear).
Proof. by_rule defaultStartMinute; auto. Qed.

Lemma defaultEndYear_months :
  (defaultEndYear object).(startMonth) = object.(startMonth)
  /\ (defaultEndYear object).(endMonth) = object.(endMonth)
  /\ (defaultEndYear object).(startYear) = object.(startYear).
Proof. by_rule defaultEndYear; auto. Qed.

Lemma defaultStartYear_months :
  (defaultStartYear fullYear object).(startMonth) = object.(startMonth)
  /\ (defaultStartYear fullYear object).(endMonth) = object.(endMonth)
  /\ (defaultStartYear fullYear object).(endYear) = object.(endYear).
Proof. by_rule defaultStartYear; auto. Qed.

Lemma defaultStartYear_startYear :
  (defaultStartYear fullYear object).(startYear)
  = Some (match object.(startYear) with Some y => y | None => fullYear end).
Proof. unfold defaultStartYear; destruct object.(startYear) eqn:E; simpl; auto. Qed.

Lemma yearRollover_fires :
  object.(startMonth) = Some 12 -> object.(endMonth) = Some 1 ->
  (yearRollover object).(endYear) = Some (toNumber object.(startYear) + 1).
Proof. intros H1 H2; unfold yearRollover; rewrite H1, H2; reflexivity. Qed.

(** The copy rule taken alone: what [endYear] is before the rollover rule
    runs. *)
Lemma defaultEndYear_copies :
  object.(endYear) = None ->
  (defaultEndYear object).(endYear) = object.(startYear).
Proof. intros H; unfold defaultEndYear; rewrite H; reflexivity. Qed.
End Completion.

(** C4.  For a candidate with startMonth 12, endMonth 1, startYear 2024 and
    endYear null, the completion pass returns endYear 2025: the copy rule
    first sets endYear to 2024, and the rollover rule, which runs after it,
    replaces that with startYear + 1. *)
Theorem C4_rollover_overrides_copy (fullYear : Z) (object : OpenAiInstagramResult) :
  object.(startMonth) = Some 12 ->
  object.(endMonth) = Some 1 ->
  object.(startYear) = Some 2024 ->
  object.(endYear) = None ->
  (defaultEndYear (defaultStartYear fullYear object)).(endYear) = Some 2024
  /\ (postProcessing fullYear object).(endYear) = Some 2025.
Proof.
  intros Hsm Hem Hsy Hey.
  pose proof (defaultStartYear_months fullYear object) as (S1 & S2 & S3).
  pose proof (defaultStartYear_startYear fullYear object) as S4.
  rewrite Hsy in S4.
  split.
  - rewrite defaultEndYear_copies by congruence. exact S4.
  - unfold postProcessing.
    rewrite defaultEndHour_endYear, defaultEndDay_endYear, defaultEndMonth_endYear.
    set (o1 := defaultStartYear fullYear object) in *.
    pose proof (defaultEndYear_months o1) as (A1 & A2 & A3).
    set (o2 := defaultEndYear o1) in *.
    pose proof (defaultStartMinute_months o2) as (B1 & B2 & B3 & _).
    set (o3 := defaultStartMinute o2) in *.
    pose proof (defaultEndMinute_months o3) as (C1 & C2 & C3 & _).
    rewrite yearRollover_fires by congruence.
    rewrite C3, B3, A3, S4. reflexivity.
Qed.

Lemma sameHours_trans a b c : sameHours a b -> sameHours b c -> sameHours a c.
Proof. unfold sameHours; intuition congruence. Qed.

Ltac frame_hours r := intros; unfold r, sameHours; repeat rule_cases; simpl; auto.

Lemma defaultStartYear_hours y o : sameHours o (defaultStartYear y o).
Proof. frame_hours defaultStartYear. Qed.

Lemma defaultEndYear_hours o : sameHours o (defaultEndYear o).
Proof. frame_hours defaultEndYear. Qed.

Lemma defaultStartMinute_hours o : sameHours o (defaultStartMinute o).
Proof. frame_hours defaultStartMinute. Qed.

Lemma defaultEndMinute_hours o : sameHours o (defaultEndMinute o).
Proof. frame_hours defaultEndMinute. Qed.

Lemma yearRollover_hours o : sameHours o (yearRollover o).
Proof. frame_hours yearRollover. Qed.

Lemma defaultEndMonth_hours o : sameHours o (defaultEndMonth o).
Proof. frame_hours defaultEndMonth. Qed.

Lemma defaultEndDay_hours o : sameHours o (defaultEndDay o).
Proof. frame_hours defaultEndDay. Qed.

Lemma sameHours_before_endHour fullYear object :
  sameHours object
    (defaultEndDay (defaultEndMonth (yearRollover (defaultEndMinute
       (defaultStartMinute (defaultEndYear (defaultStartYear fullYear object))))))).
Proof.
  eapply sameHours_trans; [ | apply defaultEndDay_hours ].
  eapply sameHours_trans; [ | apply defaultEndMonth_hours ].
  eapply sameHours_trans; [ | apply yearRollover_hours ].
  eapply sameHours_trans; [ | apply defaultEndMinute_hours ].
  eapply sameHours_trans; [ | apply defaultStartMinute_hours ].
  eapply sameHours_trans; [ | apply defaultEndYear_hours ].
  apply defaultStartYear_hours.
Qed.

Lemma defaultEndHour_late object :
  object.(startHourMilitaryTime) = Some 23 ->
  object.(endHourMilitaryTime) = None ->
  (defaultEndHour object).(endHourMilitaryTime) = Some 1
  /\ (defaultEndHour object).(endDay) = Some (toNumber object.(startDay) + 1)
  /\ (defaultEndHour object).(startDay) = object.(startDay)
  /\ (defaultEndHour object).(startHourMilitaryTime) = Some 23.
Proof.
  intros Hs He. unfold defaultEndHour. rewrite He. simpl. rewrite Hs. simpl. auto.
Qed.

(** C5.  With startHourMilitaryTime 23 and endHourMilitaryTime null, the
    completion pass returns endHourMilitaryTime 1 (23 + 2 = 25 exceeds 23, so
    24 is subtracted) and endDay = startDay + 1 as a plain sum: whatever
    endDay held is replaced, a null startDay counts as 0, and the month
    length is not looked at. *)
Theorem C5_end_hour_carries_into_next_day (fullYear : Z) (object : OpenAiInstagramResult) :
  object.(startHourMilitaryTime) = Some 23 ->
  object.(endHourMilitaryTime) = None ->
  let r := postProcessing fullYear object in
  r.(endHourMilitaryTime) = Some 1
  /\ r.(endDay) = Some (toNumber r.(startDay) + 1)
  /\ r.(startDay) = object.(startDay)
  /\ (forall d, object.(startDay) = Some d -> r.(endDay) = Some (d + 1)).
Proof.
  intros Hs He r.
  destruct (sameHours_before_endHour fullYear object) as (F1 & F2 & F3).
  subst r. unfold postProcessing.
  match goal with
  | |- context [defaultEndHour ?x] => set (o := x) in *
  end.
  destruct (defaultEndHour_late o) as (R1 & R2 & R3 & _); [congruence | congruence |].
  repeat split.
  - exact R1.
  - rewrite R2, R3. reflexivity.
  - congruence.
  - intros d Hd. rewrite R2, F3, Hd. reflexivity.
Qed.

(** ** What the stages write *)

Lemma sameTables_refl st : sameTables st st.
Proof. unfold sameTables; auto. Qed.

Lemma sameTables_trans a b c : sameTables a b -> sameTables b c -> sameTables a c.
Proof. unfold sameTables; intuition congruence. Qed.

Section Settle.
Context {A : Type}.
Variable R : State -> State -> Prop.
Hypothesis R_refl : forall st, R st st.
Hypothesis R_trans : forall a b c, R a b -> R b c -> R a c.

Lemma settleAll_keeps (ps : list (M A)) :
  (forall p, In p ps -> forall st, R st (snd (p st))) ->
  forall st, R st (snd (settleAll ps st)).
Proof.
  induction ps as [|p ps IH]; intros Hps st; simpl.
  - apply R_refl.
  - destruct (p st) as [r st1] eqn:Ep.
    destruct (settleAll ps st1) as [rs st2] eqn:Es. simpl.
    apply R_trans with st1.
    + specialize (Hps p (or_introl eq_refl) st). rewrite Ep in Hps. exact Hps.
    + specialize (IH (fun q Hq => Hps q (or_intror Hq)) st1).
      rewrite Es in IH. exact IH.
Qed.

Lemma Promise_all_keeps (ps : list (M A)) :
  (forall p, In p ps -> forall st, R st (snd (p st))) ->
  forall st, R st (snd (Promise_all ps st)).
Proof.
  intros Hps st. unfold Promise_all.
  pose proof (settleAll_keeps ps Hps st) as H.
  destruct (settleAll ps st) as [rs st']. exact H.
Qed.

Lemma bind_keeps {B} (c : M A) (k : A -> M B) :
  (forall st, R st (snd (c st))) ->
  (forall a st, R st (snd (k a st))) ->
  forall st, R st (snd (bind c k st)).
Proof.
  intros Hc Hk st. unfold bind.
  specialize (Hc st). destruct (c st) as [[a|e] st1]; simpl in *.
  - eapply R_trans; [exact Hc | apply Hk].
  - exact Hc.
Qed.
End Settle.

Ltac tables_bind := apply (bind_keeps sameTables sameTables_trans).
Ltac tables_all := apply (Promise_all_keeps sameTables sameTables_refl sameTables_trans).

Lemma fetchOcrResults_tables w urls st :
  sameTables st (snd (fetchOcrResults w urls st)).
Proof.
  unfold fetchOcrResults. destruct (visionCredentials w).
  - tables_bind.
    + tables_all.
      intros p Hp st0. apply in_map_iff in Hp. destruct Hp as (u & <- & _).
      unfold annotate, sameTables; simpl; auto.
    + intros; apply sameTables_refl.
  - apply sameTables_refl.
Qed.

Lemma extractTextFromPostImages_tables w post st :
  sameTables st (snd (extractTextFromPostImages w post st)).
Proof.
  unfold extractTextFromPostImages. destruct (InstagramPost.mediaUrlsJson post).
  - tables_bind.
    + intros; apply fetchOcrResults_tables.
    + intros; apply sameTables_refl.
  - apply sameTables_refl.
Qed.

Lemma runInferenceOnPost_tables w organizer post ocr st :
  sameTables st (snd (runInferenceOnPost w organizer post ocr st)).
Proof.
  unfold runInferenceOnPost. tables_bind.
  - intros st0. unfold executePrompt, sameTables; simpl; auto.
  - intros [[|c s]|] st0; try apply sameTables_refl.
    tables_bind; intros; apply sameTables_refl.
Qed.

(** ** Shape validation *)

Lemma hasAllProperties_all object :
  hasAllProperties object = true <-> forall k, In k requiredKeys -> hasOwn object k = true.
Proof.
  unfold hasAllProperties, requiredKeys. split.
  - intros H k Hk. repeat (apply andb_prop in H; destruct H as [H ?]).
    simpl in Hk. intuition (subst; assumption).
  - intros H. repeat (apply andb_true_intro; split); apply H; simpl; tauto.
Qed.

(** C6.  There are fourteen required keys, and a candidate whose parsed
    object lacks one of them makes sanitization throw ('JSON does not contain
    expected fields'); a post whose inference produced that candidate ends in
    a hard failure of [extractEventFromPost], and the events table is as it
    was. *)
Theorem C6_missing_key_throws (w : World) (generatedJson : string)
    (object : ParsedObject) (k : Key) :
  w.(JSON_parse) (fixGeneratedJson generatedJson) = Some object ->
  In k requiredKeys ->
  hasOwn object k = false ->
  List.length requiredKeys = 14%nat
  /\ postProcessOpenAiInstagramResponse w generatedJson = Threw MissingFields
  /\ forall organizer post st,
       generatedJson <> EmptyString ->
       (forall ocrResult, w.(completion) organizer post ocrResult = Ok (Some generatedJson)) ->
       exists e st',
         extractEventFromPost w organizer post st = (Threw e, st')
         /\ st'.(events) = st.(events).
Proof.
  intros Hparse Hk Hmiss.
  assert (Hall : hasAllProperties object = false).
  { destruct (hasAllProperties object) eqn:E; auto.
    rewrite hasAllProperties_all in E. rewrite (E k Hk) in Hmiss. discriminate. }
  assert (Hpost : postProcessOpenAiInstagramResponse w generatedJson = Threw MissingFields).
  { unfold postProcessOpenAiInstagramResponse. rewrite Hparse, Hall. reflexivity. }
  split; [reflexivity | split; [exact Hpost |]].
  intros organizer post st Hne Hcompletion.
  unfold extractEventFromPost, bind.
  pose proof (extractTextFromPostImages_tables w post st) as T.
  destruct (extractTextFromPostImages w post st) as [[imageText|e] st1]; simpl in T.
  - unfold runInferenceOnPost, bind, executePrompt. rewrite Hcompletion.
    destruct generatedJson as [|c s]; [congruence|].
    unfold lift. rewrite Hpost.
    eexists _, _. split; [reflexivity|]. simpl. apply T.
  - eexists _, _. split; [reflexivity|]. apply T.
Qed.

(** ** The acceptance gate and [persistEvent] *)

Lemma isSome_true {A} (x : option A) : isSome x = true <-> x <> None.
Proof. destruct x; simpl; split; congruence. Qed.

Lemma isTrue_true x : isTrue x = true <-> x = Some true.
Proof. destruct x as [[|]|]; simpl; split; congruence. Qed.

Lemma isFalse_true x : isFalse x = true <-> x = Some false.
Proof. destruct x as [[|]|]; simpl; split; congruence. Qed.

Lemma acceptanceGate_Accepted inference :
  acceptanceGate inference = true <-> Accepted inference.
Proof.
  unfold acceptanceGate, Accepted.
  rewrite !andb_true_iff, !isSome_true, !isTrue_true, !isFalse_true. tauto.
Qed.

Lemma persistEvent_accepted w inference post organizer st :
  acceptanceGate inference = true ->
  exists ev,
    rowOf w inference post organizer ev
    /\ persistEvent w inference post organizer st
       = (Ok None,
          withPosts (map (markCompleted post.(InstagramPost.id) w.(now)))
            (withEvents (fun l => l ++ [ev]) st)).
Proof.
  intros G. unfold persistEvent, bind. rewrite G.
  unfold createEvent, updateCompletedAt, modify, ret. simpl.
  eexists. split; [|reflexivity]. unfold rowOf; simpl. auto 10.
Qed.

Lemma persistEvent_rejected w inference post organizer st :
  acceptanceGate inference = false ->
  persistEvent w inference post organizer st = (Ok None, st).
Proof. intros G. unfold persistEvent, bind. rewrite G. reflexivity. Qed.

Lemma app_one_neq {A} (l : list A) (x : A) : l ++ [x] <> l.
Proof.
  intros H. apply (f_equal (@List.length A)) in H.
  rewrite length_app in H. simpl in H. lia.
Qed.


(** ** No stage returns an event *)

Lemma persistEvent_returns w inference post organizer st :
  fst (persistEvent w inference post organizer st) = Ok None.
Proof.
  destruct (acceptanceGate inference) eqn:G.
  - destruct (persistEvent_accepted w inference post organizer st G) as (ev & _ & ->).
    reflexivity.
  - rewrite persistEvent_rejected by exact G. reflexivity.
Qed.

Lemma extractEventFromPost_returns w organizer post st :
  returnsNull (fst (extractEventFromPost w organizer post st)).
Proof.
  unfold extractEventFromPost, bind.
  destruct (extractTextFromPostImages w post st) as [[imageText|e] st1]; simpl; auto.
  destruct (runInferenceOnPost w organizer post imageText st1)
    as [[[inference|]|e] st2]; simpl; auto.
  rewrite persistEvent_returns. exact I.
Qed.







(** ** Posts are stored once *)

Lemma known_existsb id st :
  known id st <->
  existsb (fun p => String.eqb p.(InstagramPost.id) id) st.(posts) = true.
Proof.
  unfold known. rewrite existsb_exists.
  split; intros (p & Hin & H); exists p; split; auto; apply String.eqb_eq; auto.
Qed.

Lemma getMediaUrls_returns post st :
  exists mediaUrls st',
    getMediaUrls post st = (Ok mediaUrls, st') /\ onlyLogged st st'.
Proof.
  unfold getMediaUrls, onlyLogged, sameTables.
  destruct (InstagramApiPost.media_type post).
  - destruct (InstagramApiPost.media_url post) as [[|c s]|];
      eexists _, _; (split; [reflexivity|]); auto.
  - eexists _, _; (split; [reflexivity|]); auto.
  - eexists _, _; (split; [reflexivity|]); auto.
  - eexists _, _; (split; [reflexivity|]); simpl; auto.
Qed.

Lemma persistPostNoneIfPresent_known organizer apiPost st :
  known apiPost.(InstagramApiPost.id) st ->
  exists st', persistPostNoneIfPresent organizer apiPost st = (Ok None, st')
              /\ onlyLogged st st'.
Proof.
  intros K. unfold persistPostNoneIfPresent, bind.
  destruct (getMediaUrls_returns apiPost st) as (m & st' & -> & L).
  exists st'. split; [|exact L].
  unfold tryCatch, bind, createPost. simpl.
  apply known_existsb in K.
  destruct L as ((_ & Hp & _) & _). rewrite Hp, K. reflexivity.
Qed.

Lemma persistPostNoneIfPresent_stores organizer apiPost st :
  known apiPost.(InstagramApiPost.id) (snd (persistPostNoneIfPresent organizer apiPost st)).
Proof.
  destruct (existsb (fun p => String.eqb p.(InstagramPost.id) apiPost.(InstagramApiPost.id))
              st.(posts)) eqn:E.
  - apply known_existsb in E.
    destruct (persistPostNoneIfPresent_known organizer apiPost st E) as (st' & -> & L).
    simpl. destruct E as (p & Hin & Hid). exists p.
    destruct L as ((_ & Hp & _) & _). rewrite Hp. auto.
  - unfold persistPostNoneIfPresent, bind.
    destruct (getMediaUrls_returns apiPost st) as (m & st' & -> & L).
    unfold tryCatch, bind, createPost. simpl.
    destruct L as ((_ & Hp & _) & _). rewrite Hp, E. simpl.
    eexists. split; [apply in_or_app; right; left; reflexivity | reflexivity].
Qed.

Lemma sameIds_refl st : sameIds st st.
Proof. reflexivity. Qed.

Lemma sameIds_trans a b c : sameIds a b -> sameIds b c -> sameIds a c.
Proof. unfold sameIds; congruence. Qed.

Lemma sameTables_sameIds st st' : sameTables st st' -> sameIds st st'.
Proof. intros (_ & H & _). unfold sameIds. rewrite H. reflexivity. Qed.

Lemma sameIds_known id st st' : sameIds st st' -> known id st -> known id st'.
Proof.
  unfold sameIds, known. intros H (p & Hin & Hid).
  assert (Hi : In id (map InstagramPost.id (posts st'))).
  { rewrite H. apply in_map_iff. eauto. }
  apply in_map_iff in Hi. destruct Hi as (q & Hq & Hin'). eauto.
Qed.

Lemma markCompleted_id id t p :
  InstagramPost.id (markCompleted id t p) = InstagramPost.id p.
Proof. unfold markCompleted. destruct (String.eqb _ _); reflexivity. Qed.

Lemma persistEvent_sameIds w inference post organizer st :
  sameIds st (snd (persistEvent w inference post organizer st)).
Proof.
  destruct (acceptanceGate inference) eqn:G.
  - destruct (persistEvent_accepted w inference post organizer st G) as (ev & _ & ->).
    unfold sameIds. simpl. rewrite map_map.
    apply map_ext. intros; apply markCompleted_id.
  - rewrite persistEvent_rejected by exact G. apply sameIds_refl.
Qed.

Lemma extractEventFromPost_sameIds w organizer post st :
  sameIds st (snd (extractEventFromPost w organizer post st)).
Proof.
  unfold extractEventFromPost.
  apply (bind_keeps sameIds sameIds_trans).
  - intros. apply sameTables_sameIds, extractTextFromPostImages_tables.
  - intros imageText st1. apply (bind_keeps sameIds sameIds_trans).
    + intros. apply sameTables_sameIds, runInferenceOnPost_tables.
    + intros [inference|] st2; [apply persistEvent_sameIds | apply sameIds_refl].
Qed.

Lemma handleInstagramPost_stores w organizer apiPost st :
  known apiPost.(InstagramApiPost.id) (snd (handleInstagramPost w organizer apiPost st)).
Proof.
  unfold handleInstagramPost, bind.
  pose proof (persistPostNoneIfPresent_stores organizer apiPost st) as K.
  destruct (persistPostNoneIfPresent organizer apiPost st) as [[[dbPost|]|e] st1];
    simpl in *; auto.
  pose proof (extractEventFromPost_sameIds w organizer dbPost st1) as S.
  destruct (extractEventFromPost w organizer dbPost st1) as [[[ev|]|e] st2];
    simpl in *; eapply sameIds_known; eauto.
Qed.

Lemma handleInstagramPost_known w organizer apiPost st :
  known apiPost.(InstagramApiPost.id) st ->
  exists st', handleInstagramPost w organizer apiPost st = (Ok None, st')
              /\ onlyLogged st st'.
Proof.
  intros K.
  destruct (persistPostNoneIfPresent_known organizer apiPost st K) as (st' & E & L).
  exists st'. split; [|exact L].
  unfold handleInstagramPost, bind. rewrite E. reflexivity.
Qed.

(** C7.  For a post whose id is already in the posts table, the create is
    refused with the unique-constraint code and [persistPostNoneIfPresent]
    returns null instead of throwing; [handleInstagramPost] then returns null
    at once: the three tables are as they were and no OCR or inference
    request has been sent.  So handling a post a second time, whatever the
    first handling did, changes nothing. *)
Theorem C7_known_post_is_skipped (w : World) (organizer : InstagramEventOrganizer.t)
    (apiPost : InstagramApiPost.t) (st : State) :
  (known apiPost.(InstagramApiPost.id) st ->
   exists st',
     (forall row, row.(InstagramPost.id) = apiPost.(InstagramApiPost.id) ->
        createPost row st = (Threw UniqueConstraint, st))
     /\ persistPostNoneIfPresent organizer apiPost st = (Ok None, st')
     /\ handleInstagramPost w organizer apiPost st = (Ok None, st')
     /\ onlyLogged st st')
  /\ (let st1 := snd (handleInstagramPost w organizer apiPost st) in
      exists st2,
        handleInstagramPost w organizer apiPost st1 = (Ok None, st2)
        /\ onlyLogged st1 st2).
Proof.
  split.
  - intros K.
    destruct (persistPostNoneIfPresent_known organizer apiPost st K) as (st' & E & L).
    exists st'. repeat split; try apply L; try exact E.
    + intros row Hrow. unfold createPost. rewrite Hrow.
      apply known_existsb in K. rewrite K. reflexivity.
    + unfold handleInstagramPost, bind. rewrite E. reflexivity.
  - intros st1. apply handleInstagramPost_known.
    apply handleInstagramPost_stores.
Qed.

(** ** The rate limit *)



Lemma fetchPosts_state w organizer st : snd (fetchPosts w organizer st) = st.
Proof.
  unfold fetchPosts, bind.
  destruct (fetch w _) as [m|[| |c p t] body]; simpl; auto.
  - destruct body; reflexivity.
  - destruct (rateLimitHit c p t); simpl; auto. destruct body; reflexivity.
Qed.









(** ** A failing post *)

Lemma allFulfilled_rejects {A} (rs : list (result A)) :
  (exists e, In (Threw e) rs) ->
  exists e, allFulfilled rs = Threw e /\ In (Threw e) rs.
Proof.
  induction rs as [|[a|e] rs IH]; simpl.
  - intros (e & []).
  - intros (e & [H|H]); [discriminate|].
    destruct (IH (ex_intro _ e H)) as (e' & E & Hin).
    exists e'. rewrite E. auto.
  - intros _. exists e. auto.
Qed.

Lemma keepsKnown_refl st : keepsKnown st st.
Proof. unfold keepsKnown; auto. Qed.

Lemma keepsKnown_trans a b c : keepsKnown a b -> keepsKnown b c -> keepsKnown a c.
Proof. unfold keepsKnown; auto. Qed.

Lemma sameIds_keepsKnown st st' : sameIds st st' -> keepsKnown st st'.
Proof. intros H id. apply sameIds_known. exact H. Qed.

Lemma persistPostNoneIfPresent_keepsKnown organizer apiPost st :
  keepsKnown st (snd (persistPostNoneIfPresent organizer apiPost st)).
Proof.
  unfold persistPostNoneIfPresent, bind.
  destruct (getMediaUrls_returns apiPost st) as (m & st' & -> & ((_ & Hp & _) & _)).
  unfold tryCatch, bind, createPost. simpl. rewrite Hp.
  destruct (existsb _ (posts st)); simpl.
  - intros id (p & Hin & Hid). exists p. rewrite Hp. auto.
  - intros id (p & Hin & Hid). exists p. simpl. rewrite Hp.
    split; [apply in_or_app; auto | exact Hid].
Qed.

Lemma handleInstagramPost_keepsKnown w organizer apiPost st :
  keepsKnown st (snd (handleInstagramPost w organizer apiPost st)).
Proof.
  unfold handleInstagramPost.
  apply (bind_keeps keepsKnown keepsKnown_trans).
  - intros. apply persistPostNoneIfPresent_keepsKnown.
  - intros [dbPost|] st1; [|apply keepsKnown_refl].
    apply (bind_keeps keepsKnown keepsKnown_trans).
    + intros. apply sameIds_keepsKnown, extractEventFromPost_sameIds.
    + intros [ev|] st2; apply keepsKnown_refl.
Qed.

Lemma settleAll_handles_all w organizer data st :
  forall apiPost, In apiPost data ->
    known apiPost.(InstagramApiPost.id)
      (snd (settleAll (map (handleInstagramPost w organizer) data) st)).
Proof.
  revert st. induction data as [|x data IH]; intros st apiPost; simpl; [tauto|].
  pose proof (handleInstagramPost_stores w organizer x st) as K.
  destruct (handleInstagramPost w organizer x st) as [r st1]. simpl in K.
  pose proof (settleAll_keeps keepsKnown keepsKnown_refl keepsKnown_trans
                (map (handleInstagramPost w organizer) data)
                (fun p Hp st0 => ltac:(
                   apply in_map_iff in Hp; destruct Hp as (y & <- & _);
                   apply handleInstagramPost_keepsKnown)) st1) as KK.
  specialize (IH st1).
  destruct (settleAll (map (handleInstagramPost w organizer) data) st1) as [rs st2].
  simpl in *. intros [<-|Hin]; [apply KK, K | apply IH, Hin].
Qed.

(** C2, as the code has it.  When the fetch returned the posts and handling
    one of them throws, the throw is not caught at that post: it rejects the
    joint await and is caught once, in [ingestEventsForOrganizer], which logs
    it under the organizer's name and returns the empty list.  Every post of
    the list has been handled all the same: the state left is the one after
    all the handlers ran, and each post of the list is in the posts table. *)
Theorem C2_failure_is_caught_per_organizer (w : World)
    (organizer : InstagramEventOrganizer.t) (st : State)
    (data : list InstagramApiPost.t) :
  let settled := settleAll (map (handleInstagramPost w organizer) data) st in
  fst (fetchPosts w organizer st) = Ok data ->
  (exists e, In (Threw e) (fst settled)) ->
  exists e,
    In (Threw e) (fst settled)
    /\ ingestEventsForOrganizer w organizer st
       = (Ok [],
          withLog (fun l => l ++ [ErrorIngesting e organizer.(InstagramEventOrganizer.username)])
            (snd settled))
    /\ forall apiPost, In apiPost data ->
         known apiPost.(InstagramApiPost.id) (snd settled).
Proof.
  intros settled Hfetch Hrej.
  destruct (allFulfilled_rejects _ Hrej) as (e & E & He).
  exists e. split; [exact He | split].
  - unfold ingestEventsForOrganizer, tryCatch, bind.
    pose proof (fetchPosts_state w organizer st) as S.
    destruct (fetchPosts w organizer st) as [r st0]. simpl in *. subst r st0.
    unfold Promise_all. subst settled.
    destruct (settleAll (map (handleInstagramPost w organizer) data) st) as [rs st1].
    simpl in *. rewrite E. reflexivity.
  - subst settled. apply settleAll_handles_all.
Qed.

(** ** The requests a post gives rise to *)

Lemma settleAll_annotate w urls st :
  settleAll (map (annotate w) urls) st
  = (map w.(textDetection) urls, withOcrRequests (fun l => l ++ urls) st).
Proof.
  revert st. induction urls as [|u urls IH]; intros st; simpl.
  - destruct st; unfold withOcrRequests; simpl. rewrite app_nil_r. reflexivity.
  - rewrite IH. f_equal. destruct st; unfold withOcrRequests; simpl.
    rewrite <- app_assoc. reflexivity.
Qed.

Lemma extractTextFromPostImages_run w post st :
  extractTextFromPostImages w post st
  = (ocrOutcome w post, withOcrRequests (fun l => l ++ ocrUrls w post) st).
Proof.
  assert (Hid : withOcrRequests (fun l => l ++ []) st = st).
  { destruct st; unfold withOcrRequests; simpl. rewrite app_nil_r. reflexivity. }
  unfold extractTextFromPostImages, ocrOutcome, ocrUrls.
  destruct (InstagramPost.mediaUrlsJson post) as [urls|]; [|rewrite Hid; reflexivity].
  unfold fetchOcrResults.
  destruct (visionCredentials w); [|rewrite Hid; reflexivity].
  unfold bind, Promise_all. rewrite settleAll_annotate.
  destruct (allFulfilled (map (textDetection w) urls)); reflexivity.
Qed.

Lemma grows_refl st : grows st st.
Proof. split; exists [], []; simpl; rewrite app_nil_r; reflexivity. Qed.

Lemma requested_grows ocr inf a b c :
  requested ocr inf a b -> grows b c -> requested ocr inf a c.
Proof.
  intros ((x1 & y1 & H1) & (x2 & y2 & H2)) ((x3 & y3 & H3) & (x4 & y4 & H4)).
  simpl in *. split.
  - exists x1, (y1 ++ x3 ++ y3). rewrite H3, H1. rewrite <- !app_assoc. reflexivity.
  - exists x2, (y2 ++ x4 ++ y4). rewrite H4, H2. rewrite <- !app_assoc. reflexivity.
Qed.

Lemma grows_requested ocr inf a b c :
  grows a b -> requested ocr inf b c -> requested ocr inf a c.
Proof.
  intros ((x3 & y3 & H3) & (x4 & y4 & H4)) ((x1 & y1 & H1) & (x2 & y2 & H2)).
  simpl in *. split.
  - exists ((x3 ++ y3) ++ x1), y1. rewrite H1, H3. rewrite <- !app_assoc. reflexivity.
  - exists ((x4 ++ y4) ++ x2), y2. rewrite H2, H4. rewrite <- !app_assoc. reflexivity.
Qed.

Lemma grows_trans a b c : grows a b -> grows b c -> grows a c.
Proof. apply requested_grows. Qed.

Lemma requested_weaken ocr inf st st' : requested ocr inf st st' -> grows st st'.
Proof.
  intros ((x1 & y1 & H1) & (x2 & y2 & H2)). split.
  - exists (x1 ++ ocr), y1. rewrite H1. simpl. rewrite <- !app_assoc. reflexivity.
  - exists (x2 ++ inf), y2. rewrite H2. simpl. rewrite <- !app_assoc. reflexivity.
Qed.

(** One promise of a [Promise.all] sent the requests; so did the whole. *)
Lemma settleAll_requested {A} ocr inf (ps : list (M A)) (p0 : M A) :
  (forall p, In p ps -> forall st, grows st (snd (p st))) ->
  In p0 ps ->
  (forall st, requested ocr inf st (snd (p0 st))) ->
  forall st, requested ocr inf st (snd (settleAll ps st)).
Proof.
  induction ps as [|p ps IH]; intros Hg Hin H0 st; simpl in *; [tauto|].
  pose proof (settleAll_keeps grows grows_refl grows_trans ps
                (fun q Hq => Hg q (or_intror Hq))) as Hrest.
  destruct (p st) as [r st1] eqn:Ep.
  specialize (Hrest st1).
  destruct Hin as [->|Hin].
  - specialize (H0 st). rewrite Ep in H0. simpl in H0.
    destruct (settleAll ps st1) as [rs st2]. simpl in *.
    eapply requested_grows; eauto.
  - specialize (IH (fun q Hq => Hg q (or_intror Hq)) Hin H0 st1).
    specialize (Hg p (or_introl eq_refl) st). rewrite Ep in Hg. simpl in Hg.
    destruct (settleAll ps st1) as [rs st2]. simpl in *.
    eapply grows_requested; eauto.
Qed.

Lemma persistEvent_requests w inference post organizer st :
  (snd (persistEvent w inference post organizer st)).(ocrRequests) = st.(ocrRequests)
  /\ (snd (persistEvent w inference post organizer st)).(inferenceRequests)
     = st.(inferenceRequests).
Proof.
  destruct (acceptanceGate inference) eqn:G.
  - destruct (persistEvent_accepted w inference post organizer st G) as (ev & _ & ->).
    simpl. auto.
  - rewrite persistEvent_rejected by exact G. auto.
Qed.

(** [extractEventFromPost] sends the OCR requests of the post, and then, if
    OCR returned, the inference request with the text it returned. *)
Lemma extractEventFromPost_requests w organizer post st :
  requested (ocrUrls w post)
    (match ocrOutcome w post with
     | Ok imageText => [(post.(InstagramPost.id), imageText)]
     | Threw _ => []
     end)
    st (snd (extractEventFromPost w organizer post st)).
Proof.
  unfold extractEventFromPost, bind. rewrite extractTextFromPostImages_run.
  destruct (ocrOutcome w post) as [imageText|e]; simpl.
  - unfold runInferenceOnPost, bind, executePrompt.
    assert (Hdone : forall (r : result (option InstagramEvent.t)) st1,
      st1.(ocrRequests) = st.(ocrRequests) ++ ocrUrls w post ->
      st1.(inferenceRequests) = st.(inferenceRequests) ++ [(post.(InstagramPost.id), imageText)] ->
      requested (ocrUrls w post) [(post.(InstagramPost.id), imageText)] st st1).
    { intros _ st1 H1 H2. split; exists [], []; simpl; rewrite ?app_nil_r; assumption. }
    destruct (completion w organizer post imageText) as [[[|c s]|]|e]; simpl;
      try (apply Hdone; [exact (Ok None) | reflexivity | reflexivity]).
    unfold lift.
    destruct (postProcessOpenAiInstagramResponse w (String c s)) as [inference|e]; simpl;
      try (apply Hdone; [exact (Ok None) | reflexivity | reflexivity]).
    destruct (persistEvent_requests w inference post organizer
                (withInferenceRequests (fun l => l ++ [(InstagramPost.id post, imageText)])
                   (withOcrRequests (fun l => l ++ ocrUrls w post) st))) as (H1 & H2).
    apply Hdone; [exact (Ok None) | rewrite H1; reflexivity | rewrite H2; reflexivity].
  - split; exists [], []; simpl; rewrite ?app_nil_r; reflexivity.
Qed.

(** ** What the entry points return *)


Lemma getMediaUrls_value post st : fst (getMediaUrls post st) = Ok (mediaUrlsOf post).
Proof.
  unfold getMediaUrls, mediaUrlsOf.
  destruct (InstagramApiPost.media_type post); try reflexivity.
  destruct (InstagramApiPost.media_url post) as [[|c s]|]; reflexivity.
Qed.



(** ** The posts the fixup finds *)

Lemma set_hasKey k v m : hasKey k (FoundPosts.set k v m).
Proof.
  unfold hasKey. induction m as [|[k' v'] m IH]; simpl; auto.
  destruct (k <? k'); simpl; auto.
  destruct (k =? k'); simpl; auto.
Qed.

Lemma set_keeps k v m k' : hasKey k' m -> hasKey k' (FoundPosts.set k v m).
Proof.
  unfold hasKey. induction m as [|[k0 v0] m IH]; simpl; [tauto|].
  destruct (k <? k0); simpl; [tauto|].
  destruct (k =? k0) eqn:E; simpl.
  - apply Z.eqb_eq in E. subst. tauto.
  - intros [H|H]; auto.
Qed.

Lemma organizersById_keys (l : list InstagramEventOrganizer.t) acc :
  let m :=
    fold_left
      (fun acc organization =>
         FoundPosts.set organization.(InstagramEventOrganizer.id)
           {| FoundPosts.organization := organization; FoundPosts.posts := [] |} acc)
      l acc in
  (forall k, hasKey k acc -> hasKey k m)
  /\ (forall o, In o l -> hasKey o.(InstagramEventOrganizer.id) m).
Proof.
  revert acc. induction l as [|o l IH]; intros acc; simpl.
  - split; [auto | tauto].
  - destruct (IH (FoundPosts.set o.(InstagramEventOrganizer.id)
                    {| FoundPosts.organization := o; FoundPosts.posts := [] |} acc))
      as (K1 & K2).
    split.
    + intros k Hk. apply K1, set_keeps, Hk.
    + intros o' [<-|Hin]; [apply K1, set_hasKey | apply K2, Hin].
Qed.

Lemma push_hasKey k post m :
  hasKey k m ->
  exists m',
    FoundPosts.push k post m = Some m'
    /\ map fst m' = map fst m
    /\ holds post m'
    /\ (forall q, holds q m -> holds q m').
Proof.
  unfold hasKey. induction m as [|[k' v'] m IH]; simpl; [tauto|].
  destruct (k =? k') eqn:E.
  - intros _. eexists. split; [reflexivity|]. split; [reflexivity|]. split.
    + eexists _, _. split; [left; reflexivity|]. simpl. apply in_or_app. simpl. auto.
    + intros q (k0 & e & [H|H] & Hq).
      * inversion H; subst. eexists _, _. split; [left; reflexivity|].
        simpl. apply in_or_app. auto.
      * exists k0, e. split; [right; exact H | exact Hq].
  - intros [H|H]; [apply Z.eqb_neq in E; congruence|].
    destruct (IH H) as (m' & -> & Hk & Hp & Hq).
    eexists. split; [reflexivity|]. split; [simpl; congruence|]. split.
    + destruct Hp as (k0 & e & Hin & Hpost). exists k0, e. split; [right|]; assumption.
    + intros q (k0 & e & [Hin|Hin] & Hpost).
      * exists k0, e. split; [left|]; assumption.
      * destruct (Hq q (ex_intro _ k0 (ex_intro _ e (conj Hin Hpost))))
          as (k1 & e1 & Hin1 & Hpost1).
        exists k1, e1. split; [right|]; assumption.
Qed.

Lemma pushPosts_holds found m :
  (forall p, In p found -> hasKey p.(InstagramPost.organizerId) m) ->
  exists m',
    pushPosts found m = Some m'
    /\ (forall p, In p found -> holds p m')
    /\ (forall q, holds q m -> holds q m').
Proof.
  revert m. induction found as [|p found IH]; intros m Hkeys; simpl.
  - exists m. split; [reflexivity|]. split; [tauto | auto].
  - destruct (push_hasKey p.(InstagramPost.organizerId) p m (Hkeys p (or_introl eq_refl)))
      as (m1 & -> & Hk & Hp & Hq).
    destruct (IH m1) as (m' & -> & Hall & Hkeep).
    { intros q Hin. unfold hasKey. rewrite Hk. apply Hkeys. right. exact Hin. }
    exists m'. split; [reflexivity|]. split.
    + intros q [<-|Hin]; [apply Hkeep, Hp | apply Hall, Hin].
    + intros q Hq0. apply Hkeep, Hq, Hq0.
Qed.

Lemma findPosts_finds eventsWhere st :
  (forall p, In p st.(posts) -> eventsWhere p = true ->
     exists o, In o st.(organizers)
               /\ o.(InstagramEventOrganizer.id) = p.(InstagramPost.organizerId)) ->
  exists found,
    findPosts eventsWhere st = (Ok found, st)
    /\ forall p, In p st.(posts) -> eventsWhere p = true ->
         exists e, In e (FoundPosts.values found) /\ In p e.(FoundPosts.posts).
Proof.
  intros Horg. unfold findPosts.
  destruct (organizersById_keys st.(organizers) []) as (_ & Hkeys).
  match goal with
  | |- context [pushPosts ?f ?m] => destruct (pushPosts_holds f m) as (m' & -> & Hall & _)
  end.
  { intros p Hp. apply filter_In in Hp. destruct Hp as (Hin & Hw).
    destruct (Horg p Hin Hw) as (o & Ho & <-). apply Hkeys, Ho. }
  exists m'. split; [reflexivity|].
  intros p Hin Hw.
  destruct (Hall p) as (k & e & Hke & Hpe).
  { apply filter_In. auto. }
  exists e. split; [|exact Hpe].
  unfold FoundPosts.values. apply in_map_iff. exists (k, e). auto.
Qed.

Lemma extractEventFromPost_grows w organizer post st :
  grows st (snd (extractEventFromPost w organizer post st)).
Proof. eapply requested_weaken, extractEventFromPost_requests. Qed.

(** C9, as the code has it.  Provided every post with no completion
    timestamp has its organizer in the store, the fixup returns, and it runs
    [extractEventFromPost] on each such post: the whole of it, OCR first.  For
    each such post it sends one text-detection request for every stored media
    URL (when the list is not null and the credentials are set), and, when
    OCR returned, the inference request with the text OCR returned.  It
    creates no post: the ids in the posts table are as they were. *)
Theorem C9_fixup_reruns_ocr (w : World) (st : State) :
  (forall p, In p st.(posts) -> p.(InstagramPost.completedAt) = None ->
     exists o, In o st.(organizers)
               /\ o.(InstagramEventOrganizer.id) = p.(InstagramPost.organizerId)) ->
  exists st',
    fixupInstagramIngestion w st = (Ok tt, st')
    /\ sameIds st st'
    /\ forall p, In p st.(posts) -> p.(InstagramPost.completedAt) = None ->
         requested (ocrUrls w p)
           (match ocrOutcome w p with
            | Ok imageText => [(p.(InstagramPost.id), imageText)]
            | Threw _ => []
            end) st st'.
Proof.
  intros Horg.
  destruct (findPosts_finds notCompleted st) as (found & Efind & Hfound).
  { intros p Hin Hc. apply Horg; [exact Hin|].
    unfold notCompleted, isNull in Hc. destruct (InstagramPost.completedAt p); [discriminate|reflexivity]. }
  unfold fixupInstagramIngestion, bind. rewrite Efind.
  set (work := map (fun e => Promise_all
                      (map (extractEventFromPost w e.(FoundPosts.organization))
                         e.(FoundPosts.posts)))
                 (FoundPosts.values found)).
  assert (Hgrow : forall q, In q work -> forall st0, grows st0 (snd (q st0))).
  { intros q Hq st0. subst work. apply in_map_iff in Hq. destruct Hq as (e & <- & _).
    apply (Promise_all_keeps grows grows_refl grows_trans).
    intros q Hq st1. apply in_map_iff in Hq. destruct Hq as (x & <- & _).
    apply extractEventFromPost_grows. }
  assert (Hids : forall q, In q work -> forall st0, sameIds st0 (snd (q st0))).
  { intros q Hq st0. subst work. apply in_map_iff in Hq. destruct Hq as (e & <- & _).
    apply (Promise_all_keeps sameIds sameIds_refl sameIds_trans).
    intros q Hq st1. apply in_map_iff in Hq. destruct Hq as (x & <- & _).
    apply extractEventFromPost_sameIds. }
  pose proof (settleAll_keeps sameIds sameIds_refl sameIds_trans work Hids st) as Hsame.
  assert (Hreq : forall p, In p st.(posts) -> p.(InstagramPost.completedAt) = None ->
            requested (ocrUrls w p)
              (match ocrOutcome w p with
               | Ok imageText => [(p.(InstagramPost.id), imageText)]
               | Threw _ => []
               end) st (snd (settleAll work st))).
  { intros p Hin Hc.
    destruct (Hfound p Hin) as (e & He & Hpe).
    { unfold notCompleted, isNull. rewrite Hc. reflexivity. }
    apply settleAll_requested
      with (p0 := Promise_all (map (extractEventFromPost w e.(FoundPosts.organization))
                                 e.(FoundPosts.posts))).
    - exact Hgrow.
    - subst work. apply in_map_iff. exists e. auto.
    - intros st0. unfold Promise_all.
      pose proof (settleAll_requested (ocrUrls w p)
                    (match ocrOutcome w p with
                     | Ok imageText => [(p.(InstagramPost.id), imageText)]
                     | Threw _ => []
                     end)
                    (map (extractEventFromPost w e.(FoundPosts.organization)) e.(FoundPosts.posts))
                    (extractEventFromPost w e.(FoundPosts.organization) p)) as H.
      specialize (H (fun q Hq st1 => ltac:(
                       apply in_map_iff in Hq; destruct Hq as (x & <- & _);
                       apply extractEventFromPost_grows))).
      specialize (H (in_map _ _ _ Hpe)
                    (fun st1 => extractEventFromPost_requests w _ p st1) st0).
      destruct (settleAll _ st0) as [rs st1]. exact H. }
  destruct (settleAll work st) as [rs st'] eqn:Ework.
  exists st'. split; [reflexivity | split; [exact Hsame | exact Hreq]].
Qed.

(** ** The calendar: dates and day numbers *)

Lemma allFrom_spec n f : forall i,
  allFrom n i f = true -> forall j, i <= j < i + Z.of_nat n -> f j = true.
Proof.
  induction n as [|n IH]; intros i H j Hj.
  - simpl in Hj. lia.
  - simpl in H. destruct (f i) eqn:E; [|discriminate].
    destruct (Z.eq_dec j i) as [->|Hne]; [exact E|].
    apply (IH (i + 1) H). lia.
Qed.

Lemma era_checked : allFrom (Z.to_nat 146097) 0 eraDayOk = true.
Proof. vm_cast_no_check (eq_refl true). Qed.

Ltac euclid := Z.to_euclidean_division_equations; lia.

Lemma isLeapYear_shift y k : Luxon.isLeapYear (y + 400 * k) = Luxon.isLeapYear y.
Proof.
  unfold Luxon.isLeapYear.
  replace ((y + 400 * k) mod 4) with (y mod 4) by euclid.
  replace ((y + 400 * k) mod 100) with (y mod 100) by euclid.
  replace ((y + 400 * k) mod 400) with (y mod 400) by euclid.
  reflexivity.
Qed.

Lemma daysInMonth_shift y m k :
  Luxon.daysInMonth (y + 400 * k) m = Luxon.daysInMonth y m.
Proof.
  unfold Luxon.daysInMonth. cbv zeta.
  replace (y + 400 * k + (m - ((m - 1) mod 12 + 1)) / 12)
    with (y + (m - ((m - 1) mod 12 + 1)) / 12 + 400 * k) by lia.
  rewrite isLeapYear_shift. reflexivity.
Qed.

Lemma daysFromCivil_shift y m d k :
  Luxon.daysFromCivil (y + 400 * k) m d = Luxon.daysFromCivil y m d + 146097 * k.
Proof.
  unfold Luxon.daysFromCivil. cbv zeta.
  destruct (m <=? 2).
  - replace ((y + 400 * k - 1) / 400) with ((y - 1) / 400 + k) by euclid.
    replace ((y + 400 * k - 1) mod 400) with ((y - 1) mod 400) by euclid.
    lia.
  - replace ((y + 400 * k) / 400) with (y / 400 + k) by euclid.
    replace ((y + 400 * k) mod 400) with (y mod 400) by euclid.
    lia.
Qed.

Lemma civilFromDays_shift z k :
  Luxon.civilFromDays (z + 146097 * k)
  = let '(y, m, d) := Luxon.civilFromDays z in (y + 400 * k, m, d).
Proof.
  unfold Luxon.civilFromDays. cbv zeta.
  replace ((z + 146097 * k + 719468) / 146097) with ((z + 719468) / 146097 + k) by euclid.
  replace ((z + 146097 * k + 719468) mod 146097) with ((z + 719468) mod 146097) by euclid.
  match goal with
  | |- context [if ?b then _ else _] => destruct b
  end; f_equal; f_equal; lia.
Qed.

Lemma daysFromCivil_day y m d n :
  Luxon.daysFromCivil y m (d + n) = Luxon.daysFromCivil y m d + n.
Proof. unfold Luxon.daysFromCivil. cbv zeta. lia. Qed.

(** The date of a day number is a date of the calendar, and it is the date
    of that day. *)
Lemma civilFromDays_correct z :
  let '(y, m, d) := Luxon.civilFromDays z in
  Luxon.daysFromCivil y m d = z /\ 1 <= d <= Luxon.daysInMonth y m.
Proof.
  set (k := (z + 719468) / 146097).
  set (doe := (z + 719468) mod 146097).
  assert (Hz : z = (doe - 719468) + 146097 * k) by (subst k doe; euclid).
  assert (Hdoe : 0 <= doe < 0 + Z.of_nat (Z.to_nat 146097)).
  { rewrite Z2Nat.id by lia. subst doe. euclid. }
  pose proof (allFrom_spec _ _ _ era_checked doe Hdoe) as Hok.
  unfold eraDayOk in Hok. cbv zeta in Hok.
  rewrite Hz, civilFromDays_shift.
  destruct (Luxon.civilFromDays (doe - 719468)) as [[y m] d].
  rewrite !andb_true_iff, Z.eqb_eq, !Z.leb_le in Hok.
  rewrite daysFromCivil_shift, daysInMonth_shift. lia.
Qed.

(** ** The calendar: local times and the zone *)

Lemma localObj_plus local n :
  let c := Luxon.localObj local in
  Luxon.objToLocalTS
    {| Luxon.year := c.(Luxon.year); Luxon.month := c.(Luxon.month);
       Luxon.day := Z.min c.(Luxon.day) (Luxon.daysInMonth c.(Luxon.year) c.(Luxon.month)) + n;
       Luxon.hour := c.(Luxon.hour); Luxon.minute := c.(Luxon.minute);
       Luxon.second := c.(Luxon.second); Luxon.millisecond := c.(Luxon.millisecond) |}
  = local + n * Luxon.msPerDay.
Proof.
  unfold Luxon.localObj.
  pose proof (civilFromDays_correct (local / Luxon.msPerDay)) as H.
  destruct (Luxon.civilFromDays (local / Luxon.msPerDay)) as [[y m] d].
  destruct H as (Hd & Hlo & Hhi).
  unfold Luxon.objToLocalTS. simpl.
  rewrite Z.min_l by exact Hhi.
  rewrite daysFromCivil_day, Hd.
  unfold Luxon.msPerDay, Luxon.msPerHour, Luxon.msPerMinute. euclid.
Qed.

Section ZoneBounds.
Variable tz : Luxon.Zone.
Variables lo hi : Z.
Hypothesis tz_range : forall t, lo <= tz t <= hi.

(** The instant found for a local time lies within the zone's offsets of
    it, and shows that local time or, in a gap, a later one. *)
Lemma fixOffset_bounds localTS o :
  let '(ts, o') := Luxon.fixOffset localTS o tz in
  localTS - hi * Luxon.msPerMinute <= ts <= localTS - lo * Luxon.msPerMinute
  /\ localTS <= ts + o' * Luxon.msPerMinute
     <= localTS + (hi - lo) * Luxon.msPerMinute.
Proof.
  unfold Luxon.fixOffset. cbv zeta. unfold Luxon.msPerMinute.
  destruct (o =? tz (localTS - o * 60000)) eqn:E1.
  - apply Z.eqb_eq in E1. pose proof (tz_range (localTS - o * 60000)). lia.
  - set (o2 := tz (localTS - o * 60000)).
    pose proof (tz_range (localTS - o * 60000)) as R2. fold o2 in R2.
    destruct (o2 =? tz (localTS - o * 60000 - (o2 - o) * 60000)) eqn:E2.
    + lia.
    + set (o3 := tz (localTS - o * 60000 - (o2 - o) * 60000)).
      pose proof (tz_range (localTS - o * 60000 - (o2 - o) * 60000)) as R3.
      fold o3 in R3. lia.
Qed.
End ZoneBounds.

Lemma zone_range t : -480 <= zone t <= -420.
Proof.
  unfold zone, Luxon.America_Los_Angeles. cbv zeta.
  match goal with |- context [if ?b then _ else _] => destruct b end; lia.
Qed.

Lemma TimeClip_inRange t : Z.abs t <= Luxon.maxTime -> Luxon.TimeClip t = Some t.
Proof.
  intros H. unfold Luxon.TimeClip.
  destruct (Z.abs t <=? Luxon.maxTime) eqn:E; [reflexivity|].
  apply Z.leb_gt in E. lia.
Qed.

(** A valid date in range resolves to an instant seven to eight hours after
    its local time read as UTC, and shows that local time or one up to an
    hour later. *)
Lemma resolve_valid now c :
  Luxon.validGregorian c && Luxon.validTime c = true ->
  inRange (Luxon.objToLocalTS c) ->
  exists dt,
    Luxon.resolve zone now c = Some dt
    /\ dt.(Luxon.zone) = zone
    /\ Luxon.objToLocalTS c + 420 * Luxon.msPerMinute <= dt.(Luxon.ts)
       <= Luxon.objToLocalTS c + 480 * Luxon.msPerMinute
    /\ Luxon.objToLocalTS c <= localOf dt <= Luxon.objToLocalTS c + Luxon.msPerHour.
Proof.
  intros Hv Hr. unfold Luxon.resolve. rewrite Hv.
  unfold inRange, Luxon.maxTime, Luxon.msPerDay in Hr.
  rewrite TimeClip_inRange by (unfold Luxon.maxTime; lia).
  pose proof (fixOffset_bounds zone (-480) (-420) zone_range
                (Luxon.objToLocalTS c) (zone now)) as B.
  destruct (Luxon.fixOffset (Luxon.objToLocalTS c) (zone now) zone) as [t o'].
  eexists. split; [reflexivity|]. unfold localOf. simpl.
  unfold Luxon.msPerMinute, Luxon.msPerHour in *. split; [reflexivity|]. lia.
Qed.

Lemma plusDays_valid dt n :
  dt.(Luxon.zone) = zone ->
  Z.abs (localOf dt + n * Luxon.msPerDay) <= Luxon.maxTime - 12 * Luxon.msPerHour ->
  exists dt',
    Luxon.plusDays (Some dt) n = Some dt'
    /\ localOf dt + n * Luxon.msPerDay + 420 * Luxon.msPerMinute <= dt'.(Luxon.ts)
       <= localOf dt + n * Luxon.msPerDay + 480 * Luxon.msPerMinute.
Proof.
  intros Hz Hr. unfold Luxon.plusDays, Luxon.tsToObj.
  pose proof (localObj_plus (localOf dt) n) as L. cbv zeta in L.
  fold (localOf dt). rewrite L. clear L.
  unfold Luxon.maxTime, Luxon.msPerDay, Luxon.msPerHour in Hr.
  rewrite TimeClip_inRange by (unfold Luxon.maxTime, Luxon.msPerDay; lia).
  rewrite Hz.
  pose proof (fixOffset_bounds zone (-480) (-420) zone_range
                (localOf dt + n * Luxon.msPerDay) dt.(Luxon.o)) as B.
  destruct (Luxon.fixOffset (localOf dt + n * Luxon.msPerDay) (Luxon.o dt) zone) as [t o'].
  eexists. split; [reflexivity|]. simpl.
  unfold Luxon.msPerMinute in *. lia.
Qed.

(** ** The order of the two instants *)

Lemma eventStart_valid w inference :
  validDate (startFields w inference) ->
  inRange (startWallClock w inference) ->
  exists s,
    eventStart w inference = Some s
    /\ s <= startWallClock w inference + 480 * Luxon.msPerMinute.
Proof.
  intros Hv Hr. unfold eventStart, Luxon.fromObject. fold (startFields w inference).
  destruct (resolve_valid w.(now) _ Hv Hr) as (dt & -> & _ & Hts & _).
  unfold startWallClock in *. unfold Luxon.toJSDate.
  unfold inRange, Luxon.maxTime, Luxon.msPerDay, Luxon.msPerMinute in *.
  rewrite TimeClip_inRange by (unfold Luxon.maxTime; lia).
  eexists. split; [reflexivity | lia].
Qed.

Lemma eventEnd_valid w inference :
  validDate (endFields w inference) ->
  inRange (Luxon.objToLocalTS (endFields w inference)) ->
  inRange (endWallClock w inference) ->
  exists e,
    eventEnd w inference = Some e
    /\ endWallClock w inference + 420 * Luxon.msPerMinute <= e.
Proof.
  intros Hv Hr0 Hr. unfold eventEnd, Luxon.fromObject. cbv zeta.
  fold (endFields w inference).
  destruct (resolve_valid w.(now) _ Hv Hr0) as (dt & -> & Hz & _ & Hloc).
  unfold endWallClock in *.
  set (n := toNumber (endDay inference) - toNumber (startDay inference)) in *.
  destruct (plusDays_valid dt n Hz) as (dt' & -> & Hts).
  { unfold inRange, Luxon.maxTime, Luxon.msPerDay, Luxon.msPerHour in *. lia. }
  unfold Luxon.toJSDate.
  unfold inRange, Luxon.maxTime, Luxon.msPerDay, Luxon.msPerHour,
    Luxon.msPerMinute in *.
  rewrite TimeClip_inRange by (unfold Luxon.maxTime; lia).
  eexists. split; [reflexivity | lia].
Qed.

Lemma normalized_day tz now y m d n h mi :
  Luxon.objToLocalTS (Luxon.normalized tz now y m (d + n) h mi)
  = Luxon.objToLocalTS (Luxon.normalized tz now y m d h mi) + n * Luxon.msPerDay.
Proof.
  unfold Luxon.objToLocalTS, Luxon.normalized.
  cbn [Luxon.year Luxon.month Luxon.day Luxon.hour Luxon.minute Luxon.second
       Luxon.millisecond].
  rewrite daysFromCivil_day. ring.
Qed.

(** The end time the inference names is the time on [endDay]. *)
Lemma endWallClock_endDay w inference :
  endWallClock w inference
  = Luxon.objToLocalTS
      (Luxon.normalized zone w.(now) inference.(endYear) inference.(endMonth)
         (toNumber inference.(endDay)) (toNumber inference.(endHourMilitaryTime))
         (toNumber inference.(endMinute))).
Proof.
  unfold endWallClock, endFields.
  rewrite <- normalized_day. f_equal. f_equal. lia.
Qed.

(** C1, as the code has it.  [persistEvent] does not compare the two
    instants.  For an accepted inference whose start and end fields are valid
    dates within the range of JS dates, the event it stores has an end that
    is not before its start whenever the end time the inference names is at
    least an hour past the start time it names, both read on the wall clock;
    the hour is the width of the zone's two offsets. *)
Theorem C1_end_not_before_start_when_an_hour_later (w : World)
    (inference : OpenAiInstagramResult) (post : InstagramPost.t)
    (organizer : InstagramEventOrganizer.t) (st : State) :
  Accepted inference ->
  validDate (startFields w inference) ->
  validDate (endFields w inference) ->
  inRange (startWallClock w inference) ->
  inRange (Luxon.objToLocalTS (endFields w inference)) ->
  inRange (endWallClock w inference) ->
  startWallClock w inference + Luxon.msPerHour <= endWallClock w inference ->
  exists ev st' s e,
    persistEvent w inference post organizer st = (Ok None, st')
    /\ st'.(events) = st.(events) ++ [ev]
    /\ ev.(InstagramEvent.postID) = post.(InstagramPost.id)
    /\ ev.(InstagramEvent.start) = Some s
    /\ ev.(InstagramEvent.end_) = Some e
    /\ s <= e.
Proof.
  intros Hacc Hvs Hve Hrs Hre0 Hre Horder.
  apply acceptanceGate_Accepted in Hacc.
  destruct (persistEvent_accepted w inference post organizer st Hacc)
    as (ev & (Hid & Hs & He & _) & E).
  destruct (eventStart_valid w inference Hvs Hrs) as (s & Es & Hsb).
  destruct (eventEnd_valid w inference Hve Hre0 Hre) as (e & Ee & Heb).
  eexists ev, _, s, e. split; [exact E|]. simpl.
  repeat split; try congruence.
  unfold Luxon.msPerHour, Luxon.msPerMinute in *. lia.
Qed.

(** ** The examples, run *)

(** The scenario of the specification: one event, from 2023-12-30T04:00Z to
    2023-12-30T06:00Z, and the post marked complete. *)
Example demo_user_scenario :
  let st := snd (scrapeInstagramEventsForUser Example.world "demo_user" emptyState) in
  map (fun ev => (ev.(InstagramEvent.postID), ev.(InstagramEvent.start),
                  ev.(InstagramEvent.end_), ev.(InstagramEvent.title))) st.(events)
  = [("demo-1", Some 1703908800000, Some 1703916000000, "Live Music @ demo_user")]
  /\ map InstagramPost.completedAt st.(posts) = [Some 1702000000000]
  /\ st.(log) = [StartingUser "demo_user"; CompletedUser 0 "demo_user"].
Proof. vm_compute. auto. Qed.

(** The state the examples start from is the one the run over all the
    sources leaves. *)
Example afterScrape_is_the_run :
  Example.afterScrape = snd (scrapeAllInstagramEvents Example.world emptyState).
Proof. vm_compute. reflexivity. Qed.

(** The hour cannot be made shorter: on the day the clocks go forward, a
    start at 02:30, a local time that does not exist, is read as 03:30, and
    an end at 03:00, half an hour later on the wall clock, is stored half an
    hour before it. *)
Example half_an_hour_later_may_end_before :
  Accepted gapInference
  /\ endWallClock Example.world gapInference
     = startWallClock Example.world gapInference + 30 * Luxon.msPerMinute
  /\ eventStart Example.world gapInference = Some 1710066600000
  /\ eventEnd Example.world gapInference = Some 1710064800000.
Proof.
  split; [apply acceptanceGate_Accepted; vm_compute; reflexivity|].
  vm_compute. auto.
Qed.

(** C1 fails as stated: the candidate of [late_user]'s image post passes the
    gate with a start at 20:00 and an end at 10:00 on 2024-06-15, and the
    event stored for it ends ten hours before it starts. *)
Lemma C1_end_before_start :
  postProcessOpenAiInstagramResponse Example.world Example.lateJson = Ok lateInference
  /\ Accepted lateInference
  /\ exists ev,
       (snd (persistEvent Example.world lateInference Example.storedLate
               (Example.organizer 3 "late_user") emptyState)).(events) = [ev]
       /\ ev.(InstagramEvent.start) = Some 1718506800000
       /\ ev.(InstagramEvent.end_) = Some 1718470800000
       /\ 1718470800000 < 1718506800000.
Proof.
  split; [vm_compute; reflexivity|].
  split; [apply acceptanceGate_Accepted; vm_compute; reflexivity|].
  eexists. split; [vm_compute; reflexivity|].
  simpl. repeat split.
Qed.

Ltac decide_le := vm_compute; let H := fresh in intro H; discriminate H.

(** The candidate of the scenario: the end is two hours past the start, and
    the stored event ends after it starts. *)
Lemma C1_live_music_ends_after_it_starts :
  postProcessOpenAiInstagramResponse Example.world Example.liveMusicJson = Ok demoInference
  /\ Accepted demoInference
  /\ startWallClock Example.world demoInference + Luxon.msPerHour
     <= endWallClock Example.world demoInference
  /\ exists ev st' s e,
       persistEvent Example.world demoInference Example.storedDemo
         (Example.organizer 1 "demo_user") emptyState = (Ok None, st')
       /\ st'.(events) = emptyState.(events) ++ [ev]
       /\ ev.(InstagramEvent.postID) = Example.storedDemo.(InstagramPost.id)
       /\ ev.(InstagramEvent.start) = Some s
       /\ ev.(InstagramEvent.end_) = Some e
       /\ s <= e.
Proof.
  assert (H1 : Accepted demoInference)
    by (apply acceptanceGate_Accepted; vm_compute; reflexivity).
  assert (H2 : validDate (startFields Example.world demoInference))
    by (vm_compute; reflexivity).
  assert (H3 : validDate (endFields Example.world demoInference))
    by (vm_compute; reflexivity).
  assert (H4 : inRange (startWallClock Example.world demoInference)) by decide_le.
  assert (H5 : inRange (Luxon.objToLocalTS (endFields Example.world demoInference)))
    by decide_le.
  assert (H6 : inRange (endWallClock Example.world demoInference)) by decide_le.
  assert (H7 : startWallClock Example.world demoInference + Luxon.msPerHour
               <= endWallClock Example.world demoInference) by decide_le.
  split; [vm_compute; reflexivity|].
  split; [exact H1|]. split; [exact H7|].
  exact (C1_end_not_before_start_when_an_hour_later Example.world demoInference
           Example.storedDemo (Example.organizer 1 "demo_user") emptyState
           H1 H2 H3 H4 H5 H6 H7).
Defined.

(** C2 fails as stated: the inference of [late_user]'s album is not JSON.
    Handling the album throws, nothing at the post catches it; the organizer
    logs the error and returns no event, though the image post next to it
    was handled and its event stored. *)
Lemma C2_failure_reaches_the_organizer :
  (exists st1,
     handleInstagramPost Example.world (Example.organizer 3 "late_user")
       Example.albumPost emptyState = (Threw SyntaxError, st1))
  /\ exists st' ev,
       ingestEventsForOrganizer Example.world (Example.organizer 3 "late_user") emptyState
       = (Ok [], st')
       /\ st'.(log) = [ErrorIngesting SyntaxError "late_user"]
       /\ st'.(events) = [ev]
       /\ ev.(InstagramEvent.postID) = "late-2".
Proof.
  split.
  - eexists. vm_compute. reflexivity.
  - eexists _, _. split; [vm_compute; reflexivity|]. simpl. auto.
Qed.

Lemma C2_late_user_failure_is_logged_once :
  fst (fetchPosts Example.world (Example.organizer 3 "late_user") emptyState)
  = Ok [Example.albumPost; Example.latePost]
  /\ exists e,
       In (Threw e)
         (fst (settleAll
                 (map (handleInstagramPost Example.world (Example.organizer 3 "late_user"))
                    [Example.albumPost; Example.latePost]) emptyState))
       /\ ingestEventsForOrganizer Example.world (Example.organizer 3 "late_user") emptyState
          = (Ok [],
             withLog (fun l => l ++ [ErrorIngesting e "late_user"])
               (snd (settleAll
                       (map (handleInstagramPost Example.world
                               (Example.organizer 3 "late_user"))
                          [Example.albumPost; Example.latePost]) emptyState)))
       /\ forall apiPost, In apiPost [Example.albumPost; Example.latePost] ->
            known apiPost.(InstagramApiPost.id)
              (snd (settleAll
                      (map (handleInstagramPost Example.world
                              (Example.organizer 3 "late_user"))
                         [Example.albumPost; Example.latePost]) emptyState)).
Proof.
  assert (H1 : fst (fetchPosts Example.world (Example.organizer 3 "late_user") emptyState)
               = Ok [Example.albumPost; Example.latePost])
    by (vm_compute; reflexivity).
  split; [exact H1|].
  apply (C2_failure_is_caught_per_organizer Example.world
           (Example.organizer 3 "late_user") emptyState
           [Example.albumPost; Example.latePost] H1).
  exists SyntaxError. vm_compute. left. reflexivity.
Defined.

Lemma C4_new_year_candidate :
  (defaultEndYear (defaultStartYear 2024 newYearCandidate)).(endYear) = Some 2024
  /\ (postProcessing 2024 newYearCandidate).(endYear) = Some 2025.
Proof.
  apply (C4_rollover_overrides_copy 2024 newYearCandidate); reflexivity.
Defined.

Lemma C5_late_night_candidate :
  (postProcessing 2024 lateNightCandidate).(endHourMilitaryTime) = Some 1
  /\ (postProcessing 2024 lateNightCandidate).(endDay) = Some 32
  /\ (postProcessing 2024 lateNightCandidate).(startDay) = Some 31.
Proof.
  destruct (C5_end_hour_carries_into_next_day 2024 lateNightCandidate eq_refl eq_refl)
    as (H1 & _ & H3 & H4).
  split; [exact H1 | split; [exact (H4 31 eq_refl) | exact H3]].
Defined.

Lemma C6_candidate_without_endYear :
  Example.world.(JSON_parse) (fixGeneratedJson Example.shortJson) = Some shortObject
  /\ postProcessOpenAiInstagramResponse Example.world Example.shortJson = Threw MissingFields
  /\ exists e st',
       extractEventFromPost Example.world (Example.organizer 1 "demo_user") shortPost
         emptyState = (Threw e, st')
       /\ st'.(events) = emptyState.(events).
Proof.
  assert (H1 : Example.world.(JSON_parse) (fixGeneratedJson Example.shortJson)
               = Some shortObject) by (vm_compute; reflexivity).
  destruct (C6_missing_key_throws Example.world Example.shortJson shortObject K_endYear H1)
    as (_ & H2 & H3).
  - simpl. tauto.
  - reflexivity.
  - split; [exact H1 | split; [exact H2|]].
    apply H3.
    + vm_compute. discriminate.
    + intros ocrResult. reflexivity.
Defined.

Lemma C7_demo_post_replayed :
  known Example.demoPost.(InstagramApiPost.id) Example.afterScrape
  /\ exists st',
       handleInstagramPost Example.world (Example.organizer 1 "demo_user")
         Example.demoPost Example.afterScrape = (Ok None, st')
       /\ onlyLogged Example.afterScrape st'.
Proof.
  assert (K : known Example.demoPost.(InstagramApiPost.id) Example.afterScrape).
  { apply known_existsb. vm_compute. reflexivity. }
  split; [exact K|].
  destruct (C7_known_post_is_skipped Example.world (Example.organizer 1 "demo_user")
              Example.demoPost Example.afterScrape) as (H & _).
  destruct (H K) as (st' & _ & _ & H3 & H4).
  exists st'. split; assumption.
Defined.


(** C9 fails as stated: after the run over all the sources the album of
    [late_user] has no completion timestamp, and the fixup sends a
    text-detection request for each of its two stored media URLs again. *)
Lemma C9_fixup_sends_ocr_requests :
  In Example.storedAlbum Example.afterScrape.(posts)
  /\ Example.afterScrape.(ocrRequests)
     = ["https://cdn.example/demo-1.jpg"; "https://cdn.example/late-1a.jpg";
        "https://cdn.example/late-1c.jpg"; "https://cdn.example/late-2.jpg"]
  /\ exists st',
       fixupInstagramIngestion Example.world Example.afterScrape = (Ok tt, st')
       /\ st'.(ocrRequests)
          = Example.afterScrape.(ocrRequests)
            ++ ["https://cdn.example/late-1a.jpg"; "https://cdn.example/late-1c.jpg"].
Proof.
  split; [vm_compute; auto|].
  split; [vm_compute; reflexivity|].
  eexists. split; vm_compute; reflexivity.
Qed.

Lemma C9_fixup_after_the_run :
  (forall p, In p Example.afterScrape.(posts) -> p.(InstagramPost.completedAt) = None ->
     exists o, In o Example.afterScrape.(organizers)
               /\ o.(InstagramEventOrganizer.id) = p.(InstagramPost.organizerId))
  /\ ocrUrls Example.world Example.storedAlbum
     = ["https://cdn.example/late-1a.jpg"; "https://cdn.example/late-1c.jpg"]
  /\ ocrOutcome Example.world Example.storedAlbum = Ok (Some newline)
  /\ exists st',
       fixupInstagramIngestion Example.world Example.afterScrape = (Ok tt, st')
       /\ requested (ocrUrls Example.world Example.storedAlbum)
            (match ocrOutcome Example.world Example.storedAlbum with
             | Ok imageText => [(Example.storedAlbum.(InstagramPost.id), imageText)]
             | Threw _ => []
             end) Example.afterScrape st'.
Proof.
  assert (H : forall p, In p Example.afterScrape.(posts) ->
                p.(InstagramPost.completedAt) = None ->
                exists o, In o Example.afterScrape.(organizers)
                          /\ o.(InstagramEventOrganizer.id) = p.(InstagramPost.organizerId)).
  { intros p Hin Hc. vm_compute in Hin.
    destruct Hin as [<-|[<-|[<-|[]]]]; try discriminate Hc.
    exists (Example.organizer 3 "late_user"). split; [vm_compute; auto | reflexivity]. }
  split; [exact H|].
  split; [vm_compute; reflexivity|].
  split; [vm_compute; reflexivity|].
  destruct (C9_fixup_reruns_ocr Example.world Example.afterScrape H) as (st' & E & _ & R).
  exists st'. split; [exact E|].
  apply (R Example.storedAlbum); [vm_compute; auto | reflexivity].
Defined.

(** * Further properties *)

(** ** The text handed to the parser *)

Lemma dropUntil_split stop s :
  exists pre, s = pre ++ dropUntil stop s /\ ~ In stop pre.
Proof.
  induction s as [|c s (pre & E & N)]; simpl.
  - exists []. auto.
  - destruct (Ascii.eqb c stop) eqn:H.
    + exists []. auto.
    + exists (c :: pre). split; [simpl; congruence|].
      intros [->|Hin]; [rewrite Ascii.eqb_refl in H; discriminate | auto].
Qed.

Lemma dropUntil_head stop s :
  dropUntil stop s = [] \/ exists t, dropUntil stop s = stop :: t.
Proof.
  induction s as [|c s IH]; simpl; auto.
  destruct (Ascii.eqb c stop) eqn:H; auto.
  apply Ascii.eqb_eq in H. subst. right. eauto.
Qed.

Lemma dropUntil_app stop pre t :
  ~ In stop pre -> dropUntil stop (pre ++ stop :: t) = stop :: t.
Proof.
  induction pre as [|c pre IH]; simpl; intros N.
  - rewrite Ascii.eqb_refl. reflexivity.
  - destruct (Ascii.eqb c stop) eqn:H.
    + apply Ascii.eqb_eq in H. tauto.
    + apply IH. tauto.
Qed.

Lemma fixGeneratedJson_strip s :
  fixGeneratedJson s = string_of_list_ascii (strip (list_ascii_of_string s)).
Proof. reflexivity. Qed.

Lemma strip_braces pre mid post :
  ~ In "{"%char pre -> ~ In "}"%char post ->
  strip (pre ++ "{"%char :: mid ++ "}"%char :: post) = "{"%char :: mid ++ ["}"%char].
Proof.
  intros Hpre Hpost. unfold strip.
  rewrite dropUntil_app by exact Hpre.
  match goal with
  | |- context [dropUntil _ (rev ?x)] =>
      assert (E : rev x = rev post ++ "}"%char :: rev ("{"%char :: mid))
  end.
  { simpl. rewrite rev_app_distr. simpl. rewrite <- !app_assoc. reflexivity. }
  rewrite E, dropUntil_app by (rewrite <- in_rev; exact Hpost).
  simpl. rewrite rev_app_distr. simpl. rewrite rev_involutive. reflexivity.
Qed.

Lemma no_brace_pair pre l :
  ~ In "{"%char pre -> ~ In "}"%char l ->
  forall pre' mid post, pre ++ l <> pre' ++ "{"%char :: mid ++ "}"%char :: post.
Proof.
  intros Hpre Hl pre' mid post E.
  apply app_eq_app in E. destruct E as (x & [(-> & E)|(-> & E)]).
  - destruct x as [|c x]; simpl in E.
    + apply Hl. rewrite <- E. right. apply in_or_app. right. left. reflexivity.
    + injection E as <- _. apply Hpre. apply in_or_app. right. left. reflexivity.
  - apply Hl. rewrite E. apply in_or_app. right. right.
    apply in_or_app. right. left. reflexivity.
Qed.

Lemma strip_shape s :
  (strip s = [] /\ forall pre mid post, s <> pre ++ "{"%char :: mid ++ "}"%char :: post)
  \/ exists pre mid post,
       s = pre ++ "{"%char :: mid ++ "}"%char :: post
       /\ ~ In "{"%char pre /\ ~ In "}"%char post
       /\ strip s = "{"%char :: mid ++ ["}"%char].
Proof.
  unfold strip.
  destruct (dropUntil_split "{"%char s) as (pre & Es & Hpre).
  pose proof (dropUntil_head "{"%char s) as Hl.
  remember (dropUntil "{"%char s) as l eqn:Heql. clear Heql.
  destruct Hl as [->|(t & ->)].
  - left. split; [reflexivity|]. rewrite Es. apply no_brace_pair; [exact Hpre | intros []].
  - destruct (dropUntil_split "}"%char (rev ("{"%char :: t))) as (q & Er & Hq).
    pose proof (dropUntil_head "}"%char (rev ("{"%char :: t))) as Hd.
    remember (dropUntil "}"%char (rev ("{"%char :: t))) as d eqn:Heqd. clear Heqd.
    destruct Hd as [->|(u & ->)].
    + left. split; [reflexivity|].
      rewrite app_nil_r in Er.
      rewrite Es. apply no_brace_pair; [exact Hpre|].
      rewrite in_rev, Er. exact Hq.
    + right.
      assert (El : "{"%char :: t = rev u ++ "}"%char :: rev q).
      { rewrite <- (rev_involutive ("{"%char :: t)), Er, rev_app_distr.
        simpl. rewrite <- app_assoc. reflexivity. }
      destruct (rev u) as [|c mid] eqn:Eru.
      * discriminate El.
      * simpl in El. injection El as <- ->.
        exists pre, mid, (rev q). split; [exact Es | split; [exact Hpre | split]].
        -- rewrite <- in_rev. exact Hq.
        -- simpl. rewrite Eru. reflexivity.
Qed.

(** X1.  [fixGeneratedJson] returns the part of the text from its first
    opening brace to its last closing brace, both included, when the text
    has an opening brace with a closing brace after it, and the empty string
    when it has not.  What it cuts off in front has no opening brace and what
    it cuts off behind has no closing brace. *)
Theorem X1_fixGeneratedJson_keeps_the_braced_part (generatedJson : string) :
  let s := list_ascii_of_string generatedJson in
  (fixGeneratedJson generatedJson = EmptyString
   /\ forall pre mid post, s <> pre ++ "{"%char :: mid ++ "}"%char :: post)
  \/ exists pre mid post,
       s = pre ++ "{"%char :: mid ++ "}"%char :: post
       /\ ~ In "{"%char pre /\ ~ In "}"%char post
       /\ fixGeneratedJson generatedJson
          = string_of_list_ascii ("{"%char :: mid ++ ["}"%char]).
Proof.
  intros s. rewrite fixGeneratedJson_strip. fold s.
  destruct (strip_shape s) as [(E & N)|(pre & mid & post & E & H1 & H2 & E')].
  - left. rewrite E. auto.
  - right. exists pre, mid, post. rewrite E'. auto.
Qed.

(** X2.  Applying [fixGeneratedJson] twice is applying it once, and a text
    that starts with an opening brace and ends with a closing brace is
    returned as it is. *)
Theorem X2_fixGeneratedJson_idempotent (generatedJson : string) :
  fixGeneratedJson (fixGeneratedJson generatedJson) = fixGeneratedJson generatedJson
  /\ forall mid,
       fixGeneratedJson (string_of_list_ascii ("{"%char :: mid ++ ["}"%char]))
       = string_of_list_ascii ("{"%char :: mid ++ ["}"%char]).
Proof.
  assert (Hfix : forall mid, strip ("{"%char :: mid ++ ["}"%char]) = "{"%char :: mid ++ ["}"%char]).
  { intros mid. apply (strip_braces [] mid []); intros []. }
  split.
  - rewrite !fixGeneratedJson_strip, list_ascii_of_string_of_list_ascii.
    destruct (strip_shape (list_ascii_of_string generatedJson))
      as [(E & _)|(pre & mid & post & _ & _ & _ & E)]; rewrite E.
    + reflexivity.
    + rewrite Hfix. reflexivity.
  - intros mid. rewrite fixGeneratedJson_strip, list_ascii_of_string_of_list_ascii, Hfix.
    reflexivity.
Qed.

(** ** The completion pass, field by field *)

Ltac rule_as_setter r :=
  intros; unfold r;
  match goal with o : OpenAiInstagramResult |- _ => destruct o end;
  cbn [isEvent title startHourMilitaryTime endHourMilitaryTime isPastEvent
       hasStartHourInPost startMinute endMinute startDay endDay startMonth endMonth
       startYear endYear];
  repeat match goal with
         | |- context [isNull ?x] => destruct x; cbn [isNull isSome negb toNumber]
         end;
  repeat match goal with
         | |- context [if ?b then _ else _] => destruct b
         end; reflexivity.

Lemma defaultStartYear_sets y o :
  defaultStartYear y o
  = set_startYear (Some (match o.(startYear) with Some v => v | None => y end)) o.
Proof. rule_as_setter defaultStartYear. Qed.

Lemma defaultEndYear_sets o :
  defaultEndYear o
  = set_endYear (match o.(endYear) with Some v => Some v | None => o.(startYear) end) o.
Proof. rule_as_setter defaultEndYear. Qed.

Lemma defaultStartMinute_sets o :
  defaultStartMinute o = set_startMinute (Some (toNumber o.(startMinute))) o.
Proof. rule_as_setter defaultStartMinute. Qed.

Lemma defaultEndMinute_sets o :
  defaultEndMinute o = set_endMinute (Some (toNumber o.(endMinute))) o.
Proof. rule_as_setter defaultEndMinute. Qed.

Lemma yearRollover_sets o :
  yearRollover o
  = set_endYear (if isNumber o.(startMonth) 12 && isNumber o.(endMonth) 1
                 then Some (toNumber o.(startYear) + 1) else o.(endYear)) o.
Proof. rule_as_setter yearRollover. Qed.

Lemma defaultEndMonth_sets o :
  defaultEndMonth o
  = set_endMonth (match o.(endMonth) with Some v => Some v | None => o.(startMonth) end) o.
Proof. rule_as_setter defaultEndMonth. Qed.

Lemma defaultEndDay_sets o :
  defaultEndDay o
  = set_endDay (match o.(endDay) with Some v => Some v | None => o.(startDay) end) o.
Proof. rule_as_setter defaultEndDay. Qed.

Lemma defaultEndHour_sets o :
  let carries :=
    isNull o.(endHourMilitaryTime) && (23 <? toNumber o.(startHourMilitaryTime) + 2) in
  defaultEndHour o
  = set_endDay (if carries then Some (toNumber o.(startDay) + 1) else o.(endDay))
      (set_endHourMilitaryTime
         (match o.(endHourMilitaryTime) with
          | Some h => Some h
          | None => Some (if carries then toNumber o.(startHourMilitaryTime) + 2 - 24
                          else toNumber o.(startHourMilitaryTime) + 2)
          end) o).
Proof.
  destruct o as [ie ti sh eh ip hs smi emi sd ed smo emo sy ey].
  unfold defaultEndHour.
  cbn [isEvent title startHourMilitaryTime endHourMilitaryTime isPastEvent
       hasStartHourInPost startMinute endMinute startDay endDay startMonth endMonth
       startYear endYear].
  destruct eh as [h|]; cbn [isNull isSome negb andb]; [reflexivity|].
  cbn [set_endHourMilitaryTime set_endDay isEvent title startHourMilitaryTime
       endHourMilitaryTime isPastEvent hasStartHourInPost startMinute endMinute startDay
       endDay startMonth endMonth startYear endYear toNumber].
  destruct (23 <? toNumber sh + 2); reflexivity.
Qed.

Lemma postProcessing_completed fullYear o : postProcessing fullYear o = completed fullYear o.
Proof.
  unfold postProcessing.
  rewrite defaultEndHour_sets, defaultEndDay_sets, defaultEndMonth_sets, yearRollover_sets,
    defaultEndMinute_sets, defaultStartMinute_sets, defaultEndYear_sets,
    defaultStartYear_sets.
  destruct o as [ie ti sh eh ip hs smi emi sd ed smo emo sy ey].
  cbv [completed set_startYear set_endYear set_startMinute set_endMinute set_endMonth
       set_endDay set_endHourMilitaryTime
       isEvent title startHourMilitaryTime endHourMilitaryTime isPastEvent
       hasStartHourInPost startMinute endMinute startDay endDay startMonth endMonth
       startYear endYear].
  f_equal;
    destruct sy, ey, emo, ed, eh; cbn [toNumber isNull isSome negb andb];
    repeat match goal with
           | |- context [if ?b then _ else _] => destruct b
           end; reflexivity.
Qed.

(** X3.  Whatever the candidate, the completion pass returns a start year, an
    end year, a start minute, an end minute and an end hour that are not
    null; the end month is null only when both months of the candidate are,
    and the end day only when both days are and the end hour did not carry. *)
Theorem X3_completion_fills_years_minutes_end_hour (fullYear : Z)
    (object : OpenAiInstagramResult) :
  let r := postProcessing fullYear object in
  r.(startYear) <> None /\ r.(endYear) <> None
  /\ r.(startMinute) <> None /\ r.(endMinute) <> None
  /\ r.(endHourMilitaryTime) <> None
  /\ (r.(endMonth) = None <-> object.(startMonth) = None /\ object.(endMonth) = None)
  /\ (r.(endDay) = None <->
      object.(startDay) = None /\ object.(endDay) = None
      /\ ~ (object.(endHourMilitaryTime) = None
            /\ 21 < toNumber object.(startHourMilitaryTime))).
Proof.
  intros r. subst r. rewrite postProcessing_completed.
  destruct object as [ie ti sh eh ip hs smi emi sd ed smo emo sy ey].
  cbn [completed isEvent title startHourMilitaryTime endHourMilitaryTime isPastEvent
       hasStartHourInPost startMinute endMinute startDay endDay startMonth endMonth
       startYear endYear].
  destruct sd, emo, ed, eh; cbn [isNull isSome negb andb toNumber];
    repeat match goal with
           | |- context [if ?b then _ else _] =>
               let E := fresh "E" in
               destruct b eqn:E; try apply Z.ltb_lt in E; try apply Z.ltb_ge in E
           end;
    repeat split; try discriminate; try congruence; try tauto; try lia;
    intuition (try discriminate; try congruence; try lia).
Qed.

(** X4.  The completion pass writes only where the candidate has null, with
    two exceptions.  The flags, the title, and the start hour, day and month
    are returned as they came; a start year, minute, end minute, end month or
    end hour that is not null is returned as it came; an end day that is not
    null is replaced only when the end hour was null and the default carries
    past 23; an end year that is not null is replaced only when the start
    month is 12 and the end month is 1. *)
Theorem X4_completion_keeps_what_is_given (fullYear : Z)
    (object : OpenAiInstagramResult) :
  let r := postProcessing fullYear object in
  r.(isEvent) = object.(isEvent) /\ r.(title) = object.(title)
  /\ r.(isPastEvent) = object.(isPastEvent)
  /\ r.(hasStartHourInPost) = object.(hasStartHourInPost)
  /\ r.(startHourMilitaryTime) = object.(startHourMilitaryTime)
  /\ r.(startDay) = object.(startDay) /\ r.(startMonth) = object.(startMonth)
  /\ (forall v, object.(startYear) = Some v -> r.(startYear) = Some v)
  /\ (forall v, object.(startMinute) = Some v -> r.(startMinute) = Some v)
  /\ (forall v, object.(endMinute) = Some v -> r.(endMinute) = Some v)
  /\ (forall v, object.(endMonth) = Some v -> r.(endMonth) = Some v)
  /\ (forall v, object.(endHourMilitaryTime) = Some v ->
        r.(endHourMilitaryTime) = Some v)
  /\ (forall v, object.(endDay) = Some v ->
        r.(endDay) = Some v
        \/ (object.(endHourMilitaryTime) = None
            /\ 21 < toNumber object.(startHourMilitaryTime)
            /\ r.(endDay) = Some (toNumber object.(startDay) + 1)))
  /\ (forall v, object.(endYear) = Some v ->
        r.(endYear) = Some v
        \/ (object.(startMonth) = Some 12 /\ object.(endMonth) = Some 1
            /\ r.(endYear) = option_map (fun y => y + 1) r.(startYear))).
Proof.
  intros r. subst r. rewrite postProcessing_completed.
  destruct object as [ie ti sh eh ip hs smi emi sd ed smo emo sy ey].
  cbn [completed isEvent title startHourMilitaryTime endHourMilitaryTime isPastEvent
       hasStartHourInPost startMinute endMinute startDay endDay startMonth endMonth
       startYear endYear option_map].
  repeat split; try (intros v ->; reflexivity).
  all: intros v ->;
    destruct eh, smo as [m1|], emo as [m2|]; cbn [isNull isSome negb andb isNumber];
    repeat match goal with
           | |- context [if ?b then _ else _] =>
               let E := fresh "E" in
               destruct b eqn:E; try apply Z.ltb_lt in E;
               try (apply andb_prop in E; destruct E as (E1 & E2);
                    apply Z.eqb_eq in E1, E2; subst)
           end;
    auto; right; repeat split; lia.
Qed.

Lemma Accepted_completed fullYear object :
  Accepted (completed fullYear object)
  <-> object.(isEvent) = Some true
      /\ object.(hasStartHourInPost) = Some true
      /\ object.(isPastEvent) = Some false
      /\ object.(startDay) <> None
      /\ object.(startHourMilitaryTime) <> None.
Proof.
  destruct object as [ie ti sh eh ip hs smi emi sd ed smo emo sy ey].
  unfold Accepted.
  cbn [completed isEvent title startHourMilitaryTime endHourMilitaryTime isPastEvent
       hasStartHourInPost startMinute endMinute startDay endDay startMonth endMonth
       startYear endYear].
  destruct sd, ed, eh; cbn [isNull isSome negb andb];
    repeat match goal with
           | |- context [if ?b then _ else _] => destruct b
           end;
    intuition (try discriminate; try congruence).
Qed.

(** X5.  After the completion pass the gate hangs on five things only: a
    sanitized candidate is accepted exactly when the candidate has isEvent
    true, hasStartHourInPost true, isPastEvent false, a start day and a start
    hour.  Its minutes, its end hour and its end day are never what keeps it
    out. *)
Theorem X5_gate_after_completion (fullYear : Z) (object : OpenAiInstagramResult) :
  acceptanceGate (postProcessing fullYear object) = true
  <-> object.(isEvent) = Some true
      /\ object.(hasStartHourInPost) = Some true
      /\ object.(isPastEvent) = Some false
      /\ object.(startDay) <> None
      /\ object.(startHourMilitaryTime) <> None.
Proof.
  rewrite acceptanceGate_Accepted, postProcessing_completed.
  apply Accepted_completed.
Qed.

(** X6.  When the candidate names no end hour, the end hour returned is the
    start hour plus two, less 24 when that is past 23, and the end day is
    then the start day plus one.  For a start hour from 0 to 23 the end hour
    is again from 0 to 23, and the end day is moved exactly for the start
    hours 22 and 23.  A null start hour counts as 0: the end hour is 2. *)
Theorem X6_default_end_hour (fullYear : Z) (object : OpenAiInstagramResult) :
  object.(endHourMilitaryTime) = None ->
  let r := postProcessing fullYear object in
  let h := toNumber object.(startHourMilitaryTime) in
  r.(endHourMilitaryTime) = Some (if 21 <? h then h - 22 else h + 2)
  /\ (21 < h -> r.(endDay) = Some (toNumber object.(startDay) + 1))
  /\ (h <= 21 ->
      r.(endDay) = match object.(endDay) with
                   | Some d => Some d
                   | None => object.(startDay)
                   end)
  /\ (0 <= h <= 23 ->
      exists e, r.(endHourMilitaryTime) = Some e /\ 0 <= e <= 23 /\ e = (h + 2) mod 24)
  /\ (object.(startHourMilitaryTime) = None -> r.(endHourMilitaryTime) = Some 2).
Proof.
  intros He r h. subst r h. rewrite postProcessing_completed.
  destruct object as [ie ti sh eh ip hs smi emi sd ed smo emo sy ey].
  cbn [isEvent title startHourMilitaryTime endHourMilitaryTime isPastEvent
       hasStartHourInPost startMinute endMinute startDay endDay startMonth endMonth
       startYear endYear] in He.
  subst eh.
  cbn [completed isEvent title startHourMilitaryTime endHourMilitaryTime isPastEvent
       hasStartHourInPost startMinute endMinute startDay endDay startMonth endMonth
       startYear endYear isNull isSome negb andb].
  destruct (23 <? toNumber sh + 2) eqn:E1; destruct (21 <? toNumber sh) eqn:E2;
    try apply Z.ltb_lt in E1; try apply Z.ltb_ge in E1;
    try apply Z.ltb_lt in E2; try apply Z.ltb_ge in E2; try lia;
    repeat split; intros;
    try match goal with H : sh = None |- _ => subst sh; cbn [toNumber] in * end;
    try lia; try reflexivity; try (f_equal; lia);
    try (eexists; split; [reflexivity|]; split; [lia|];
         Z.to_euclidean_division_equations; lia).
Qed.

(** X7.  Running the completion pass on its own result changes nothing. *)
Theorem X7_completion_idempotent (fullYear : Z) (object : OpenAiInstagramResult) :
  postProcessing fullYear (postProcessing fullYear object)
  = postProcessing fullYear object.
Proof.
  rewrite !postProcessing_completed.
  destruct object as [ie ti sh eh ip hs smi emi sd ed smo emo sy ey].
  cbv [completed isEvent title startHourMilitaryTime endHourMilitaryTime isPastEvent
       hasStartHourInPost startMinute endMinute startDay endDay startMonth endMonth
       startYear endYear].
  f_equal;
    destruct sy, ey, smo as [m1|], emo as [m2|], sd, ed, eh, smi, emi;
    cbn [toNumber isNull isSome negb andb isNumber];
    repeat match goal with
           | |- context [Z.eqb ?a ?b] => destruct (Z.eqb_spec a b); cbn [andb]
           end;
    repeat match goal with
           | |- context [if ?b then _ else _] => destruct b eqn:?
           end; try reflexivity; try congruence; try lia.
Qed.

(** ** An event with no end named *)

Lemma validDate_fields y m d h mi :
  validDate {| Luxon.year := y; Luxon.month := m; Luxon.day := d; Luxon.hour := h;
               Luxon.minute := mi; Luxon.second := 0; Luxon.millisecond := 0 |}
  <-> (1 <= m <= 12 /\ 1 <= d <= Luxon.daysInMonth y m)
      /\ (0 <= h <= 23 \/ (h = 24 /\ mi = 0)) /\ 0 <= mi <= 59.
Proof.
  unfold validDate, Luxon.validGregorian, Luxon.validTime.
  cbn [Luxon.year Luxon.month Luxon.day Luxon.hour Luxon.minute Luxon.second
       Luxon.millisecond].
  rewrite !andb_true_iff, !orb_true_iff, !andb_true_iff, !Z.leb_le, !Z.eqb_eq.
  intuition lia.
Qed.

(** X8.  A candidate that names no end (end hour, day, month and year all
    null) and is accepted is stored with a start and an end that are dates,
    and the start is before the end.  The start must be a valid date inside
    the range of JS dates, three days off its ends, and the end minute a
    minute. *)
Theorem X8_default_end_is_after_start (w : World) (object : OpenAiInstagramResult)
    (post : InstagramPost.t) (organizer : InstagramEventOrganizer.t) (st : State) :
  let r := postProcessing w.(fullYear) object in
  object.(endHourMilitaryTime) = None ->
  object.(endDay) = None ->
  object.(endMonth) = None ->
  object.(endYear) = None ->
  Accepted r ->
  validDate (startFields w r) ->
  0 <= toNumber object.(endMinute) <= 59 ->
  Z.abs (startWallClock w r) <= Luxon.maxTime - 3 * Luxon.msPerDay ->
  exists ev st' s e,
    persistEvent w r post organizer st = (Ok None, st')
    /\ st'.(events) = st.(events) ++ [ev]
    /\ ev.(InstagramEvent.start) = Some s
    /\ ev.(InstagramEvent.end_) = Some e
    /\ s < e.
Proof.
  intros r Heh Hed Hem Hey Hacc Hvs Hmin Hrange.
  assert (Hgate : acceptanceGate r = true) by (apply acceptanceGate_Accepted; exact Hacc).
  destruct (persistEvent_accepted w r post organizer st Hgate)
    as (ev & (_ & Hs & He & _) & E).
  subst r. rewrite postProcessing_completed in *.
  destruct object as [ie ti sh eh ip hs smi emi sd ed smo emo sy ey].
  cbn [isEvent title startHourMilitaryTime endHourMilitaryTime isPastEvent
       hasStartHourInPost startMinute endMinute startDay endDay startMonth endMonth
       startYear endYear] in Heh, Hed, Hem, Hey, Hmin.
  subst eh ed emo ey.
  destruct Hacc as (_ & _ & _ & Hsd & _ & Hsh & _).
  cbn [completed isEvent title startHourMilitaryTime endHourMilitaryTime isPastEvent
       hasStartHourInPost startMinute endMinute startDay endDay startMonth endMonth
       startYear endYear] in Hsd, Hsh.
  destruct sd as [d|]; [|congruence]. destruct sh as [h|]; [|congruence].
  set (c := completed (fullYear w)
              {| isEvent := ie; title := ti; startHourMilitaryTime := Some h;
                 endHourMilitaryTime := None; isPastEvent := ip;
                 hasStartHourInPost := hs; startMinute := smi; endMinute := emi;
                 startDay := Some d; endDay := None; startMonth := smo;
                 endMonth := None; startYear := sy; endYear := None |}) in *.
  set (Y := match sy with Some y => y | None => fullYear w end).
  set (M := match smo with Some m => m | None => 1 end).
  set (eh := if 23 <? h + 2 then h + 2 - 24 else h + 2).
  set (delta := if 23 <? h + 2 then 1 else 0).
  assert (Fs : startFields w c
               = {| Luxon.year := Y; Luxon.month := M; Luxon.day := d; Luxon.hour := h;
                    Luxon.minute := toNumber smi; Luxon.second := 0;
                    Luxon.millisecond := 0 |}).
  { subst c Y M. unfold startFields, Luxon.normalized.
    cbn [completed isEvent title startHourMilitaryTime endHourMilitaryTime isPastEvent
         hasStartHourInPost startMinute endMinute startDay endDay startMonth endMonth
         startYear endYear toNumber].
    destruct smo; reflexivity. }
  assert (Fe : endFields w c
               = {| Luxon.year := Y; Luxon.month := M; Luxon.day := d; Luxon.hour := eh;
                    Luxon.minute := toNumber emi; Luxon.second := 0;
                    Luxon.millisecond := 0 |}).
  { subst c Y M eh. unfold endFields, Luxon.normalized.
    cbn [completed isEvent title startHourMilitaryTime endHourMilitaryTime isPastEvent
         hasStartHourInPost startMinute endMinute startDay endDay startMonth endMonth
         startYear endYear toNumber isNull isSome negb andb isNumber].
    rewrite andb_false_r.
    destruct smo; destruct (23 <? h + 2); reflexivity. }
  assert (Fd : toNumber (endDay c) - toNumber (startDay c) = delta).
  { subst c delta.
    cbn [completed isEvent title startHourMilitaryTime endHourMilitaryTime isPastEvent
         hasStartHourInPost startMinute endMinute startDay endDay startMonth endMonth
         startYear endYear toNumber isNull isSome negb andb].
    destruct (23 <? h + 2); cbn [toNumber]; lia. }
  rewrite Fs in Hvs. apply validDate_fields in Hvs.
  destruct Hvs as (Hdate & Hhour & Hsmin).
  assert (Hve : validDate (endFields w c)).
  { rewrite Fe. apply validDate_fields. split; [exact Hdate|]. split; [|exact Hmin].
    left. subst eh. destruct (23 <? h + 2) eqn:E1;
      [apply Z.ltb_lt in E1 | apply Z.ltb_ge in E1]; lia. }
  assert (Ws : startWallClock w c
               = Luxon.daysFromCivil Y M d * Luxon.msPerDay + h * Luxon.msPerHour
                 + toNumber smi * Luxon.msPerMinute).
  { unfold startWallClock. rewrite Fs. unfold Luxon.objToLocalTS.
    cbn [Luxon.year Luxon.month Luxon.day Luxon.hour Luxon.minute Luxon.second
         Luxon.millisecond]. lia. }
  assert (We0 : Luxon.objToLocalTS (endFields w c)
                = Luxon.daysFromCivil Y M d * Luxon.msPerDay + eh * Luxon.msPerHour
                  + toNumber emi * Luxon.msPerMinute).
  { rewrite Fe. unfold Luxon.objToLocalTS.
    cbn [Luxon.year Luxon.month Luxon.day Luxon.hour Luxon.minute Luxon.second
         Luxon.millisecond]. lia. }
  assert (We : endWallClock w c
               = Luxon.objToLocalTS (endFields w c) + delta * Luxon.msPerDay).
  { unfold endWallClock. rewrite Fd. reflexivity. }
  assert (Hdiff : endWallClock w c - startWallClock w c
                  = 2 * Luxon.msPerHour
                    + (toNumber emi - toNumber smi) * Luxon.msPerMinute).
  { rewrite We, We0, Ws. subst eh delta.
    unfold Luxon.msPerDay, Luxon.msPerHour, Luxon.msPerMinute.
    destruct (23 <? h + 2); lia. }
  assert (Hoff : - 23 * Luxon.msPerHour <= Luxon.objToLocalTS (endFields w c)
                   - startWallClock w c <= 3 * Luxon.msPerHour).
  { rewrite We0, Ws. subst eh.
    unfold Luxon.msPerDay, Luxon.msPerHour, Luxon.msPerMinute.
    destruct (23 <? h + 2) eqn:E1;
      [apply Z.ltb_lt in E1 | apply Z.ltb_ge in E1]; lia. }
  unfold Luxon.maxTime, Luxon.msPerDay, Luxon.msPerHour, Luxon.msPerMinute in *.
  destruct (eventStart_valid w c) as (s & Es & Hsb).
  { rewrite Fs. apply validDate_fields. auto. }
  { unfold inRange, Luxon.maxTime, Luxon.msPerDay. lia. }
  destruct (eventEnd_valid w c Hve) as (e & Ee & Heb).
  { unfold inRange, Luxon.maxTime, Luxon.msPerDay. lia. }
  { unfold inRange, Luxon.maxTime, Luxon.msPerDay. lia. }
  unfold Luxon.msPerMinute in *.
  eexists ev, _, s, e. split; [exact E|]. simpl.
  repeat split; try congruence. lia.
Qed.


(** ** How [findPosts] and [findEvents] group the rows *)

Lemma countFrom_bounds n : forall i k, In k (countFrom i n) -> i <= k < i + Z.of_nat n.
Proof.
  induction n as [|n IH]; intros i k H.
  - destruct H.
  - destruct H as [<- | H]; [lia|]. apply IH in H. lia.
Qed.

Lemma countFrom_sorted n : forall i, StronglySorted Z.lt (countFrom i n).
Proof.
  induction n as [|n IH]; intro i; simpl; constructor.
  - apply IH.
  - apply Forall_forall. intros k H. apply countFrom_bounds in H. lia.
Qed.

Lemma countFrom_snoc n : forall i, countFrom i (S n) = countFrom i n ++ [i + Z.of_nat n].
Proof.
  induction n as [|n IH]; intro i.
  - simpl. f_equal. lia.
  - change (countFrom i (S (S n))) with (i :: countFrom (i + 1) (S n)).
    rewrite IH. simpl. do 3 f_equal. lia.
Qed.

Lemma counted_snoc {A} (id : A -> Z) (l : list A) (x : A) :
  map id l = countFrom 1 (List.length l) ->
  id x = Z.of_nat (List.length l) + 1 ->
  map id (l ++ [x]) = countFrom 1 (List.length (l ++ [x])).
Proof.
  intros Hl Hx. rewrite map_app, length_app. simpl.
  replace (List.length l + 1)%nat with (S (List.length l)) by lia.
  rewrite countFrom_snoc, Hl, Hx. do 2 f_equal. lia.
Qed.

Lemma counted_NoDup {A} (id : A -> Z) (l : list A) :
  map id l = countFrom 1 (List.length l) -> NoDup (map id l).
Proof.
  intros ->. generalize 1. induction (List.length l) as [|n IH]; intro i; simpl.
  - constructor.
  - constructor; [|apply IH]. intro H. apply countFrom_bounds in H. lia.
Qed.

Lemma sorted_NoDup (l : list Z) : StronglySorted Z.lt l -> NoDup l.
Proof.
  induction 1 as [|a l _ IH Ha]; constructor; [|exact IH].
  intro H. rewrite Forall_forall in Ha. apply Ha in H. lia.
Qed.

Lemma posts_set_above k v (m : FoundPosts.t) :
  Forall (fun k' => k' < k) (map fst m) -> FoundPosts.set k v m = m ++ [(k, v)].
Proof.
  induction m as [|[k' v'] m IH]; intro H; [reflexivity|].
  inversion H as [|? ? Hk Hm]; subst. simpl in Hk |- *.
  destruct (k <? k') eqn:E1; [apply Z.ltb_lt in E1; lia|].
  destruct (k =? k') eqn:E2; [apply Z.eqb_eq in E2; lia|].
  rewrite IH by exact Hm. reflexivity.
Qed.

Lemma sorted_below (ks : list Z) k rest :
  StronglySorted Z.lt (ks ++ k :: rest) -> Forall (fun k' => k' < k) ks.
Proof.
  induction ks as [|a ks IH]; intro H; [constructor|].
  simpl in H. inversion H as [|? ? Hs Hf]; subst.
  constructor; [|apply IH; exact Hs].
  rewrite Forall_forall in Hf. apply Hf. apply in_or_app. right. left. reflexivity.
Qed.

Lemma posts_keyed os (acc : FoundPosts.t) :
  StronglySorted Z.lt (map fst acc ++ map InstagramEventOrganizer.id os) ->
  fold_left
    (fun acc organization =>
       FoundPosts.set organization.(InstagramEventOrganizer.id)
         {| FoundPosts.organization := organization; FoundPosts.posts := [] |} acc)
    os acc
  = acc ++ groupedPosts os (fun _ => []).
Proof.
  revert acc. induction os as [|o os IH]; intros acc H; simpl.
  - rewrite app_nil_r. reflexivity.
  - rewrite posts_set_above by (eapply sorted_below; exact H).
    rewrite IH.
    + rewrite <- app_assoc. reflexivity.
    + rewrite map_app. simpl. rewrite <- app_assoc. exact H.
Qed.

Lemma posts_push os g (post : InstagramPost.t) k :
  NoDup (map InstagramEventOrganizer.id os) ->
  In k (map InstagramEventOrganizer.id os) ->
  FoundPosts.push k post (groupedPosts os g)
  = Some (groupedPosts os (fun k' => if k' =? k then g k' ++ [post] else g k')).
Proof.
  induction os as [|o os IH]; intros Hn Hin; [destruct Hin|].
  inversion Hn as [|? ? Hno Hn']; subst. simpl.
  destruct (k =? InstagramEventOrganizer.id o) eqn:E.
  - apply Z.eqb_eq in E. subst k. rewrite Z.eqb_refl. do 2 f_equal.
    apply map_ext_in. intros o' Ho'.
    destruct (InstagramEventOrganizer.id o' =? InstagramEventOrganizer.id o) eqn:E';
      [|reflexivity].
    apply Z.eqb_eq in E'. exfalso. apply Hno. rewrite <- E'. apply in_map. exact Ho'.
  - destruct Hin as [Hin | Hin]; [apply Z.eqb_neq in E; congruence|].
    fold (groupedPosts os g). rewrite (IH Hn' Hin). rewrite Z.eqb_sym, E. reflexivity.
Qed.

Lemma posts_push_missing k (post : InstagramPost.t) (m : FoundPosts.t) :
  ~ In k (map fst m) -> FoundPosts.push k post m = None.
Proof.
  induction m as [|[k' v'] m IH]; intro H; [reflexivity|]. simpl in H |- *.
  destruct (k =? k') eqn:E; [apply Z.eqb_eq in E; subst; tauto|].
  rewrite IH by tauto. reflexivity.
Qed.

Lemma groupedPosts_keys os g :
  map fst (groupedPosts os g) = map InstagramEventOrganizer.id os.
Proof. unfold groupedPosts. rewrite map_map. reflexivity. Qed.

Lemma organizer_listed os k :
  existsb (fun o => o.(InstagramEventOrganizer.id) =? k) os = true
  <-> In k (map InstagramEventOrganizer.id os).
Proof.
  rewrite existsb_exists, in_map_iff. split; intros (o & H1 & H2).
  - apply Z.eqb_eq in H2. eauto.
  - exists o. split; [exact H2 | apply Z.eqb_eq; exact H1].
Qed.

Lemma posts_pushAll os found : forall g,
  NoDup (map InstagramEventOrganizer.id os) ->
  pushPosts found (groupedPosts os g)
  = if forallb (fun post => existsb (fun o => o.(InstagramEventOrganizer.id)
                                              =? post.(InstagramPost.organizerId)) os)
         found
    then Some (groupedPosts os (fun k =>
                 g k ++ filter (fun post => post.(InstagramPost.organizerId) =? k) found))
    else None.
Proof.
  induction found as [|post found IH]; intros g Hn.
  - simpl. f_equal. apply map_ext. intro o. rewrite app_nil_r. reflexivity.
  - cbn [pushPosts forallb].
    destruct (existsb _ os) eqn:E.
    + apply organizer_listed in E.
      rewrite (posts_push os g post _ Hn E), IH by exact Hn. cbn [andb].
      destruct (forallb _ found); [|reflexivity]. f_equal.
      apply map_ext. intro o. do 2 f_equal. cbn [filter].
      rewrite (Z.eqb_sym (InstagramPost.organizerId post)).
      destruct (InstagramEventOrganizer.id o =? InstagramPost.organizerId post);
        [rewrite <- app_assoc|]; reflexivity.
    + rewrite posts_push_missing; [reflexivity|].
      rewrite groupedPosts_keys. intro Hin. apply organizer_listed in Hin. congruence.
Qed.

Lemma findPosts_grouped eventsWhere st :
  StronglySorted Z.lt (map InstagramEventOrganizer.id st.(organizers)) ->
  findPosts eventsWhere st
  = (if forallb (fun post => hasOrganizer st post.(InstagramPost.organizerId))
          (filter eventsWhere st.(posts))
     then Ok (groupedPosts st.(organizers)
                (fun k => filter (fun post => post.(InstagramPost.organizerId) =? k)
                            (filter eventsWhere st.(posts))))
     else Threw TypeError, st).
Proof.
  intro Hs. unfold findPosts. cbv zeta.
  rewrite posts_keyed by exact Hs. cbn [app].
  rewrite posts_pushAll by (apply sorted_NoDup; exact Hs).
  unfold hasOrganizer. destruct (forallb _ _); reflexivity.
Qed.

Lemma posts_set_keys k k' v (m : FoundPosts.t) :
  In k (map fst (FoundPosts.set k' v m)) <-> k = k' \/ In k (map fst m).
Proof.
  induction m as [|[k0 v0] m IH]; simpl.
  - intuition congruence.
  - destruct (k' <? k0); [simpl; intuition congruence|].
    destruct (k' =? k0) eqn:E; simpl.
    + apply Z.eqb_eq in E. subst. intuition congruence.
    + rewrite IH. intuition congruence.
Qed.

Lemma posts_fold_keys os k : forall acc : FoundPosts.t,
  In k (map fst
          (fold_left
             (fun acc organization =>
                FoundPosts.set organization.(InstagramEventOrganizer.id)
                  {| FoundPosts.organization := organization; FoundPosts.posts := [] |} acc)
             os acc))
  <-> In k (map fst acc) \/ In k (map InstagramEventOrganizer.id os).
Proof.
  induction os as [|o os IH]; intro acc; simpl.
  - tauto.
  - rewrite IH, posts_set_keys. intuition congruence.
Qed.

Lemma posts_push_keys k (post : InstagramPost.t) (m : FoundPosts.t) :
  match FoundPosts.push k post m with
  | Some m' => In k (map fst m) /\ map fst m' = map fst m
  | None => ~ In k (map fst m)
  end.
Proof.
  induction m as [|[k' v'] m IH]; simpl; [tauto|].
  destruct (k =? k') eqn:E.
  - apply Z.eqb_eq in E. subst. simpl. tauto.
  - apply Z.eqb_neq in E. destruct (FoundPosts.push k post m); simpl.
    + destruct IH as [H1 H2]. rewrite H2. tauto.
    + intuition congruence.
Qed.

Lemma pushPosts_fails found : forall m : FoundPosts.t,
  pushPosts found m = None
  <-> exists post, In post found /\ ~ In post.(InstagramPost.organizerId) (map fst m).
Proof.
  induction found as [|post found IH]; intro m; simpl.
  - split; [discriminate | intros (? & [] & _)].
  - pose proof (posts_push_keys post.(InstagramPost.organizerId) post m) as Hp.
    destruct (FoundPosts.push _ post m) as [m'|].
    + destruct Hp as [Hin Hk]. rewrite IH, Hk. split.
      * intros (q & Hq & Hn). eauto.
      * intros (q & [<- | Hq] & Hn); [tauto | eauto].
    + split; [eauto | reflexivity].
Qed.

Lemma findPosts_state eventsWhere st : snd (findPosts eventsWhere st) = st.
Proof. unfold findPosts. cbv zeta. destruct (pushPosts _ _); reflexivity. Qed.

(** X9.  [findPosts] throws a TypeError exactly when a post it selects
    refers to an organizer id that no organizer has, whatever the ids are;
    otherwise it returns.  It leaves the state as it is. *)
Theorem X9_findPosts_fails_on_an_orphan (eventsWhere : InstagramPost.t -> bool)
    (st : State) :
  snd (findPosts eventsWhere st) = st
  /\ (fst (findPosts eventsWhere st) = Threw TypeError
      <-> exists post,
            In post st.(posts) /\ eventsWhere post = true
            /\ forall o, In o st.(organizers) ->
                 o.(InstagramEventOrganizer.id) <> post.(InstagramPost.organizerId))
  /\ ((exists found, fst (findPosts eventsWhere st) = Ok found)
      <-> forall post,
            In post st.(posts) -> eventsWhere post = true ->
            hasOrganizer st post.(InstagramPost.organizerId) = true).
Proof.
  unfold findPosts. cbv zeta.
  destruct (pushPosts _ _) as [found|] eqn:E; cbn [fst snd].
  - split; [reflexivity|].
    assert (Hall : forall post, In post st.(posts) -> eventsWhere post = true ->
                     hasOrganizer st post.(InstagramPost.organizerId) = true).
    { intros post Hin Hw. unfold hasOrganizer.
      destruct (existsb _ _) eqn:Ex; [reflexivity|]. exfalso.
      assert (Hnone : pushPosts (filter eventsWhere st.(posts))
                (fold_left
                   (fun acc organization =>
                      FoundPosts.set organization.(InstagramEventOrganizer.id)
                        {| FoundPosts.organization := organization;
                           FoundPosts.posts := [] |} acc)
                   st.(organizers) []) = None); [|congruence].
      apply pushPosts_fails. exists post. split; [apply filter_In; tauto|].
      rewrite posts_fold_keys. intros [[] | Hk].
      apply organizer_listed in Hk. congruence. }
    split; split.
    + discriminate.
    + intros (post & Hin & Hw & Hno). specialize (Hall post Hin Hw).
      apply organizer_listed, in_map_iff in Hall. destruct Hall as (o & Eo & Ho).
      exfalso. exact (Hno o Ho Eo).
    + intros _. exact Hall.
    + intros _. eauto.
  - split; [reflexivity|].
    apply pushPosts_fails in E. destruct E as (post & Hin & Hk).
    apply filter_In in Hin. destruct Hin as [Hin Hw].
    rewrite posts_fold_keys in Hk.
    assert (Hno : forall o, In o st.(organizers) ->
                    o.(InstagramEventOrganizer.id) <> post.(InstagramPost.organizerId)).
    { intros o Ho Eo. apply Hk. right. rewrite <- Eo. apply in_map. exact Ho. }
    split; split.
    + intros _. eauto.
    + reflexivity.
    + intros (? & ?). discriminate.
    + intro Hall. specialize (Hall post Hin Hw).
      apply organizer_listed, in_map_iff in Hall. destruct Hall as (o & Eo & Ho).
      exfalso. exact (Hno o Ho Eo).
Qed.

(** X10.  When the organizers are listed by ascending id and the ids are
    positive, as the store numbers them, [findPosts] returns one entry per
    organizer, in that order, under the organizer's id, and the entry holds
    the posts selected that refer to the organizer, in the order of the
    table. *)
Theorem X10_findPosts_groups_by_organizer (eventsWhere : InstagramPost.t -> bool)
    (st : State) (found : FoundPosts.t) :
  StronglySorted Z.lt (0 :: map InstagramEventOrganizer.id st.(organizers)) ->
  fst (findPosts eventsWhere st) = Ok found ->
  map fst found = map InstagramEventOrganizer.id st.(organizers)
  /\ map FoundPosts.organization (FoundPosts.values found) = st.(organizers)
  /\ map FoundPosts.posts (FoundPosts.values found)
     = map (fun o =>
              filter (fun post => post.(InstagramPost.organizerId)
                                  =? o.(InstagramEventOrganizer.id))
                (filter eventsWhere st.(posts)))
         st.(organizers).
Proof.
  intros Hs. apply StronglySorted_inv in Hs. destruct Hs as [Hs _].
  rewrite findPosts_grouped by exact Hs. cbn [fst].
  destruct (forallb _ _); [|discriminate]. intro E. inversion E; subst found.
  unfold FoundPosts.values, groupedPosts. rewrite !map_map. cbn [fst snd
    FoundPosts.organization FoundPosts.posts].
  rewrite map_id. repeat split; reflexivity.
Qed.

Lemma events_set_above k v (m : FoundEvents.t) :
  Forall (fun k' => k' < k) (map fst m) -> FoundEvents.set k v m = m ++ [(k, v)].
Proof.
  induction m as [|[k' v'] m IH]; intro H; [reflexivity|].
  inversion H as [|? ? Hk Hm]; subst. simpl in Hk |- *.
  destruct (k <? k') eqn:E1; [apply Z.ltb_lt in E1; lia|].
  destruct (k =? k') eqn:E2; [apply Z.eqb_eq in E2; lia|].
  rewrite IH by exact Hm. reflexivity.
Qed.

Lemma events_keyed os (acc : FoundEvents.t) :
  StronglySorted Z.lt (map fst acc ++ map InstagramEventOrganizer.id os) ->
  fold_left
    (fun acc organization =>
       FoundEvents.set organization.(InstagramEventOrganizer.id)
         {| FoundEvents.organization := organization; FoundEvents.events := [] |} acc)
    os acc
  = acc ++ groupedEvents os (fun _ => []).
Proof.
  revert acc. induction os as [|o os IH]; intros acc H; simpl.
  - rewrite app_nil_r. reflexivity.
  - rewrite events_set_above by (eapply sorted_below; exact H).
    rewrite IH.
    + rewrite <- app_assoc. reflexivity.
    + rewrite map_app. simpl. rewrite <- app_assoc. exact H.
Qed.

Lemma events_push os g (event : InstagramEvent.t) k :
  NoDup (map InstagramEventOrganizer.id os) ->
  In k (map InstagramEventOrganizer.id os) ->
  FoundEvents.push k event (groupedEvents os g)
  = Some (groupedEvents os (fun k' => if k' =? k then g k' ++ [event] else g k')).
Proof.
  induction os as [|o os IH]; intros Hn Hin; [destruct Hin|].
  inversion Hn as [|? ? Hno Hn']; subst. simpl.
  destruct (k =? InstagramEventOrganizer.id o) eqn:E.
  - apply Z.eqb_eq in E. subst k. rewrite Z.eqb_refl. do 2 f_equal.
    apply map_ext_in. intros o' Ho'.
    destruct (InstagramEventOrganizer.id o' =? InstagramEventOrganizer.id o) eqn:E';
      [|reflexivity].
    apply Z.eqb_eq in E'. exfalso. apply Hno. rewrite <- E'. apply in_map. exact Ho'.
  - destruct Hin as [Hin | Hin]; [apply Z.eqb_neq in E; congruence|].
    fold (groupedEvents os g). rewrite (IH Hn' Hin). rewrite Z.eqb_sym, E. reflexivity.
Qed.

Lemma events_push_missing k (event : InstagramEvent.t) (m : FoundEvents.t) :
  ~ In k (map fst m) -> FoundEvents.push k event m = None.
Proof.
  induction m as [|[k' v'] m IH]; intro H; [reflexivity|]. simpl in H |- *.
  destruct (k =? k') eqn:E; [apply Z.eqb_eq in E; subst; tauto|].
  rewrite IH by tauto. reflexivity.
Qed.

Lemma groupedEvents_keys os g :
  map fst (groupedEvents os g) = map InstagramEventOrganizer.id os.
Proof. unfold groupedEvents. rewrite map_map. reflexivity. Qed.

Lemma events_pushAll os found : forall g,
  NoDup (map InstagramEventOrganizer.id os) ->
  pushEvents found (groupedEvents os g)
  = if forallb (fun event => existsb (fun o => o.(InstagramEventOrganizer.id)
                                              =? event.(InstagramEvent.organizerId)) os)
         found
    then Some (groupedEvents os (fun k =>
                 g k ++ filter (fun event => event.(InstagramEvent.organizerId) =? k) found))
    else None.
Proof.
  induction found as [|event found IH]; intros g Hn.
  - simpl. f_equal. apply map_ext. intro o. rewrite app_nil_r. reflexivity.
  - cbn [pushEvents forallb].
    destruct (existsb _ os) eqn:E.
    + apply organizer_listed in E.
      rewrite (events_push os g event _ Hn E), IH by exact Hn. cbn [andb].
      destruct (forallb _ found); [|reflexivity]. f_equal.
      apply map_ext. intro o. do 2 f_equal. cbn [filter].
      rewrite (Z.eqb_sym (InstagramEvent.organizerId event)).
      destruct (InstagramEventOrganizer.id o =? InstagramEvent.organizerId event);
        [rewrite <- app_assoc|]; reflexivity.
    + rewrite events_push_missing; [reflexivity|].
      rewrite groupedEvents_keys. intro Hin. apply organizer_listed in Hin. congruence.
Qed.

Lemma findEvents_grouped eventsWhere st :
  StronglySorted Z.lt (map InstagramEventOrganizer.id st.(organizers)) ->
  findEvents eventsWhere st
  = (if forallb (fun event => hasOrganizer st event.(InstagramEvent.organizerId))
          (filter eventsWhere st.(events))
     then Ok (groupedEvents st.(organizers)
                (fun k => filter (fun event => event.(InstagramEvent.organizerId) =? k)
                            (filter eventsWhere st.(events))))
     else Threw TypeError, st).
Proof.
  intro Hs. unfold findEvents. cbv zeta.
  rewrite events_keyed by exact Hs. cbn [app].
  rewrite events_pushAll by (apply sorted_NoDup; exact Hs).
  unfold hasOrganizer. destruct (forallb _ _); reflexivity.
Qed.

Lemma events_set_keys k k' v (m : FoundEvents.t) :
  In k (map fst (FoundEvents.set k' v m)) <-> k = k' \/ In k (map fst m).
Proof.
  induction m as [|[k0 v0] m IH]; simpl.
  - intuition congruence.
  - destruct (k' <? k0); [simpl; intuition congruence|].
    destruct (k' =? k0) eqn:E; simpl.
    + apply Z.eqb_eq in E. subst. intuition congruence.
    + rewrite IH. intuition congruence.
Qed.

Lemma events_fold_keys os k : forall acc : FoundEvents.t,
  In k (map fst
          (fold_left
             (fun acc organization =>
                FoundEvents.set organization.(InstagramEventOrganizer.id)
                  {| FoundEvents.organization := organization; FoundEvents.events := [] |} acc)
             os acc))
  <-> In k (map fst acc) \/ In k (map InstagramEventOrganizer.id os).
Proof.
  induction os as [|o os IH]; intro acc; simpl.
  - tauto.
  - rewrite IH, events_set_keys. intuition congruence.
Qed.

Lemma events_push_keys k (event : InstagramEvent.t) (m : FoundEvents.t) :
  match FoundEvents.push k event m with
  | Some m' => In k (map fst m) /\ map fst m' = map fst m
  | None => ~ In k (map fst m)
  end.
Proof.
  induction m as [|[k' v'] m IH]; simpl; [tauto|].
  destruct (k =? k') eqn:E.
  - apply Z.eqb_eq in E. subst. simpl. tauto.
  - apply Z.eqb_neq in E. destruct (FoundEvents.push k event m); simpl.
    + destruct IH as [H1 H2]. rewrite H2. tauto.
    + intuition congruence.
Qed.

Lemma pushEvents_fails found : forall m : FoundEvents.t,
  pushEvents found m = None
  <-> exists event, In event found /\ ~ In event.(InstagramEvent.organizerId) (map fst m).
Proof.
  induction found as [|event found IH]; intro m; simpl.
  - split; [discriminate | intros (? & [] & _)].
  - pose proof (events_push_keys event.(InstagramEvent.organizerId) event m) as Hp.
    destruct (FoundEvents.push _ event m) as [m'|].
    + destruct Hp as [Hin Hk]. rewrite IH, Hk. split.
      * intros (q & Hq & Hn). eauto.
      * intros (q & [<- | Hq] & Hn); [tauto | eauto].
    + split; [eauto | reflexivity].
Qed.

Lemma findEvents_state eventsWhere st : snd (findEvents eventsWhere st) = st.
Proof. unfold findEvents. cbv zeta. destruct (pushEvents _ _); reflexivity. Qed.

(** X11.  [findEvents] throws a TypeError exactly when an event it selects
    refers to an organizer id that no organizer has, whatever the ids are;
    otherwise it returns.  It leaves the state as it is. *)
Theorem X11_findEvents_fails_on_an_orphan (eventsWhere : InstagramEvent.t -> bool)
    (st : State) :
  snd (findEvents eventsWhere st) = st
  /\ (fst (findEvents eventsWhere st) = Threw TypeError
      <-> exists event,
            In event st.(events) /\ eventsWhere event = true
            /\ forall o, In o st.(organizers) ->
                 o.(InstagramEventOrganizer.id) <> event.(InstagramEvent.organizerId))
  /\ ((exists found, fst (findEvents eventsWhere st) = Ok found)
      <-> forall event,
            In event st.(events) -> eventsWhere event = true ->
            hasOrganizer st event.(InstagramEvent.organizerId) = true).
Proof.
  unfold findEvents. cbv zeta.
  destruct (pushEvents _ _) as [found|] eqn:E; cbn [fst snd].
  - split; [reflexivity|].
    assert (Hall : forall event, In event st.(events) -> eventsWhere event = true ->
                     hasOrganizer st event.(InstagramEvent.organizerId) = true).
    { intros event Hin Hw. unfold hasOrganizer.
      destruct (existsb _ _) eqn:Ex; [reflexivity|]. exfalso.
      assert (Hnone : pushEvents (filter eventsWhere st.(events))
                (fold_left
                   (fun acc organization =>
                      FoundEvents.set organization.(InstagramEventOrganizer.id)
                        {| FoundEvents.organization := organization;
                           FoundEvents.events := [] |} acc)
                   st.(organizers) []) = None); [|congruence].
      apply pushEvents_fails. exists event. split; [apply filter_In; tauto|].
      rewrite events_fold_keys. intros [[] | Hk].
      apply organizer_listed in Hk. congruence. }
    split; split.
    + discriminate.
    + intros (event & Hin & Hw & Hno). specialize (Hall event Hin Hw).
      apply organizer_listed, in_map_iff in Hall. destruct Hall as (o & Eo & Ho).
      exfalso. exact (Hno o Ho Eo).
    + intros _. exact Hall.
    + intros _. eauto.
  - split; [reflexivity|].
    apply pushEvents_fails in E. destruct E as (event & Hin & Hk).
    apply filter_In in Hin. destruct Hin as [Hin Hw].
    rewrite events_fold_keys in Hk.
    assert (Hno : forall o, In o st.(organizers) ->
                    o.(InstagramEventOrganizer.id) <> event.(InstagramEvent.organizerId)).
    { intros o Ho Eo. apply Hk. right. rewrite <- Eo. apply in_map. exact Ho. }
    split; split.
    + intros _. eauto.
    + reflexivity.
    + intros (? & ?). discriminate.
    + intro Hall. specialize (Hall event Hin Hw).
      apply organizer_listed, in_map_iff in Hall. destruct Hall as (o & Eo & Ho).
      exfalso. exact (Hno o Ho Eo).
Qed.

(** X12.  When the organizers are listed by ascending id and the ids are
    positive, as the store numbers them, [findEvents] returns one entry per
    organizer, in that order, under the organizer's id, and the entry holds
    the events selected that refer to the organizer, in the order of the
    table. *)
Theorem X12_findEvents_groups_by_organizer (eventsWhere : InstagramEvent.t -> bool)
    (st : State) (found : FoundEvents.t) :
  StronglySorted Z.lt (0 :: map InstagramEventOrganizer.id st.(organizers)) ->
  fst (findEvents eventsWhere st) = Ok found ->
  map fst found = map InstagramEventOrganizer.id st.(organizers)
  /\ map FoundEvents.organization (FoundEvents.values found) = st.(organizers)
  /\ map FoundEvents.events (FoundEvents.values found)
     = map (fun o =>
              filter (fun event => event.(InstagramEvent.organizerId)
                                  =? o.(InstagramEventOrganizer.id))
                (filter eventsWhere st.(events)))
         st.(organizers).
Proof.
  intros Hs. apply StronglySorted_inv in Hs. destruct Hs as [Hs _].
  rewrite findEvents_grouped by exact Hs. cbn [fst].
  destruct (forallb _ _); [|discriminate]. intro E. inversion E; subst found.
  unfold FoundEvents.values, groupedEvents. rewrite !map_map. cbn [fst snd
    FoundEvents.organization FoundEvents.events].
  rewrite map_id. repeat split; reflexivity.
Qed.

(** ** What every step keeps, the runs keep *)

(** A relation between states that every step of the pipeline keeps is kept
    by the runs. *)
Section Runs.
Variable w : World.
Variable R : State -> State -> Prop.
Hypothesis R_refl : forall st, R st st.
Hypothesis R_trans : forall a b c, R a b -> R b c -> R a c.
Hypothesis R_log : forall f st, R st (withLog f st).

Lemma ingestEventsForOrganizer_keeps organizer :
  (forall apiPost st, R st (snd (handleInstagramPost w organizer apiPost st))) ->
  forall st, R st (snd (ingestEventsForOrganizer w organizer st)).
Proof.
  intros H st. unfold ingestEventsForOrganizer, tryCatch, bind.
  pose proof (fetchPosts_state w organizer st) as F.
  destruct (fetchPosts w organizer st) as [[data|e] st1]; cbn [snd] in F; subst st1.
  - pose proof (Promise_all_keeps R R_refl R_trans
                  (map (handleInstagramPost w organizer) data)) as S.
    specialize (S ltac:(intros p Hp st0; apply in_map_iff in Hp;
                        destruct Hp as (apiPost & <- & _); apply H) st).
    destruct (Promise_all _ st) as [[maybeEvents|e] st2]; cbn in *; [exact S|].
    eapply R_trans; [exact S | apply R_log].
  - cbn. apply R_log.
Qed.

Hypothesis R_organizer : forall source st, R st (snd (getOrInsertOrganizer source st)).
Hypothesis R_handle :
  forall organizer apiPost st, R st (snd (handleInstagramPost w organizer apiPost st)).

Lemma countForSource_keeps source st : R st (snd (countForSource w source st)).
Proof.
  unfold countForSource. apply (bind_keeps R R_trans); [apply R_organizer|].
  intros organizer st1. apply (bind_keeps R R_trans).
  - intro. apply ingestEventsForOrganizer_keeps. apply R_handle.
  - intros. apply R_refl.
Qed.

Lemma scrapeAllInstagramEvents_keeps st : R st (snd (scrapeAllInstagramEvents w st)).
Proof.
  unfold scrapeAllInstagramEvents. apply (bind_keeps R R_trans).
  - intro. apply R_log.
  - intros _ st1. apply (bind_keeps R R_trans).
    + apply (Promise_all_keeps R R_refl R_trans). intros p Hp st0.
      apply in_map_iff in Hp. destruct Hp as (source & <- & _).
      apply countForSource_keeps.
    + intros. apply R_log.
Qed.

Lemma scrapeInstagramEventsForUser_keeps username st :
  R st (snd (scrapeInstagramEventsForUser w username st)).
Proof.
  unfold scrapeInstagramEventsForUser. apply (bind_keeps R R_trans).
  - intro. apply R_log.
  - intros _ st1. destruct (filter _ _) as [|source rest]; [apply R_refl|].
    apply (bind_keeps R R_trans); [apply R_organizer|].
    intros organizer st2. apply (bind_keeps R R_trans).
    + intro. apply ingestEventsForOrganizer_keeps. apply R_handle.
    + intros. apply R_log.
Qed.

Hypothesis R_extract :
  forall organizer post st, R st (snd (extractEventFromPost w organizer post st)).

Lemma fixupInstagramIngestion_keeps st : R st (snd (fixupInstagramIngestion w st)).
Proof.
  unfold fixupInstagramIngestion. apply (bind_keeps R R_trans).
  - intro st0. rewrite findPosts_state. apply R_refl.
  - intros incomplete st1.
    pose proof (settleAll_keeps R R_refl R_trans
                  (map (fun e =>
                          Promise_all
                            (map (extractEventFromPost w e.(FoundPosts.organization))
                               e.(FoundPosts.posts)))
                     (FoundPosts.values incomplete))) as S.
    specialize (S ltac:(intros p Hp st0; apply in_map_iff in Hp;
                        destruct Hp as (e & <- & _);
                        apply (Promise_all_keeps R R_refl R_trans);
                        intros q Hq st2; apply in_map_iff in Hq;
                        destruct Hq as (post & <- & _); apply R_extract) st1).
    destruct (settleAll _ st1) as [rs st2]. exact S.
Qed.

End Runs.

(** ** The store stays consistent *)

Lemma consistent_tables st st' : sameTables st st' -> consistent st -> consistent st'.
Proof.
  intros (Ho & Hp & He) [c1 c2 c3 c4 c5 c6 c7].
  constructor; rewrite ?Ho, ?Hp, ?He; assumption.
Qed.

Lemma consistent_empty : consistent emptyState.
Proof.
  constructor; simpl; try reflexivity; try constructor; intros ? [].
Qed.

Lemma NoDup_snoc {A} (l : list A) (x : A) : NoDup l -> ~ In x l -> NoDup (l ++ [x]).
Proof.
  induction l as [|a l IH]; intros Hn Hx; simpl.
  - constructor; [intros [] | constructor].
  - inversion Hn as [|? ? Ha Hl]; subst. constructor.
    + intro H. apply in_app_or in H. destruct H as [H | [H | []]].
      * exact (Ha H).
      * apply Hx. left. symmetry. exact H.
    + apply IH; [exact Hl|]. intro H. apply Hx. right. exact H.
Qed.

Lemma NoDup_map_eq {A B} (f : A -> B) (l : list A) a b :
  NoDup (map f l) -> In a l -> In b l -> f a = f b -> a = b.
Proof.
  induction l as [|x l IH]; intros Hn Ha Hb E; [destruct Ha|].
  simpl in Hn. inversion Hn as [|? ? Hx Hl]; subst.
  destruct Ha as [-> | Ha], Hb as [-> | Hb].
  - reflexivity.
  - exfalso. apply Hx. rewrite E. apply in_map. exact Hb.
  - exfalso. apply Hx. rewrite <- E. apply in_map. exact Ha.
  - apply IH; assumption.
Qed.

Lemma markCompleted_organizerId id t p :
  InstagramPost.organizerId (markCompleted id t p) = InstagramPost.organizerId p.
Proof. unfold markCompleted. destruct (String.eqb _ _); reflexivity. Qed.

Lemma markCompleted_completed id t p :
  InstagramPost.completedAt p <> None ->
  InstagramPost.completedAt (markCompleted id t p) <> None.
Proof. unfold markCompleted. destruct (String.eqb _ _); simpl; congruence. Qed.

Lemma markCompleted_same id t p :
  InstagramPost.id p = id -> InstagramPost.completedAt (markCompleted id t p) = Some t.
Proof. intros <-. unfold markCompleted. rewrite String.eqb_refl. reflexivity. Qed.

Lemma markCompleted_other id t p : InstagramPost.id p <> id -> markCompleted id t p = p.
Proof.
  intro H. unfold markCompleted. destruct (String.eqb_spec (InstagramPost.id p) id);
    [contradiction | reflexivity].
Qed.

Lemma map_markCompleted_ids id t l :
  map InstagramPost.id (map (markCompleted id t) l) = map InstagramPost.id l.
Proof. rewrite map_map. apply map_ext. intro. apply markCompleted_id. Qed.

Lemma persistEvent_extracted w inference post organizer st :
  extracted w post st (snd (persistEvent w inference post organizer st)).
Proof.
  unfold extracted, persistEvent, bind, createEvent, updateCompletedAt, modify, ret.
  destruct (acceptanceGate inference); cbn.
  - split; [reflexivity|]. right. eexists. split; [reflexivity|]. cbn. auto.
  - auto.
Qed.

Lemma extracted_after w post st st1 st2 :
  sameTables st st1 -> extracted w post st1 st2 -> extracted w post st st2.
Proof.
  intros (Ho & Hp & He) (Ho' & H). unfold extracted.
  rewrite <- Ho, <- Hp, <- He. auto.
Qed.

Lemma extracted_nothing w post st st' : sameTables st st' -> extracted w post st st'.
Proof. intros (Ho & Hp & He). split; auto. Qed.

Lemma extractEventFromPost_extracted w organizer post st :
  extracted w post st (snd (extractEventFromPost w organizer post st)).
Proof.
  unfold extractEventFromPost, bind.
  pose proof (extractTextFromPostImages_tables w post st) as T1.
  destruct (extractTextFromPostImages w post st) as [[imageText|e] st1]; cbn [snd] in *;
    [|apply extracted_nothing; exact T1].
  pose proof (runInferenceOnPost_tables w organizer post imageText st1) as T2.
  destruct (runInferenceOnPost w organizer post imageText st1) as [[[inference|]|e] st2];
    cbn [snd] in *;
    try (apply extracted_nothing; eapply sameTables_trans; eassumption).
  eapply extracted_after; [eapply sameTables_trans; eassumption|].
  apply persistEvent_extracted.
Qed.

Lemma extracted_consistent w post st st' :
  extracted w post st st' -> pending post st -> consistent st -> consistent st'.
Proof.
  intros (Ho & [[Hp He] | (ev & He & Hid & Hpid & Horg & Hp)]) Hpend Hc.
  - eapply consistent_tables; [|exact Hc]. repeat split; assumption.
  - destruct Hc as [c1 c2 c3 c4 c5 c6 c7].
    destruct Hpend as (row & Hrow & Rid & Rorg & Rnull).
    constructor.
    + rewrite Ho. exact c1.
    + rewrite Ho. exact c2.
    + rewrite Hp, map_markCompleted_ids. exact c3.
    + rewrite Hp, Ho. intros p Hin. apply in_map_iff in Hin.
      destruct Hin as (q & <- & Hq). rewrite markCompleted_organizerId. auto.
    + rewrite He. apply counted_snoc; assumption.
    + rewrite He, map_app. apply NoDup_snoc; [exact c6|]. cbn [map].
      intro Hin. apply in_map_iff in Hin. destruct Hin as (ev0 & E0 & Hev0).
      destruct (c7 ev0 Hev0) as (q & Hq & Qid & _ & Qdone).
      assert (q = row).
      { eapply NoDup_map_eq; [exact c3 | exact Hq | exact Hrow | congruence]. }
      subst q. congruence.
    + rewrite He, Hp. intros ev' Hin. apply in_app_or in Hin.
      destruct Hin as [Hin | [<- | []]].
      * destruct (c7 ev' Hin) as (q & Hq & Qid & Qorg & Qdone).
        exists (markCompleted (InstagramPost.id post) (now w) q).
        rewrite markCompleted_id, markCompleted_organizerId.
        repeat split; auto using in_map, markCompleted_completed.
      * exists (markCompleted (InstagramPost.id post) (now w) row).
        rewrite markCompleted_id, markCompleted_organizerId.
        repeat split; auto using in_map; try congruence.
        rewrite markCompleted_same by exact Rid. discriminate.
Qed.

Lemma extracted_pending w post other st st' :
  extracted w post st st' ->
  InstagramPost.id other <> InstagramPost.id post ->
  pending other st -> pending other st'.
Proof.
  intros (Ho & [[Hp He] | (ev & He & Hid & Hpid & Horg & Hp)]) Hne
         (row & Hrow & Rid & Rorg & Rnull); exists row; rewrite Hp.
  - auto.
  - repeat split; auto.
    rewrite <- (markCompleted_other (InstagramPost.id post) (now w) row) by congruence.
    apply in_map. exact Hrow.
Qed.

Lemma extracted_keepsCompleted w post st st' :
  extracted w post st st' -> pending post st -> consistent st ->
  keepsCompleted st st'.
Proof.
  intros (Ho & [[Hp He] | (ev & He & Hid & Hpid & Horg & Hp)])
         (r & Hr & Rid & _ & Rnull) Hc row Hrow Hdone; rewrite Hp; [exact Hrow|].
  rewrite <- (markCompleted_other (InstagramPost.id post) (now w) row).
  - apply in_map. exact Hrow.
  - intro E. assert (row = r); [|congruence].
    destruct Hc as [_ _ c3 _ _ _ _].
    eapply NoDup_map_eq; [exact c3 | exact Hrow | exact Hr | congruence].
Qed.

Lemma keepsCompleted_refl st : keepsCompleted st st.
Proof. intros row H _. exact H. Qed.

Lemma keepsCompleted_trans a b c :
  keepsCompleted a b -> keepsCompleted b c -> keepsCompleted a c.
Proof. intros H1 H2 row Hin Hd. apply H2; [apply H1|]; assumption. Qed.

(** *** A new post *)

Lemma persistPostNoneIfPresent_effect organizer apiPost st :
  let '(r, st') := persistPostNoneIfPresent organizer apiPost st in
  st'.(organizers) = st.(organizers)
  /\ st'.(events) = st.(events)
  /\ ((r = Ok None
       /\ In apiPost.(InstagramApiPost.id) (map InstagramPost.id st.(posts))
       /\ st'.(posts) = st.(posts))
      \/ (r = Ok (Some (rowFor organizer apiPost))
          /\ ~ In apiPost.(InstagramApiPost.id) (map InstagramPost.id st.(posts))
          /\ st'.(posts) = st.(posts) ++ [rowFor organizer apiPost])).
Proof.
  unfold persistPostNoneIfPresent, bind.
  pose proof (getMediaUrls_value apiPost st) as V.
  destruct (getMediaUrls_returns apiPost st) as (m & st1 & G & ((Ho & Hp & He) & _)).
  rewrite G in V |- *. cbn [fst] in V. injection V as ->.
  unfold tryCatch, bind, createPost. cbn [InstagramPost.id]. rewrite Hp.
  destruct (existsb _ (posts st)) eqn:E; cbn.
  - repeat split; auto. left. repeat split; [|exact Hp].
    apply existsb_exists in E. destruct E as (p & Hin & Hid).
    apply String.eqb_eq in Hid. rewrite <- Hid. apply in_map. exact Hin.
  - repeat split; auto. right. repeat split; [|rewrite Hp; reflexivity].
    intro Hin. apply in_map_iff in Hin. destruct Hin as (p & Hid & Hin).
    assert (existsb (fun p => (InstagramPost.id p =? InstagramApiPost.id apiPost)%string)
              (posts st) = true); [|congruence].
    apply existsb_exists. exists p. split; [exact Hin|]. apply String.eqb_eq. exact Hid.
Qed.

Lemma keepsFor_refl o st : keepsFor o st st.
Proof. split; auto. Qed.

Lemma keepsFor_trans o a b c : keepsFor o a b -> keepsFor o b c -> keepsFor o a c.
Proof.
  intros (E1 & H1) (E2 & H2). split; [congruence|].
  intros Hin Hc. apply H2; [rewrite E1; exact Hin | auto].
Qed.

Lemma keepsFor_log o f st : keepsFor o st (withLog f st).
Proof.
  split; [reflexivity|]. intros _. apply consistent_tables. repeat split.
Qed.

Lemma handleInstagramPost_keepsFor w organizer apiPost st :
  keepsFor organizer st (snd (handleInstagramPost w organizer apiPost st)).
Proof.
  unfold handleInstagramPost, bind.
  pose proof (persistPostNoneIfPresent_effect organizer apiPost st) as P.
  destruct (persistPostNoneIfPresent organizer apiPost st) as [r st1].
  destruct P as (Ho & He & [(-> & _ & Hp) | (-> & Hnew & Hp)]); cbn [snd].
  - split; [exact Ho|]. intros _. apply consistent_tables. repeat split; assumption.
  - set (row := rowFor organizer apiPost) in *.
    assert (K : keepsFor organizer st (snd (extractEventFromPost w organizer row st1))).
    { pose proof (extractEventFromPost_extracted w organizer row st1) as X.
      split; [destruct X as (X & _); congruence|].
      intros Hin Hc. eapply extracted_consistent; [exact X | |].
      - exists row. rewrite Hp. repeat split. apply in_or_app. right. left. reflexivity.
      - destruct Hc as [c1 c2 c3 c4 c5 c6 c7]. constructor.
        + rewrite Ho. exact c1.
        + rewrite Ho. exact c2.
        + rewrite Hp, map_app. apply NoDup_snoc; [exact c3 | exact Hnew].
        + rewrite Hp, Ho. intros p Hp'. apply in_app_or in Hp'.
          destruct Hp' as [Hp' | [<- | []]]; [auto|]. exists organizer. auto.
        + rewrite He. exact c5.
        + rewrite He. exact c6.
        + rewrite He, Hp. intros ev Hev. destruct (c7 ev Hev) as (q & Hq & Q).
          exists q. split; [apply in_or_app; left; exact Hq | exact Q]. }
    destruct (extractEventFromPost w organizer row st1) as [[[ev|]|e] st2]; exact K.
Qed.

(** *** An organizer, and the runs over the sources *)

Lemma ingestEventsForOrganizer_keepsFor w organizer st :
  keepsFor organizer st (snd (ingestEventsForOrganizer w organizer st)).
Proof.
  apply ingestEventsForOrganizer_keeps;
    first [exact (keepsFor_refl organizer) | exact (keepsFor_trans organizer)
          | exact (keepsFor_log organizer)
          | exact (handleInstagramPost_keepsFor w organizer)].
Qed.

Lemma getOrInsertOrganizer_effect source st :
  exists organizer st',
    getOrInsertOrganizer source st = (Ok organizer, st')
    /\ organizer.(InstagramEventOrganizer.username) = source.(InstagramSource.username)
    /\ In organizer st'.(organizers)
    /\ st'.(posts) = st.(posts) /\ st'.(events) = st.(events)
    /\ (st' = st
        \/ (~ In source.(InstagramSource.username)
                (map InstagramEventOrganizer.username st.(organizers))
            /\ st'.(organizers) = st.(organizers) ++ [organizer]
            /\ organizer.(InstagramEventOrganizer.id)
               = Z.of_nat (List.length st.(organizers)) + 1)).
Proof.
  unfold getOrInsertOrganizer.
  destruct (find _ (organizers st)) as [organizer|] eqn:E.
  - apply find_some in E. destruct E as [Hin Hname]. apply String.eqb_eq in Hname.
    exists organizer, st. auto 10.
  - eexists _, _. split; [reflexivity|]. cbn.
    repeat split; [apply in_or_app; right; left; reflexivity|].
    right. repeat split. intro Hin. apply in_map_iff in Hin.
    destruct Hin as (o & Ho & Hin). apply (find_none _ _ E) in Hin. cbv beta in Hin.
    rewrite Ho, String.eqb_refl in Hin. discriminate.
Qed.

Lemma getOrInsertOrganizer_consistent source st :
  consistent st -> consistent (snd (getOrInsertOrganizer source st)).
Proof.
  intro Hc.
  destruct (getOrInsertOrganizer_effect source st)
    as (o & st' & -> & Hname & Hin & Hp & He & [-> | (Hnew & Ho & Hid)]); cbn [snd];
    [exact Hc|].
  destruct Hc as [c1 c2 c3 c4 c5 c6 c7]. constructor.
  - rewrite Ho. apply counted_snoc; assumption.
  - rewrite Ho, map_app. apply NoDup_snoc; [exact c2|].
    rewrite Hname. exact Hnew.
  - rewrite Hp. exact c3.
  - rewrite Hp, Ho. intros p Hp'. destruct (c4 p Hp') as (o' & Ho' & E).
    exists o'. split; [apply in_or_app; left; exact Ho' | exact E].
  - rewrite He. exact c5.
  - rewrite He. exact c6.
  - rewrite He, Hp. exact c7.
Qed.

Lemma countForSource_consistent w source st :
  consistent st -> consistent (snd (countForSource w source st)).
Proof.
  intro Hc. unfold countForSource, bind.
  pose proof (getOrInsertOrganizer_consistent source st Hc) as Hc1.
  destruct (getOrInsertOrganizer_effect source st)
    as (o & st1 & E & _ & Hin & _). rewrite E in Hc1 |- *. cbn [snd] in Hc1.
  destruct (ingestEventsForOrganizer_keepsFor w o st1) as (_ & K).
  destruct (ingestEventsForOrganizer w o st1) as [[events|e] st2]; cbn [snd] in *; auto.
Qed.

Lemma consistent_log f st : consistent st -> consistent (withLog f st).
Proof. apply consistent_tables. repeat split. Qed.

Lemma sources_consistent w (l : list InstagramSource.t) st :
  consistent st -> consistent (snd (Promise_all (map (countForSource w) l) st)).
Proof.
  apply (Promise_all_keeps (fun a b => consistent a -> consistent b)); auto.
  intros p Hp st0. apply in_map_iff in Hp. destruct Hp as (source & <- & _).
  apply countForSource_consistent.
Qed.

Lemma scrape_consistent w st :
  consistent st ->
  consistent (snd (scrapeAllInstagramEvents w st))
  /\ forall username, consistent (snd (scrapeInstagramEventsForUser w username st)).
Proof.
  intro Hc. split.
  - unfold scrapeAllInstagramEvents, bind, logger, modify. 
    pose proof (sources_consistent w w.(sources) _
                  (consistent_log (fun l => l ++ [StartingAll]) st Hc)) as S.
    destruct (Promise_all _ _) as [[counts|e] st1]; cbn [snd] in *;
      [apply consistent_log|]; exact S.
  - intro username. unfold scrapeInstagramEventsForUser, bind, logger, modify.
    pose proof (consistent_log (fun l => l ++ [StartingUser username]) st Hc) as Hc0.
    destruct (filter _ (sources w)) as [|source rest]; [exact Hc0|].
    pose proof (getOrInsertOrganizer_consistent source _ Hc0) as Hc1.
    destruct (getOrInsertOrganizer_effect source
                (withLog (fun l => l ++ [StartingUser username]) st))
      as (o & st1 & E & _ & Hin & _).
    rewrite E in Hc1 |- *. cbn [snd] in Hc1.
    destruct (ingestEventsForOrganizer_keepsFor w o st1) as (_ & K).
    destruct (ingestEventsForOrganizer w o st1) as [[events|e] st2]; cbn [snd] in *;
      [apply consistent_log|]; auto.
Qed.

(** *** The fixup *)

Lemma NoDup_app_inv {A} (l1 l2 : list A) :
  NoDup (l1 ++ l2) ->
  NoDup l1 /\ NoDup l2 /\ forall x, In x l1 -> ~ In x l2.
Proof.
  induction l1 as [|a l1 IH]; simpl; intro H.
  - repeat split; [constructor | exact H | intros ? []].
  - inversion H as [|? ? Ha Hl]; subst. destruct (IH Hl) as (H1 & H2 & H3).
    repeat split; [constructor | exact H2 |].
    + intro Hin. apply Ha. apply in_or_app. left. exact Hin.
    + exact H1.
    + intros x [<- | Hx]; [|auto]. intro Hin. apply Ha. apply in_or_app. right. exact Hin.
Qed.

Lemma NoDup_app_intro {A} (front back : list A) :
  NoDup front -> NoDup back -> (forall x, In x front -> ~ In x back) ->
  NoDup (front ++ back).
Proof.
  induction front as [|a front IH]; simpl; intros H1 H2 H; [exact H2|].
  inversion H1 as [|? ? Ha Hl]; subst. constructor.
  - intro Hin. apply in_app_or in Hin. destruct Hin as [Hin | Hin]; [exact (Ha Hin)|].
    exact (H a (or_introl eq_refl) Hin).
  - apply IH; auto.
Qed.

Lemma NoDup_map_filter {A B} (key : A -> B) (keep : A -> bool) (rows : list A) :
  NoDup (map key rows) -> NoDup (map key (filter keep rows)).
Proof.
  induction rows as [|row rows IH]; simpl; intro H; [constructor|].
  inversion H as [|? ? Hrow Hrows]; subst. destruct (keep row); simpl; [constructor|]; auto.
  intro Hin. apply Hrow. apply in_map_iff in Hin. destruct Hin as (x & E & Hx).
  apply filter_In in Hx. rewrite <- E. apply in_map. tauto.
Qed.

Lemma extractAll_queued w organizer ps : forall rest st,
  queued (ps ++ rest) st ->
  queued rest (snd (settleAll (map (extractEventFromPost w organizer) ps) st))
  /\ keepsCompleted st (snd (settleAll (map (extractEventFromPost w organizer) ps) st)).
Proof.
  induction ps as [|post ps IH]; intros rest st Q;
    [split; [exact Q | apply keepsCompleted_refl]|].
  cbn [map settleAll].
  pose proof (extractEventFromPost_extracted w organizer post st) as X.
  destruct (extractEventFromPost w organizer post st) as [r st1]. cbn [snd] in X.
  specialize (IH rest st1).
  destruct (settleAll (map (extractEventFromPost w organizer) ps) st1) as [rs st2].
  cbn [snd] in *.
  destruct Q as (Hc & Hn & Hp). cbn [app map] in Hn.
  inversion Hn as [|? ? Hnew Hn']; subst.
  assert (Hfirst : pending post st) by (apply Hp; left; reflexivity).
  destruct IH as [Q2 K2].
  - split; [|split].
    + eapply extracted_consistent; eassumption.
    + exact Hn'.
    + intros q Hq. eapply extracted_pending; [exact X | | apply Hp; right; exact Hq].
      intro E. apply Hnew. rewrite <- E. apply in_map. exact Hq.
  - split; [exact Q2|].
    eapply keepsCompleted_trans; [|exact K2].
    eapply extracted_keepsCompleted; eassumption.
Qed.

Lemma settleAll_cons_state {A} (p : M A) (ps : list (M A)) st :
  snd (settleAll (p :: ps) st) = snd (settleAll ps (snd (p st))).
Proof.
  cbn [settleAll]. destruct (p st) as [r st1]. cbn [snd].
  destruct (settleAll ps st1). reflexivity.
Qed.

Lemma Promise_all_state {A} (ps : list (M A)) st :
  snd (Promise_all ps st) = snd (settleAll ps st).
Proof. unfold Promise_all. destruct (settleAll ps st). reflexivity. Qed.

Lemma fixupAll_queued w (es : list FoundPosts.entry) : forall st,
  queued (flat_map FoundPosts.posts es) st ->
  let st' :=
    snd (settleAll
           (map (fun e =>
                   Promise_all (map (extractEventFromPost w e.(FoundPosts.organization))
                                  e.(FoundPosts.posts))) es) st) in
  consistent st' /\ keepsCompleted st st'.
Proof.
  induction es as [|e es IH]; intros st Q; cbv zeta;
    [split; [exact (proj1 Q) | apply keepsCompleted_refl]|].
  cbn [map flat_map] in *. rewrite !settleAll_cons_state, !Promise_all_state.
  destruct (extractAll_queued w e.(FoundPosts.organization) e.(FoundPosts.posts) _ st Q)
    as [Q1 K1].
  destruct (IH _ Q1) as [Hc K2]. split; [exact Hc|].
  eapply keepsCompleted_trans; eassumption.
Qed.

Lemma groupedPosts_flat os g :
  flat_map FoundPosts.posts (FoundPosts.values (groupedPosts os g))
  = flat_map (fun o => g o.(InstagramEventOrganizer.id)) os.
Proof.
  induction os as [|o os IH]; [reflexivity|].
  cbn. unfold FoundPosts.values, groupedPosts in IH. rewrite IH. reflexivity.
Qed.

Lemma grouped_NoDup (os : list InstagramEventOrganizer.t) (l : list InstagramPost.t) :
  NoDup (map InstagramEventOrganizer.id os) ->
  NoDup (map InstagramPost.id l) ->
  NoDup (map InstagramPost.id
           (flat_map (fun o => filter (fun post => post.(InstagramPost.organizerId)
                                                   =? o.(InstagramEventOrganizer.id)) l)
              os)).
Proof.
  intros Hos Hl. induction os as [|o os IH]; [constructor|].
  inversion Hos as [|? ? Ho Hos']; subst. cbn [flat_map]. rewrite map_app.
  apply NoDup_app_intro; [apply NoDup_map_filter; exact Hl | apply IH; exact Hos' |].
  intros x H1 H2. apply in_map_iff in H1, H2.
  destruct H1 as (p1 & <- & H1), H2 as (p2 & E & H2).
  apply filter_In in H1. destruct H1 as [H1 K1]. apply Z.eqb_eq in K1.
  apply in_flat_map in H2. destruct H2 as (o2 & Ho2 & H2).
  apply filter_In in H2. destruct H2 as [H2 K2]. apply Z.eqb_eq in K2.
  assert (p2 = p1) by (eapply NoDup_map_eq; eauto). subst p2.
  apply Ho. rewrite <- K1, K2. apply in_map. exact Ho2.
Qed.

Lemma consistent_sorted st :
  consistent st -> StronglySorted Z.lt (map InstagramEventOrganizer.id st.(organizers)).
Proof. intros [c1 _ _ _ _ _ _]. rewrite c1. apply countFrom_sorted. Qed.

Lemma consistent_owned eventsWhere st :
  consistent st ->
  forallb (fun post => hasOrganizer st post.(InstagramPost.organizerId))
    (filter eventsWhere st.(posts)) = true.
Proof.
  intros [_ _ _ c4 _ _ _]. apply forallb_forall. intros p Hp.
  apply filter_In in Hp. destruct (c4 p (proj1 Hp)) as (o & Ho & E).
  apply organizer_listed. rewrite <- E. apply in_map. exact Ho.
Qed.

Lemma fixup_consistent w st :
  consistent st ->
  fst (fixupInstagramIngestion w st) = Ok tt
  /\ consistent (snd (fixupInstagramIngestion w st))
  /\ keepsCompleted st (snd (fixupInstagramIngestion w st)).
Proof.
  intro Hc. unfold fixupInstagramIngestion, bind.
  rewrite findPosts_grouped by (apply consistent_sorted; exact Hc).
  rewrite consistent_owned by exact Hc.
  set (incomplete := groupedPosts _ _).
  pose proof (fixupAll_queued w (FoundPosts.values incomplete) st) as F.
  cbv zeta in F. destruct (settleAll _ st) as [rs st'].
  split; [reflexivity|]. apply F. clear F.
  subst incomplete. rewrite groupedPosts_flat.
  split; [exact Hc|]. split.
  - apply grouped_NoDup.
    + apply sorted_NoDup, consistent_sorted. exact Hc.
    + apply NoDup_map_filter. destruct Hc. assumption.
  - intros p Hp. apply in_flat_map in Hp. destruct Hp as (o & _ & Hp).
    apply filter_In in Hp. destruct Hp as [Hp _].
    apply filter_In in Hp. destruct Hp as [Hp Hn].
    exists p. repeat split; [exact Hp|].
    unfold notCompleted, isNull in Hn. destruct (InstagramPost.completedAt p);
      [discriminate | reflexivity].
Qed.

(** *** Reading a store the pipeline built *)

Lemma consistent_events_owned eventsWhere st :
  consistent st ->
  forallb (fun event => hasOrganizer st event.(InstagramEvent.organizerId))
    (filter eventsWhere st.(events)) = true.
Proof.
  intros [_ _ _ c4 _ _ c7]. apply forallb_forall. intros ev Hev.
  apply filter_In in Hev. destruct (c7 ev (proj1 Hev)) as (p & Hp & _ & Eorg & _).
  destruct (c4 p Hp) as (o & Ho & E).
  apply organizer_listed. rewrite <- Eorg, <- E. apply in_map. exact Ho.
Qed.

Lemma reachable_consistent st : reachable st -> consistent st.
Proof.
  induction 1 as [|w st _ IH|w username st _ IH|w st _ IH].
  - apply consistent_empty.
  - apply (scrape_consistent w st IH).
  - apply (scrape_consistent w st IH).
  - apply (fixup_consistent w st IH).
Qed.

(** ** The tables only grow *)

Lemma sameButCompleted_refl p : sameButCompleted p p.
Proof. repeat split; auto. Qed.

Lemma sameButCompleted_trans p q r :
  sameButCompleted p q -> sameButCompleted q r -> sameButCompleted p r.
Proof.
  intros (a1 & a2 & a3 & a4 & a5 & a6 & a7) (b1 & b2 & b3 & b4 & b5 & b6 & b7).
  repeat split; try congruence. auto.
Qed.

Lemma kept_refl l : Forall2 sameButCompleted l l.
Proof. induction l; constructor; auto using sameButCompleted_refl. Qed.

Lemma kept_trans l : forall k m,
  Forall2 sameButCompleted l k -> Forall2 sameButCompleted k m ->
  Forall2 sameButCompleted l m.
Proof.
  induction l as [|p l IH]; intros k m H1 H2; inversion H1; subst;
    inversion H2; subst; constructor; eauto using sameButCompleted_trans.
Qed.

Lemma kept_markCompleted id t l :
  Forall2 sameButCompleted l (map (markCompleted id t) l).
Proof.
  induction l as [|p l IH]; constructor; [|exact IH].
  unfold markCompleted. destruct (String.eqb _ _); [|apply sameButCompleted_refl].
  repeat split. discriminate.
Qed.

Lemma grown_refl st : grown st st.
Proof.
  repeat split; [exists [] | exists st.(posts), [] | exists []];
    rewrite ?app_nil_r; auto using kept_refl.
Qed.

Lemma grown_trans a b c : grown a b -> grown b c -> grown a c.
Proof.
  intros ((os & Ho) & (kept & ps & Hp & Hk) & (es & He))
         ((os' & Ho') & (kept' & ps' & Hp' & Hk') & (es' & He')).
  repeat split.
  - exists (os ++ os'). rewrite Ho', Ho, app_assoc. reflexivity.
  - rewrite Hp in Hk'. apply Forall2_app_inv_l in Hk'.
    destruct Hk' as (k1 & k2 & Hk1 & Hk2 & ->).
    exists k1, (k2 ++ ps'). split; [rewrite Hp', app_assoc; reflexivity|].
    eapply kept_trans; eassumption.
  - exists (es ++ es'). rewrite He', He, app_assoc. reflexivity.
Qed.

Lemma grown_tables st st' : sameTables st st' -> grown st st'.
Proof.
  intros (Ho & Hp & He). repeat split;
    [exists [] | exists st.(posts), [] | exists []];
    rewrite ?app_nil_r; auto using kept_refl.
Qed.

Lemma extracted_grown w post st st' : extracted w post st st' -> grown st st'.
Proof.
  intros (Ho & [[Hp He] | (ev & He & _ & _ & _ & Hp)]).
  - apply grown_tables. repeat split; assumption.
  - repeat split.
    + exists []. rewrite app_nil_r. exact Ho.
    + eexists _, []. rewrite app_nil_r. split; [exact Hp | apply kept_markCompleted].
    + eauto.
Qed.

Lemma persistPostNoneIfPresent_grown organizer apiPost st :
  grown st (snd (persistPostNoneIfPresent organizer apiPost st)).
Proof.
  pose proof (persistPostNoneIfPresent_effect organizer apiPost st) as P.
  destruct (persistPostNoneIfPresent organizer apiPost st) as [r st1].
  destruct P as (Ho & He & [(_ & _ & Hp) | (_ & _ & Hp)]); cbn [snd].
  - apply grown_tables. repeat split; assumption.
  - repeat split.
    + exists []. rewrite app_nil_r. exact Ho.
    + eexists _, _. split; [exact Hp | apply kept_refl].
    + exists []. rewrite app_nil_r. exact He.
Qed.

Lemma getOrInsertOrganizer_grown source st :
  grown st (snd (getOrInsertOrganizer source st)).
Proof.
  destruct (getOrInsertOrganizer_effect source st)
    as (o & st' & -> & _ & _ & Hp & He & [-> | (_ & Ho & _)]); cbn [snd];
    [apply grown_refl|].
  repeat split; [eauto | | exists []; rewrite app_nil_r; exact He].
  exists st.(posts), []. rewrite app_nil_r. auto using kept_refl.
Qed.

Lemma extractEventFromPost_grown w organizer post st :
  grown st (snd (extractEventFromPost w organizer post st)).
Proof. eapply extracted_grown, extractEventFromPost_extracted. Qed.

Lemma handleInstagramPost_grown w organizer apiPost st :
  grown st (snd (handleInstagramPost w organizer apiPost st)).
Proof.
  unfold handleInstagramPost. apply (bind_keeps grown grown_trans).
  - intro. apply persistPostNoneIfPresent_grown.
  - intros [dbPost|] st1; [|apply grown_refl].
    apply (bind_keeps grown grown_trans).
    + intro. apply extractEventFromPost_grown.
    + intros [ev|] st2; apply grown_refl.
Qed.

Lemma grown_log f st : grown st (withLog f st).
Proof. apply grown_tables. repeat split. Qed.

(** X15.  A run never deletes a row and never changes an organizer or an
    event: after each of the three entry points the tables are those it
    found, the posts changed in their completion date at most and never
    back to null, with new rows at the end. *)
Theorem X15_the_tables_only_grow (w : World) (st : State) :
  grown st (snd (scrapeAllInstagramEvents w st))
  /\ (forall username, grown st (snd (scrapeInstagramEventsForUser w username st)))
  /\ grown st (snd (fixupInstagramIngestion w st)).
Proof.
  split; [|split]; [|intro username|];
    [apply scrapeAllInstagramEvents_keeps
    |apply scrapeInstagramEventsForUser_keeps
    |apply fixupInstagramIngestion_keeps];
    first [exact grown_refl | exact grown_trans | exact grown_log
          | exact getOrInsertOrganizer_grown | exact (handleInstagramPost_grown w)
          | exact (extractEventFromPost_grown w)].
Qed.

(** ** The runs and the consistent store *)

Lemma settleAll_each {A X} (f : X -> M A) (R : State -> State -> Prop)
    (Q : X -> State -> Prop) :
  (forall st, R st st) ->
  (forall a b c, R a b -> R b c -> R a c) ->
  (forall x st, R st (snd (f x st))) ->
  (forall x st, Q x (snd (f x st))) ->
  (forall x st st', R st st' -> Q x st -> Q x st') ->
  forall xs x st, In x xs -> Q x (snd (settleAll (map f xs) st)).
Proof.
  intros R_refl R_trans Hf Hq Hk xs. induction xs as [|a xs IH]; intros x st Hin;
    [destruct Hin|].
  cbn [map settleAll].
  pose proof (Hf a st) as F. pose proof (Hq a st) as Qa.
  destruct (f a st) as [r st1]. cbn [snd] in *.
  pose proof (settleAll_keeps R R_refl R_trans (map f xs)) as S.
  specialize (S ltac:(intros p Hp st0; apply in_map_iff in Hp;
                      destruct Hp as (y & <- & _); apply Hf) st1).
  specialize (IH x st1).
  destruct (settleAll (map f xs) st1) as [rs st2]. cbn [snd] in *.
  destruct Hin as [<- | Hin]; [eapply Hk; eassumption | auto].
Qed.

Lemma countForSource_organizer w source st :
  exists o,
    In o (snd (countForSource w source st)).(organizers)
    /\ o.(InstagramEventOrganizer.username) = source.(InstagramSource.username).
Proof.
  unfold countForSource, bind.
  destruct (getOrInsertOrganizer_effect source st) as (o & st1 & -> & Hname & Hin & _).
  destruct (ingestEventsForOrganizer_keepsFor w o st1) as (Ho & _).
  destruct (ingestEventsForOrganizer w o st1) as [[events|e] st2]; cbn in *;
    exists o; rewrite Ho; auto.
Qed.

Lemma grown_organizer st st' o : grown st st' -> In o st.(organizers) -> In o st'.(organizers).
Proof. intros ((os & ->) & _) H. apply in_or_app. left. exact H. Qed.

(** X13.  The runs over the sources keep the store consistent: organizers
    and events numbered from 1, one organizer per username, one row per post
    id, every post with its organizer, every event with its completed post
    and at most one event per post.  After the run over all the sources,
    every source has its organizer, and only one. *)
Theorem X13_scrape_keeps_the_store_consistent (w : World) (st : State) :
  consistent st ->
  consistent (snd (scrapeAllInstagramEvents w st))
  /\ (forall source, In source w.(sources) ->
        exists o,
          In o (snd (scrapeAllInstagramEvents w st)).(organizers)
          /\ o.(InstagramEventOrganizer.username) = source.(InstagramSource.username)
          /\ forall o', In o' (snd (scrapeAllInstagramEvents w st)).(organizers) ->
               o'.(InstagramEventOrganizer.username) = source.(InstagramSource.username) ->
               o' = o)
  /\ forall username, consistent (snd (scrapeInstagramEventsForUser w username st)).
Proof.
  intro Hc. destruct (scrape_consistent w st Hc) as [Hall Huser].
  split; [exact Hall|]. split; [|exact Huser].
  intros source Hin.
  assert (E : exists o,
            In o (snd (scrapeAllInstagramEvents w st)).(organizers)
            /\ o.(InstagramEventOrganizer.username) = source.(InstagramSource.username)).
  { unfold scrapeAllInstagramEvents, bind, logger, modify, Promise_all. cbn [snd].
    pose proof (settleAll_each (countForSource w) grown
                  (fun source st =>
                     exists o, In o st.(organizers)
                               /\ o.(InstagramEventOrganizer.username)
                                  = source.(InstagramSource.username))
                  grown_refl grown_trans) as S.
    specialize (S ltac:(intros; apply countForSource_keeps;
                        first [exact grown_refl | exact grown_trans | exact grown_log
                              | exact getOrInsertOrganizer_grown
                              | exact (handleInstagramPost_grown w)])
                  (countForSource_organizer w)
                  ltac:(intros x a b G (o & Ho & Eo); exists o;
                        eauto using grown_organizer)
                  w.(sources) source
                  (withLog (fun l => l ++ [StartingAll]) st) Hin).
    destruct (settleAll _ _) as [rs st1]. cbn [snd] in S.
    destruct (allFulfilled rs); exact S. }
  destruct E as (o & Ho & Eo). exists o. repeat split; [exact Ho | exact Eo |].
  intros o' Ho' Eo'. destruct Hall as [_ c2 _ _ _ _ _].
  eapply NoDup_map_eq; [exact c2 | exact Ho' | exact Ho | congruence].
Qed.

(** X14.  On a consistent store the fixup finds its posts (no TypeError),
    returns, and leaves the store consistent once the work it started is
    done.  The events it adds are of posts that had none, one per post, and
    a post that had its completion date keeps it. *)
Theorem X14_fixup_keeps_the_store_consistent (w : World) (st : State) :
  consistent st ->
  exists st' es,
    fixupInstagramIngestion w st = (Ok tt, st')
    /\ consistent st'
    /\ st'.(events) = st.(events) ++ es
    /\ NoDup (map InstagramEvent.postID es)
    /\ (forall ev, In ev es ->
          ~ In ev.(InstagramEvent.postID) (map InstagramEvent.postID st.(events)))
    /\ keepsCompleted st st'.
Proof.
  intro Hc. destruct (fixup_consistent w st Hc) as (Hr & Hc' & Hk).
  assert (G : grown st (snd (fixupInstagramIngestion w st))).
  { apply fixupInstagramIngestion_keeps;
      first [exact grown_refl | exact grown_trans | exact (extractEventFromPost_grown w)]. }
  destruct (fixupInstagramIngestion w st) as [r st']. cbn [fst snd] in *. subst r.
  destruct G as (_ & _ & (es & He)).
  exists st', es. split; [reflexivity|]. split; [exact Hc'|]. split; [exact He|].
  destruct Hc' as [_ _ _ _ _ c6 _]. rewrite He, map_app in c6.
  apply NoDup_app_inv in c6. destruct c6 as (_ & Hn & Hd).
  split; [exact Hn|]. split; [|exact Hk].
  intros ev Hev Hold. apply (Hd _ Hold). apply in_map. exact Hev.
Qed.

(** X16.  A store built from the empty one by runs of the three entry
    points is consistent, so reading it does not fail: [findPosts] and
    [findEvents] return for every selection, and the fixup finds its
    posts. *)
Theorem X16_reads_of_a_built_store_return (st : State) :
  reachable st ->
  consistent st
  /\ (forall eventsWhere, exists found, findPosts eventsWhere st = (Ok found, st))
  /\ (forall eventsWhere, exists found, findEvents eventsWhere st = (Ok found, st))
  /\ forall w, fst (fixupInstagramIngestion w st) = Ok tt.
Proof.
  intro Hr. pose proof (reachable_consistent st Hr) as Hc.
  split; [exact Hc|]. split; [|split].
  - intro eventsWhere. rewrite findPosts_grouped by (apply consistent_sorted; exact Hc).
    rewrite consistent_owned by exact Hc. eauto.
  - intro eventsWhere. rewrite findEvents_grouped by (apply consistent_sorted; exact Hc).
    rewrite consistent_events_owned by exact Hc. eauto.
  - intro w. apply (fixup_consistent w st Hc).
Qed.

(** ** The stages, one by one *)

Lemma list_ascii_of_string_app (a b : string) :
  list_ascii_of_string (a ++ b)%string = list_ascii_of_string a ++ list_ascii_of_string b.
Proof. induction a as [|c a IH]; simpl; [reflexivity | rewrite IH; reflexivity]. Qed.

(** X17.  What the model writes around the object does not count: a reply
    with text before the first opening brace and after the last closing
    brace is read as the part between them. *)
Theorem X17_text_around_the_object_is_ignored (w : World) (pre mid post : string) :
  ~ In "{"%char (list_ascii_of_string pre) ->
  ~ In "}"%char (list_ascii_of_string post) ->
  postProcessOpenAiInstagramResponse w (pre ++ "{" ++ mid ++ "}" ++ post)%string
  = postProcessOpenAiInstagramResponse w ("{" ++ mid ++ "}")%string.
Proof.
  intros Hpre Hpost. unfold postProcessOpenAiInstagramResponse.
  assert (E : fixGeneratedJson (pre ++ "{" ++ mid ++ "}" ++ post)%string
              = fixGeneratedJson ("{" ++ mid ++ "}")%string).
  { rewrite !fixGeneratedJson_strip. f_equal.
    rewrite !list_ascii_of_string_app. cbn [list_ascii_of_string app].
    rewrite (strip_braces _ _ _ Hpre Hpost).
    symmetry. apply (strip_braces [] (list_ascii_of_string mid) []); intros []. }
  rewrite E. reflexivity.
Qed.

(** *** Text detection *)



(** *** The media URLs of a post *)

Lemma truthyUrls_In urls u :
  In u (truthyUrls urls) <-> In (Some u) urls /\ u <> EmptyString.
Proof.
  induction urls as [|[[|c s]|] urls IH]; simpl.
  - tauto.
  - rewrite IH. split; [tauto|]. intros [[E | H] Hu]; [congruence | tauto].
  - rewrite IH. split.
    + intros [<- | [H Hu]]; [split; [auto | discriminate] | tauto].
    + intros [[E | H] Hu]; [left; congruence | tauto].
  - rewrite IH. split; [tauto|]. intros [[E | H] Hu]; [discriminate | tauto].
Qed.

(** X19.  [getMediaUrls] always returns.  An album gives a list, never
    null: the URLs of its children that have one, whatever the media type of
    the child, and the empty list when there is none.  An image gives its
    URL alone, or null when it has none or an empty one.  A video and an
    unknown type give null, the unknown type with one error record in the
    log.  No list holds an empty URL. *)
Theorem X19_getMediaUrls_keeps_the_urls_there_are (post : InstagramApiPost.t)
    (st : State) :
  exists mediaUrls st',
    getMediaUrls post st = (Ok mediaUrls, st')
    /\ (forall urls u, mediaUrls = Some urls -> In u urls -> u <> EmptyString)
    /\ (post.(InstagramApiPost.media_type) = CAROUSEL_ALBUM ->
        exists urls,
          mediaUrls = Some urls
          /\ forall u,
               In u urls
               <-> u <> EmptyString
                   /\ exists data child,
                        post.(InstagramApiPost.children) = Some data
                        /\ In child data
                        /\ child.(InstagramApiPost.child_media_url) = Some u)
    /\ (post.(InstagramApiPost.media_type) = IMAGE ->
        match post.(InstagramApiPost.media_url) with
        | Some u => if String.eqb u EmptyString then mediaUrls = None
                    else mediaUrls = Some [u]
        | None => mediaUrls = None
        end)
    /\ (post.(InstagramApiPost.media_type) = VIDEO -> mediaUrls = None)
    /\ (forall name, post.(InstagramApiPost.media_type) = OtherMedia name ->
          mediaUrls = None
          /\ st' = withLog (fun l => l ++ [UnknownMediaType post]) st)
    /\ ((forall name, post.(InstagramApiPost.media_type) <> OtherMedia name) -> st' = st).
Proof.
  unfold getMediaUrls.
  destruct (InstagramApiPost.media_type post) eqn:T.
  - destruct (InstagramApiPost.media_url post) as [[|c s]|] eqn:U;
      eexists _, _; (split; [reflexivity|]); repeat split; try discriminate; auto.
    intros urls u [= <-] [<- | []]. discriminate.
  - eexists _, _. split; [reflexivity|]. repeat split; try discriminate.
    + intros urls u [= <-] Hin. apply truthyUrls_In in Hin. tauto.
    + intros _. eexists. split; [reflexivity|]. intro u. rewrite truthyUrls_In, in_map_iff.
      split.
      * intros [(child & E & Hin) Hu]. split; [exact Hu|].
        destruct (InstagramApiPost.children post) as [data|]; [|destruct Hin]. eauto.
      * intros [Hu (data & child & -> & Hin & E)]. eauto.
  - eexists _, _. split; [reflexivity|]. repeat split; try discriminate.
  - eexists _, _. split; [reflexivity|]. repeat split; try discriminate.
    intro H. destruct (H name eq_refl).
Qed.

(** *** An organizer for a source *)

Lemma find_app {A} (f : A -> bool) (l1 l2 : list A) :
  find f (l1 ++ l2) = match find f l1 with Some x => Some x | None => find f l2 end.
Proof. induction l1 as [|a l1 IH]; simpl; [reflexivity|]. destruct (f a); auto. Qed.

(** X20.  [getOrInsertOrganizer] returns the organizer the table has for
    the username and creates one only when it has none, with the city and
    the context clues of the source and the earliest date of update.  Asked
    again, for the same source or for another of the same username, it
    returns the same organizer and writes nothing: a source whose city or
    clues have changed leaves its organizer as it was. *)
Theorem X20_getOrInsertOrganizer_first_source_wins (source source' : InstagramSource.t)
    (st : State) :
  source'.(InstagramSource.username) = source.(InstagramSource.username) ->
  exists o st1,
    getOrInsertOrganizer source st = (Ok o, st1)
    /\ getOrInsertOrganizer source' st1 = (Ok o, st1)
    /\ In o st1.(organizers)
    /\ o.(InstagramEventOrganizer.username) = source.(InstagramSource.username)
    /\ ((exists known, In known st.(organizers)
                       /\ known.(InstagramEventOrganizer.username)
                          = source.(InstagramSource.username))
        -> st1 = st)
    /\ ((forall known, In known st.(organizers) ->
           known.(InstagramEventOrganizer.username) <> source.(InstagramSource.username))
        -> st1.(organizers) = st.(organizers) ++ [o]
           /\ o.(InstagramEventOrganizer.id) = Z.of_nat (List.length st.(organizers)) + 1
           /\ o.(InstagramEventOrganizer.city) = source.(InstagramSource.city)
           /\ o.(InstagramEventOrganizer.contextClues)
              = String.concat " " source.(InstagramSource.context_clues)
           /\ o.(InstagramEventOrganizer.lastUpdated) = 0).
Proof.
  intro Hname. unfold getOrInsertOrganizer. rewrite Hname.
  destruct (find _ (organizers st)) as [o|] eqn:E.
  - exists o, st. rewrite E. apply find_some in E. destruct E as [Hin Ho].
    apply String.eqb_eq in Ho.
    split; [reflexivity|]. split; [reflexivity|]. split; [exact Hin|].
    split; [exact Ho|]. split; [reflexivity|].
    intro Hnone. destruct (Hnone o Hin Ho).
  - eexists _, _. split; [reflexivity|]. cbn [organizers withOrganizers].
    rewrite find_app, E. cbn. rewrite String.eqb_refl.
    repeat split.
    + apply in_or_app. right. left. reflexivity.
    + intros (known & Hin & Hk). apply (find_none _ _ E) in Hin. cbv beta in Hin.
      rewrite Hk, String.eqb_refl in Hin. discriminate.
Qed.

(** *** One post *)

(** X21.  [extractEventFromPost] stores at most one event and marks the
    post completed exactly when it stores one; otherwise, and whenever it
    throws, the tables are as they were, so the post stays for the next
    fixup.  It creates no organizer and no post. *)
Theorem X21_extraction_completes_the_post_it_stores (w : World)
    (organizer : InstagramEventOrganizer.t) (post : InstagramPost.t) (st : State) :
  let '(r, st') := extractEventFromPost w organizer post st in
  st'.(organizers) = st.(organizers)
  /\ map InstagramPost.id st'.(posts) = map InstagramPost.id st.(posts)
  /\ ((st'.(posts) = st.(posts) /\ st'.(events) = st.(events))
      \/ (r = Ok None
          /\ exists ev,
               st'.(events) = st.(events) ++ [ev]
               /\ ev.(InstagramEvent.postID) = post.(InstagramPost.id)
               /\ ev.(InstagramEvent.organizerId) = post.(InstagramPost.organizerId)
               /\ st'.(posts)
                  = map (markCompleted post.(InstagramPost.id) w.(now)) st.(posts)
               /\ forall row, In row st'.(posts) ->
                    row.(InstagramPost.id) = post.(InstagramPost.id) ->
                    row.(InstagramPost.completedAt) = Some w.(now)))
  /\ (forall e, r = Threw e -> st'.(posts) = st.(posts) /\ st'.(events) = st.(events)).
Proof.
  pose proof (extractEventFromPost_extracted w organizer post st) as X.
  pose proof (extractEventFromPost_sameIds w organizer post st) as I.
  pose proof (extractEventFromPost_returns w organizer post st) as N.
  assert (T : forall e, fst (extractEventFromPost w organizer post st) = Threw e ->
                sameTables st (snd (extractEventFromPost w organizer post st))).
  { intros e. unfold extractEventFromPost, bind.
    pose proof (extractTextFromPostImages_tables w post st) as T1.
    destruct (extractTextFromPostImages w post st) as [[imageText|e1] st1];
      cbn [fst snd] in *; [|intros _; exact T1].
    pose proof (runInferenceOnPost_tables w organizer post imageText st1) as T2.
    destruct (runInferenceOnPost w organizer post imageText st1)
      as [[[inference|]|e2] st2]; cbn [fst snd] in *;
      try (intros _; eapply sameTables_trans; eassumption).
    rewrite persistEvent_returns. discriminate. }
  destruct (extractEventFromPost w organizer post st) as [r st']. cbn [fst snd] in *.
  destruct X as (Ho & X). split; [exact Ho|]. split; [exact I|]. split.
  - destruct X as [X | (ev & He & _ & Hpid & Horg & Hp)]; [left; exact X|].
    right. split.
    + destruct r as [[ev'|]|e]; [destruct N | reflexivity |].
      destruct (T e eq_refl) as (_ & _ & He'). rewrite He' in He.
      exfalso. symmetry in He. revert He. apply app_one_neq.
    + exists ev. repeat split; auto.
      intros row Hin Hid. rewrite Hp in Hin. apply in_map_iff in Hin.
      destruct Hin as (q & <- & _). rewrite markCompleted_id in Hid.
      apply markCompleted_same. exact Hid.
  - intros e ->. destruct (T e eq_refl) as (_ & Hp & He). auto.
Qed.

(** *** The URL of the request *)

Lemma append_cancel_l (p a b : string) : (p ++ a = p ++ b)%string -> a = b.
Proof. induction p as [|c p IH]; simpl; intro H; [exact H|]. injection H as H. auto. Qed.

Lemma append_length (a b : string) :
  String.length (a ++ b) = (String.length a + String.length b)%nat.
Proof. induction a as [|c a IH]; simpl; [reflexivity | rewrite IH; reflexivity]. Qed.

Lemma append_cancel_r (a b s : string) : (a ++ s = b ++ s)%string -> a = b.
Proof.
  revert b. induction a as [|c a IH]; intros [|d b] H.
  - reflexivity.
  - apply (f_equal String.length) in H. cbn [append] in H.
    cbn [String.length] in H. rewrite append_length in H. lia.
  - apply (f_equal String.length) in H. cbn [append] in H.
    cbn [String.length] in H. rewrite append_length in H. lia.
  - cbn [append] in H. injection H as -> H. f_equal. auto.
Qed.

(** X22.  [instagramURL] gives two URLs for two usernames, whatever the
    two ids of the environment are: the request [fetchPosts] sends tells the
    accounts apart. *)
Theorem X22_instagramURL_tells_the_usernames_apart (userId token : string)
    (u u' : string) :
  instagramURL userId token u = instagramURL userId token u' <-> u = u'.
Proof.
  split; [|intros ->; reflexivity].
  unfold instagramURL. intro H.
  do 4 apply append_cancel_l in H.
  apply append_cancel_r in H. exact H.
Qed.

(** *** A new post, from end to end *)


Lemma markCompleted_unknown id t (l : list InstagramPost.t) :
  ~ In id (map InstagramPost.id l) -> map (markCompleted id t) l = l.
Proof.
  induction l as [|p l IH]; simpl; intro H; [reflexivity|].
  rewrite markCompleted_other by tauto. rewrite IH by tauto. reflexivity.
Qed.


(** ** A run over the sources only adds *)

Lemma added_refl st : added st st.
Proof. exists [], []. rewrite !app_nil_r. repeat split; intros ? []. Qed.

Lemma added_tables st st' : sameTables st st' -> added st st'.
Proof.
  intros (_ & Hp & He). exists [], []. rewrite !app_nil_r.
  repeat split; auto; intros ? [].
Qed.

Lemma added_trans a b c : added a b -> added b c -> added a c.
Proof.
  intros (ps & es & Hp & He & Hnew & Hev) (ps' & es' & Hp' & He' & Hnew' & Hev').
  exists (ps ++ ps'), (es ++ es'). rewrite Hp', Hp, He', He, !app_assoc.
  repeat split.
  - intros p Hin. apply in_app_or in Hin. destruct Hin as [Hin | Hin]; [auto|].
    intros (q & Hq & Eq). apply (Hnew' p Hin). exists q. rewrite Hp.
    split; [apply in_or_app; left; exact Hq | exact Eq].
  - intros ev Hin. rewrite map_app. apply in_or_app.
    apply in_app_or in Hin. destruct Hin as [Hin | Hin]; auto.
Qed.

Lemma added_log f st : added st (withLog f st).
Proof. apply added_tables. repeat split. Qed.

Lemma getOrInsertOrganizer_added source st :
  added st (snd (getOrInsertOrganizer source st)).
Proof.
  destruct (getOrInsertOrganizer_effect source st)
    as (o & st' & -> & _ & _ & Hp & He & _); cbn [snd].
  exists [], []. rewrite !app_nil_r. repeat split; auto; intros ? [].
Qed.

Lemma handleInstagramPost_added w organizer apiPost st :
  added st (snd (handleInstagramPost w organizer apiPost st)).
Proof.
  unfold handleInstagramPost, bind.
  pose proof (persistPostNoneIfPresent_effect organizer apiPost st) as P.
  destruct (persistPostNoneIfPresent organizer apiPost st) as [r st1].
  destruct P as (Ho & He & [(-> & _ & Hp) | (-> & Hnew & Hp)]); cbn [snd].
  - apply added_tables. repeat split; assumption.
  - set (row := rowFor organizer apiPost) in *.
    assert (K : added st (snd (extractEventFromPost w organizer row st1))).
    { pose proof (extractEventFromPost_extracted w organizer row st1) as X.
      assert (Hrow : ~ known (InstagramPost.id row) st).
      { intros (q & Hq & Eq). apply Hnew. apply in_map_iff. exists q.
        split; [exact Eq | exact Hq]. }
      destruct X as (_ & [[Hp2 He2] | (ev & He2 & _ & Hpid & _ & Hp2)]).
      - exists [row], []. rewrite app_nil_r. repeat split; try congruence.
        + intros p [<- | []]. exact Hrow.
        + intros ? [].
      - exists [markCompleted (InstagramPost.id row) (now w) row], [ev].
        repeat split.
        + rewrite Hp2, Hp, map_app. cbn [map]. f_equal.
          apply markCompleted_unknown. exact Hnew.
        + congruence.
        + intros p [<- | []]. rewrite markCompleted_id. exact Hrow.
        + intros ev' [<- | []]. cbn [map]. rewrite markCompleted_id. left.
          symmetry. exact Hpid. }
    destruct (extractEventFromPost w organizer row st1) as [[[ev|]|e] st2]; exact K.
Qed.

(** X25.  A run over the sources leaves every stored post as it is, also
    one that has no completion date, and the events it stores are of posts
    it has added in the same run: a post whose extraction has failed once is
    left to the fixup. *)
Theorem X25_a_run_over_the_sources_only_adds (w : World) (st : State) :
  added st (snd (scrapeAllInstagramEvents w st))
  /\ forall username, added st (snd (scrapeInstagramEventsForUser w username st)).
Proof.
  split; [|intro username];
    [apply scrapeAllInstagramEvents_keeps | apply scrapeInstagramEventsForUser_keeps];
    first [exact added_refl | exact added_trans | exact added_log
          | exact getOrInsertOrganizer_added | exact (handleInstagramPost_added w)].
Qed.

(** ** A second run in the same world *)

Lemma onlyLogged_refl st : onlyLogged st st.
Proof. repeat split. Qed.

Lemma onlyLogged_trans a b c : onlyLogged a b -> onlyLogged b c -> onlyLogged a c.
Proof.
  intros ((H1 & H2 & H3) & H4 & H5) ((K1 & K2 & K3) & K4 & K5).
  repeat split; congruence.
Qed.

Lemma onlyLogged_log f st : onlyLogged st (withLog f st).
Proof. repeat split. Qed.

Lemma settleAll_while {A X} (f : X -> M A) (I : State -> Prop)
    (R : State -> State -> Prop) (xs : list X) :
  (forall st, R st st) ->
  (forall a b c, R a b -> R b c -> R a c) ->
  (forall st st', R st st' -> I st -> I st') ->
  (forall x, In x xs -> forall st, I st -> R st (snd (f x st))) ->
  forall st, I st -> R st (snd (settleAll (map f xs) st)).
Proof.
  intros R_refl R_trans Hkeep. induction xs as [|x xs IH]; intros Hf st Hi;
    [apply R_refl|].
  cbn [map]. rewrite settleAll_cons_state.
  assert (H1 : R st (snd (f x st))) by (apply Hf; [left; reflexivity | exact Hi]).
  eapply R_trans; [exact H1|].
  apply IH; [intros y Hy; apply Hf; right; exact Hy | eapply Hkeep; eassumption].
Qed.

Lemma fetchPosts_username w o o' st st' :
  o.(InstagramEventOrganizer.username) = o'.(InstagramEventOrganizer.username) ->
  fst (fetchPosts w o st) = fst (fetchPosts w o' st').
Proof.
  intro E. unfold fetchPosts. rewrite E.
  destruct (fetch w _) as [message|[| |c p t] body]; try reflexivity;
    unfold bind, ret, throw; try (destruct body; reflexivity).
  destruct (rateLimitHit c p t); [reflexivity | destruct body; reflexivity].
Qed.

Lemma known_onlyLogged id st st' : onlyLogged st st' -> known id st -> known id st'.
Proof. intros ((_ & Hp & _) & _) (p & Hin & E). exists p. rewrite Hp. auto. Qed.

Lemma known_posts id st st' : st'.(posts) = st.(posts) -> known id st -> known id st'.
Proof. intros Hp (p & Hin & E). exists p. rewrite Hp. auto. Qed.

Lemma ingest_known_posts w organizer st :
  postsKnown w organizer.(InstagramEventOrganizer.username) st ->
  onlyLogged st (snd (ingestEventsForOrganizer w organizer st)).
Proof.
  intro Hk. unfold ingestEventsForOrganizer, tryCatch, bind.
  pose proof (fetchPosts_state w organizer st) as F.
  specialize (Hk organizer st).
  destruct (fetchPosts w organizer st) as [[data|e] st1]; cbn [fst snd] in *; subst st1;
    [|apply onlyLogged_log].
  specialize (Hk data eq_refl eq_refl).
  pose proof (settleAll_while (handleInstagramPost w organizer)
                (fun st0 => forall apiPost, In apiPost data ->
                              known apiPost.(InstagramApiPost.id) st0)
                onlyLogged data onlyLogged_refl onlyLogged_trans) as S.
  specialize (S ltac:(intros a b L H apiPost Hin; eapply known_onlyLogged; eauto)).
  specialize (S ltac:(intros apiPost Hin st0 H;
                      destruct (handleInstagramPost_known w organizer apiPost st0
                                  (H apiPost Hin)) as (st2 & -> & L); exact L) st Hk).
  unfold Promise_all.
  destruct (settleAll (map (handleInstagramPost w organizer) data) st) as [rs st2].
  cbn [snd] in S. destruct (allFulfilled rs); cbn; [exact S|].
  eapply onlyLogged_trans; [exact S | apply onlyLogged_log].
Qed.

Lemma find_exists {A} (f : A -> bool) (l : list A) x :
  In x l -> f x = true -> exists y, find f l = Some y.
Proof.
  induction l as [|a l IH]; intros Hin Hx; [destruct Hin|]. simpl.
  destruct (f a) eqn:E; [eauto|]. destruct Hin as [-> | Hin]; [congruence | auto].
Qed.

Lemma countForSource_settled w source st :
  settled w st -> In source w.(sources) ->
  onlyLogged st (snd (countForSource w source st)).
Proof.
  intros Hs Hin. destruct (Hs source Hin) as ((o & Ho & Eo) & Hk).
  unfold countForSource, bind, getOrInsertOrganizer.
  destruct (find_exists
              (fun o => String.eqb o.(InstagramEventOrganizer.username)
                          source.(InstagramSource.username))
              st.(organizers) o Ho) as (o' & E).
  { apply String.eqb_eq. exact Eo. }
  rewrite E. apply find_some in E. destruct E as [_ Eo']. apply String.eqb_eq in Eo'.
  rewrite <- Eo' in Hk.
  pose proof (ingest_known_posts w o' st Hk) as L.
  destruct (ingestEventsForOrganizer w o' st) as [[events|e] st2]; exact L.
Qed.

Lemma keepsKnown_log f st : keepsKnown st (withLog f st).
Proof. intros id K. exact K. Qed.

Lemma getOrInsertOrganizer_keepsKnown source st :
  keepsKnown st (snd (getOrInsertOrganizer source st)).
Proof.
  destruct (getOrInsertOrganizer_effect source st)
    as (o & st' & -> & _ & _ & Hp & _); cbn [snd].
  intros id K. eapply known_posts; eassumption.
Qed.

Lemma countForSource_settles w source st :
  let st' := snd (countForSource w source st) in
  (exists o, In o st'.(organizers)
             /\ o.(InstagramEventOrganizer.username) = source.(InstagramSource.username))
  /\ postsKnown w source.(InstagramSource.username) st'.
Proof.
  cbv zeta. split; [apply countForSource_organizer|].
  unfold countForSource, bind.
  destruct (getOrInsertOrganizer_effect source st) as (o & st1 & -> & Hname & _).
  intros o' st0 data Eo' Hdata apiPost Hin.
  rewrite (fetchPosts_username w o' o st0 st1) in Hdata by congruence.
  unfold ingestEventsForOrganizer, tryCatch, bind.
  pose proof (fetchPosts_state w o st1) as F.
  destruct (fetchPosts w o st1) as [[data'|e] st2]; cbn [fst snd] in *; subst st2;
    [|discriminate].
  injection Hdata as ->.
  pose proof (settleAll_handles_all w o data st1 apiPost Hin) as K.
  unfold Promise_all.
  destruct (settleAll (map (handleInstagramPost w o) data) st1) as [rs st2].
  cbn [snd] in K. destruct (allFulfilled rs); cbn; exact K.
Qed.

Lemma scrapeAll_settles w st : settled w (snd (scrapeAllInstagramEvents w st)).
Proof.
  intros source Hin.
  unfold scrapeAllInstagramEvents, bind, logger, modify, Promise_all. cbn [snd].
  pose proof (settleAll_each (countForSource w)
                (fun a b => grown a b /\ keepsKnown a b)
                (fun source st =>
                   (exists o, In o st.(organizers)
                              /\ o.(InstagramEventOrganizer.username)
                                 = source.(InstagramSource.username))
                   /\ postsKnown w source.(InstagramSource.username) st)) as S.
  specialize (S ltac:(intro; split; [apply grown_refl | apply keepsKnown_refl])).
  specialize (S ltac:(intros a b c [G1 K1] [G2 K2];
                      split; [eapply grown_trans | eapply keepsKnown_trans]; eassumption)).
  specialize (S ltac:(intros x st0; apply countForSource_keeps;
                      first
                        [ intros a b c [G1 K1] [G2 K2];
                          split; [eapply grown_trans | eapply keepsKnown_trans]; eassumption
                        | intros; split; [apply grown_log | apply keepsKnown_log]
                        | intro; split; [apply grown_refl | apply keepsKnown_refl]
                        | intros; split;
                          [apply getOrInsertOrganizer_grown
                          |apply getOrInsertOrganizer_keepsKnown]
                        | intros; split;
                          [apply handleInstagramPost_grown
                          |apply handleInstagramPost_keepsKnown] ])).
  specialize (S (countForSource_settles w)).
  specialize (S ltac:(intros x a b [G K] [(o & Ho & Eo) Hk]; split;
                      [exists o; eauto using grown_organizer
                      |intros o' st0 data Eo' Hd apiPost Hi; apply K;
                       exact (Hk o' st0 data Eo' Hd apiPost Hi)])
                w.(sources) source (withLog (fun l => l ++ [StartingAll]) st) Hin).
  destruct (settleAll _ _) as [rs st1]. cbn [snd] in S.
  destruct (allFulfilled rs); exact S.
Qed.

Lemma settled_onlyLogged w st st' : onlyLogged st st' -> settled w st -> settled w st'.
Proof.
  intros ((Ho & Hp & _) & _) Hs source Hin.
  destruct (Hs source Hin) as ((o & Hino & Eo) & Hk). split.
  - exists o. rewrite Ho. auto.
  - intros o' st0 data Eo' Hd apiPost Hi.
    eapply known_posts; [exact Hp | exact (Hk o' st0 data Eo' Hd apiPost Hi)].
Qed.

(** X26.  A second run over all the sources in the same world writes
    nothing but log records: every organizer is found, every post the API
    returns is in the table and skipped, and no text-detection or inference
    request is sent. *)
Theorem X26_a_second_run_only_logs (w : World) (st : State) :
  let st1 := snd (scrapeAllInstagramEvents w st) in
  settled w st1
  /\ onlyLogged st1 (snd (scrapeAllInstagramEvents w st1)).
Proof.
  cbv zeta. pose proof (scrapeAll_settles w st) as Hs.
  set (st1 := snd (scrapeAllInstagramEvents w st)) in *. split; [exact Hs|].
  unfold scrapeAllInstagramEvents, bind, logger, modify, Promise_all. cbn [snd].
  pose proof (settleAll_while (countForSource w) (settled w) onlyLogged w.(sources)
                onlyLogged_refl onlyLogged_trans (settled_onlyLogged w)
                (fun source Hin st0 H0 => countForSource_settled w source st0 H0 Hin)
                (withLog (fun l => l ++ [StartingAll]) st1)
                (settled_onlyLogged w _ _ (onlyLogged_log _ st1) Hs)) as S.
  destruct (settleAll _ _) as [rs st2]. cbn [snd] in S.
  assert (L : onlyLogged st1 st2).
  { eapply onlyLogged_trans; [apply onlyLogged_log | exact S]. }
  destruct (allFulfilled rs); cbn; [|exact L].
  eapply onlyLogged_trans; [exact L | apply onlyLogged_log].
Qed.

(** ** More examples, run *)

Lemma X6_open_ended_candidate :
  (postProcessing 2024 openEndedCandidate).(endHourMilitaryTime) = Some 1
  /\ (postProcessing 2024 openEndedCandidate).(endDay) = Some 32.
Proof.
  destruct (X6_default_end_hour 2024 openEndedCandidate eq_refl) as (H1 & H2 & _).
  split; [exact H1 | apply H2; reflexivity].
Defined.

Lemma X8_new_year_party :
  exists ev st' s e,
    persistEvent Example.world
      (postProcessing Example.world.(fullYear) openEndedCandidate)
      Example.storedDemo (Example.organizer 1 "demo_user") emptyState = (Ok None, st')
    /\ st'.(events) = emptyState.(events) ++ [ev]
    /\ ev.(InstagramEvent.start) = Some s
    /\ ev.(InstagramEvent.end_) = Some e
    /\ s < e.
Proof.
  apply (X8_default_end_is_after_start Example.world openEndedCandidate
           Example.storedDemo (Example.organizer 1 "demo_user") emptyState);
    try reflexivity.
  - apply acceptanceGate_Accepted. vm_compute. reflexivity.
  - vm_compute. split; discriminate.
  - decide_le.
Defined.

Lemma X10_posts_left_after_the_run :
  map fst incompleteAfterScrape
  = map InstagramEventOrganizer.id Example.afterScrape.(organizers)
  /\ map FoundPosts.organization (FoundPosts.values incompleteAfterScrape)
     = Example.afterScrape.(organizers)
  /\ map FoundPosts.posts (FoundPosts.values incompleteAfterScrape)
     = map (fun o =>
              filter (fun post => post.(InstagramPost.organizerId)
                                  =? o.(InstagramEventOrganizer.id))
                (filter notCompleted Example.afterScrape.(posts)))
         Example.afterScrape.(organizers).
Proof.
  apply (X10_findPosts_groups_by_organizer notCompleted Example.afterScrape
           incompleteAfterScrape).
  - repeat constructor.
  - vm_compute. reflexivity.
Defined.

Lemma X12_events_after_the_run :
  map fst eventsAfterScrape
  = map InstagramEventOrganizer.id Example.afterScrape.(organizers)
  /\ map FoundEvents.organization (FoundEvents.values eventsAfterScrape)
     = Example.afterScrape.(organizers)
  /\ map FoundEvents.events (FoundEvents.values eventsAfterScrape)
     = map (fun o =>
              filter (fun event => event.(InstagramEvent.organizerId)
                                   =? o.(InstagramEventOrganizer.id))
                (filter (fun _ => true) Example.afterScrape.(events)))
         Example.afterScrape.(organizers).
Proof.
  apply (X12_findEvents_groups_by_organizer (fun _ => true) Example.afterScrape
           eventsAfterScrape).
  - repeat constructor.
  - vm_compute. reflexivity.
Defined.

Lemma X13_first_run :
  consistent (snd (scrapeAllInstagramEvents Example.world emptyState))
  /\ consistent (snd (scrapeInstagramEventsForUser Example.world "demo_user" emptyState)).
Proof.
  destruct (X13_scrape_keeps_the_store_consistent Example.world emptyState
              consistent_empty) as (H1 & _ & H2).
  split; [exact H1 | exact (H2 "demo_user")].
Defined.

Lemma X14_fixup_after_the_first_run :
  exists st' es,
    fixupInstagramIngestion Example.world Example.afterScrape = (Ok tt, st')
    /\ consistent st'
    /\ st'.(events) = Example.afterScrape.(events) ++ es
    /\ NoDup (map InstagramEvent.postID es)
    /\ (forall ev, In ev es ->
          ~ In ev.(InstagramEvent.postID)
              (map InstagramEvent.postID Example.afterScrape.(events)))
    /\ keepsCompleted Example.afterScrape st'.
Proof.
  apply (X14_fixup_keeps_the_store_consistent Example.world Example.afterScrape).
  exact (proj1 (scrape_consistent Example.world emptyState consistent_empty)).
Defined.

Lemma X16_the_store_after_the_first_run :
  consistent Example.afterScrape
  /\ (forall eventsWhere,
        exists found, findPosts eventsWhere Example.afterScrape
                      = (Ok found, Example.afterScrape))
  /\ (forall eventsWhere,
        exists found, findEvents eventsWhere Example.afterScrape
                      = (Ok found, Example.afterScrape))
  /\ forall w, fst (fixupInstagramIngestion w Example.afterScrape) = Ok tt.
Proof.
  apply (X16_reads_of_a_built_store_return Example.afterScrape).
  exact (reach_scrapeAll Example.world emptyState reach_empty).
Defined.

Lemma X17_a_chatty_reply :
  postProcessOpenAiInstagramResponse Example.world
    ("Here you go: " ++ "{" ++ " } " ++ "}" ++ " Enjoy!")%string
  = postProcessOpenAiInstagramResponse Example.world ("{" ++ " } " ++ "}")%string.
Proof.
  apply (X17_text_around_the_object_is_ignored Example.world
           "Here you go: " " } " " Enjoy!");
    cbn; intuition discriminate.
Defined.

Lemma X20_demo_user_has_moved :
  exists o st1,
    getOrInsertOrganizer (Example.source "demo_user") emptyState = (Ok o, st1)
    /\ getOrInsertOrganizer movedSource st1 = (Ok o, st1)
    /\ o.(InstagramEventOrganizer.city) = "San Francisco".
Proof.
  destruct (X20_getOrInsertOrganizer_first_source_wins (Example.source "demo_user")
              movedSource emptyState eq_refl)
    as (o & st1 & H1 & H2 & _ & _ & _ & H3).
  exists o, st1. split; [exact H1|]. split; [exact H2|].
  apply H3. intros known [].
Defined.



